(** * otp-profile-score: scoring of OpenTripPlanner profile options

    A shallow embedding of
    [components/conveyal/otp-profile-score/master/index.js] and the
    properties of its tally, score and expansion stages.

    JavaScript numbers are IEEE 754 binary64 values and are embedded as
    Rocq's primitive floats, so every arithmetic expression below is the
    source expression, evaluated with the source's rounding.  An absent
    property ([undefined]) is [None]; arithmetic on it goes through
    [num], JavaScript's ToNumber.  Properties the source dereferences
    without a guard ([mode], [time], [distance], [waitStats.avg], ...)
    are typed as present; the one dereference that can fail on a
    well-typed option, [segmentPatterns[0]] of an empty array, is
    modelled as a thrown [TypeError]. *)

From Stdlib Require Import ZArith List String Ascii Bool Lia Floats
  Permutation Sorted Uint63.
From stdpp Require Import base option gmap strings.
Import ListNotations.

Set Warnings "-inexact-float".
Local Open Scope string_scope.
Local Open Scope list_scope.

(** ** Exceptions *)

Inductive result (A : Type) : Type :=
| Ok (a : A)
| TypeError.
Arguments Ok {A} a.
Arguments TypeError {A}.

Definition bind {A B : Type} (r : result A) (k : A -> result B) : result B :=
  match r with
  | Ok a => k a
  | TypeError => TypeError
  end.

Notation "'let*' x ':=' r 'in' k" := (bind r (fun x => k))
  (at level 10, x name, r at level 200, k at level 200).

(** Statement sequencing on a mutated object: [o ;> f ;> g] is
    [f] then [g]. *)
Notation "o ;> f" := (f o) (at level 50, left associativity, only parsing).

(** [forEach] with a body that may throw; the accumulator is the state the
    callback closes over. *)
Fixpoint forEachM {A S : Type} (f : S -> A -> result S) (l : list A) (s : S)
  : result S :=
  match l with
  | [] => Ok s
  | a :: l' => let* s' := f s a in forEachM f l' s'
  end.

(** ** Numbers and strings *)

(** ToNumber of a property that may be absent. *)
Definition num (v : option float) : float :=
  match v with
  | Some x => x
  | None => nan
  end.

(** ToBoolean of a number: [0], [-0] and [NaN] are falsy. *)
Definition truthy_num (x : float) : bool :=
  negb (PrimFloat.eqb x 0%float) && negb (PrimFloat.is_nan x).

(** ToBoolean of a string: only the empty string is falsy. *)
Definition truthy_str (s : string) : bool :=
  match s with
  | EmptyString => false
  | _ => true
  end.

(** An array length as a number (lengths are below 2^32). *)
Definition float_of_nat (n : nat) : float :=
  PrimFloat.of_uint63 (Uint63.of_Z (Z.of_nat n)).

Definition lower_ascii (c : ascii) : ascii :=
  let n := nat_of_ascii c in
  if Nat.leb 65 n && Nat.leb n 90 then ascii_of_nat (n + 32) else c.

(** [String.prototype.toLowerCase] on the ASCII letters. *)
Fixpoint toLowerCase (s : string) : string :=
  match s with
  | EmptyString => EmptyString
  | String c s' => String (lower_ascii c) (toLowerCase s')
  end.

(** [Array.prototype.indexOf] on an array of strings: the first index
    holding the string, or [-1]. *)
Fixpoint indexOf_from (l : list string) (x : string) (i : Z) : Z :=
  match l with
  | [] => (-1)%Z
  | y :: l' => if String.eqb y x then i else indexOf_from l' x (i + 1)%Z
  end.

Definition indexOf (l : list string) (x : string) : Z := indexOf_from l x 0.

(** ** Constants *)

Definition CO2_PER_GALLON : float := 8.887%float.
Definition CYCLING_MET : float := 8%float.
Definition METERS_TO_MILES : float := 0.000621371%float.
Definition SECONDS_TO_HOURS : float := (1 / 60 / 60)%float.
Definition WALKING_MET : float := 3.8%float.
Definition CO2_PER_TRANSIT_TRIP : float := (239000000 / 200000000)%float.

(** ** Configuration objects

    [factors] and [rates] are plain objects keyed by name; a factor is a
    number or a function. *)

Inductive value : Type :=
| VNum (x : float)
| VFun (f : float -> float).

(** ToNumber of a configuration entry. *)
Definition numv (v : option value) : float :=
  match v with
  | Some (VNum x) => x
  | _ => nan
  end.

Definition DEFAULT_TIME_FACTORS_init : gmap string value :=
  <["bikeParking" := VNum 1%float]>
  (<["calories" := VNum (-0.01)%float]>
  (<["carParking" := VNum 5%float]>
  (<["co2" := VNum 0.5%float]>
  (<["cost" := VNum 5%float]>
  (<["transfer" := VNum 5%float]> ∅))))).

Definition DEFAULT_RATES_init : gmap string value :=
  <["bikeSpeed" := VNum 4.1%float]>
  (<["carParkingCost" := VNum 10%float]>
  (<["co2PerTransitTrip" := VNum CO2_PER_TRANSIT_TRIP]>
  (<["mileageRate" := VNum 0.56%float]>
  (<["mpg" := VNum 21.4%float]>
  (<["walkSpeed" := VNum 1.4%float]>
  (<["weight" := VNum 75%float]> ∅)))))).

(** ** Itinerary data *)

Module StreetEdge.
Record t : Type := mk {
  mode : option string;
  distance : float
}.
End StreetEdge.

Module Leg.
Record t : Type := mk {
  mode : string;
  streetEdges : option (list StreetEdge.t);
  time : float
}.
End Leg.

Module Pattern.
Record t : Type := mk {
  nTrips : float
}.
End Pattern.

Module Segment.
Record t : Type := mk {
  mode : string;
  segmentPatterns : option (list Pattern.t);
  waitStats_avg : float;
  rideStats_avg : float;
  walkTime : float;
  walkDistance : float
}.
End Segment.

Module Fare.
Record t : Type := mk {
  peak : option float
}.
End Fare.

(** The option object.  The first four properties come from the profiler;
    the others are the annotations [tally] and [processOption] write. *)
Module Opt.
#[projections(primitive)]
Record t : Type := mk {
  access : option (list Leg.t);
  egress : option (list Leg.t);
  transit : option (list Segment.t);
  fares : option (list (option Fare.t));
  bikeCalories : option float;
  calories : option float;
  cost : option float;
  emissions : option float;
  modes : option (list string);
  time : option float;
  timeInTransit : option float;
  transfers : option float;
  transitCost : option float;
  walkCalories : option float;
  bikeDistance : option float;
  driveDistance : option float;
  walkDistance : option float;
  carCost : option float;
  trips : option float;
  score : option float
}.

Definition set_access (v : option (list Leg.t)) (o : t) : t :=
  mk v (egress o) (transit o) (fares o) (bikeCalories o) (calories o) (cost o)
    (emissions o) (modes o) (time o) (timeInTransit o) (transfers o)
    (transitCost o) (walkCalories o) (bikeDistance o) (driveDistance o)
    (walkDistance o) (carCost o) (trips o) (score o).
Definition set_egress (v : option (list Leg.t)) (o : t) : t :=
  mk (access o) v (transit o) (fares o) (bikeCalories o) (calories o) (cost o)
    (emissions o) (modes o) (time o) (timeInTransit o) (transfers o)
    (transitCost o) (walkCalories o) (bikeDistance o) (driveDistance o)
    (walkDistance o) (carCost o) (trips o) (score o).
Definition set_bikeCalories (v : option float) (o : t) : t :=
  mk (access o) (egress o) (transit o) (fares o) v (calories o) (cost o)
    (emissions o) (modes o) (time o) (timeInTransit o) (transfers o)
    (transitCost o) (walkCalories o) (bikeDistance o) (driveDistance o)
    (walkDistance o) (carCost o) (trips o) (score o).
Definition set_calories (v : option float) (o : t) : t :=
  mk (access o) (egress o) (transit o) (fares o) (bikeCalories o) v (cost o)
    (emissions o) (modes o) (time o) (timeInTransit o) (transfers o)
    (transitCost o) (walkCalories o) (bikeDistance o) (driveDistance o)
    (walkDistance o) (carCost o) (trips o) (score o).
Definition set_cost (v : option float) (o : t) : t :=
  mk (access o) (egress o) (transit o) (fares o) (bikeCalories o) (calories o)
    v (emissions o) (modes o) (time o) (timeInTransit o) (transfers o)
    (transitCost o) (walkCalories o) (bikeDistance o) (driveDistance o)
    (walkDistance o) (carCost o) (trips o) (score o).
Definition set_emissions (v : option float) (o : t) : t :=
  mk (access o) (egress o) (transit o) (fares o) (bikeCalories o) (calories o)
    (cost o) v (modes o) (time o) (timeInTransit o) (transfers o)
    (transitCost o) (walkCalories o) (bikeDistance o) (driveDistance o)
    (walkDistance o) (carCost o) (trips o) (score o).
Definition set_modes (v : option (list string)) (o : t) : t :=
  mk (access o) (egress o) (transit o) (fares o) (bikeCalories o) (calories o)
    (cost o) (emissions o) v (time o) (timeInTransit o) (transfers o)
    (transitCost o) (walkCalories o) (bikeDistance o) (driveDistance o)
    (walkDistance o) (carCost o) (trips o) (score o).
Definition set_time (v : option float) (o : t) : t :=
  mk (access o) (egress o) (transit o) (fares o) (bikeCalories o) (calories o)
    (cost o) (emissions o) (modes o) v (timeInTransit o) (transfers o)
    (transitCost o) (walkCalories o) (bikeDistance o) (driveDistance o)
    (walkDistance o) (carCost o) (trips o) (score o).
Definition set_timeInTransit (v : option float) (o : t) : t :=
  mk (access o) (egress o) (transit o) (fares o) (bikeCalories o) (calories o)
    (cost o) (emissions o) (modes o) (time o) v (transfers o) (transitCost o)
    (walkCalories o) (bikeDistance o) (driveDistance o) (walkDistance o)
    (carCost o) (trips o) (score o).
Definition set_transfers (v : option float) (o : t) : t :=
  mk (access o) (egress o) (transit o) (fares o) (bikeCalories o) (calories o)
    (cost o) (emissions o) (modes o) (time o) (timeInTransit o) v
    (transitCost o) (walkCalories o) (bikeDistance o) (driveDistance o)
    (walkDistance o) (carCost o) (trips o) (score o).
Definition set_transitCost (v : option float) (o : t) : t :=
  mk (access o) (egress o) (transit o) (fares o) (bikeCalories o) (calories o)
    (cost o) (emissions o) (modes o) (time o) (timeInTransit o) (transfers o)
    v (walkCalories o) (bikeDistance o) (driveDistance o) (walkDistance o)
    (carCost o) (trips o) (score o).
Definition set_walkCalories (v : option float) (o : t) : t :=
  mk (access o) (egress o) (transit o) (fares o) (bikeCalories o) (calories o)
    (cost o) (emissions o) (modes o) (time o) (timeInTransit o) (transfers o)
    (transitCost o) v (bikeDistance o) (driveDistance o) (walkDistance o)
    (carCost o) (trips o) (score o).
Definition set_bikeDistance (v : option float) (o : t) : t :=
  mk (access o) (egress o) (transit o) (fares o) (bikeCalories o) (calories o)
    (cost o) (emissions o) (modes o) (time o) (timeInTransit o) (transfers o)
    (transitCost o) (walkCalories o) v (driveDistance o) (walkDistance o)
    (carCost o) (trips o) (score o).
Definition set_driveDistance (v : option float) (o : t) : t :=
  mk (access o) (egress o) (transit o) (fares o) (bikeCalories o) (calories o)
    (cost o) (emissions o) (modes o) (time o) (timeInTransit o) (transfers o)
    (transitCost o) (walkCalories o) (bikeDistance o) v (walkDistance o)
    (carCost o) (trips o) (score o).
Definition set_walkDistance (v : option float) (o : t) : t :=
  mk (access o) (egress o) (transit o) (fares o) (bikeCalories o) (calories o)
    (cost o) (emissions o) (modes o) (time o) (timeInTransit o) (transfers o)
    (transitCost o) (walkCalories o) (bikeDistance o) (driveDistance o) v
    (carCost o) (trips o) (score o).
Definition set_carCost (v : option float) (o : t) : t :=
  mk (access o) (egress o) (transit o) (fares o) (bikeCalories o) (calories o)
    (cost o) (emissions o) (modes o) (time o) (timeInTransit o) (transfers o)
    (transitCost o) (walkCalories o) (bikeDistance o) (driveDistance o)
    (walkDistance o) v (trips o) (score o).
Definition set_trips (v : option float) (o : t) : t :=
  mk (access o) (egress o) (transit o) (fares o) (bikeCalories o) (calories o)
    (cost o) (emissions o) (modes o) (time o) (timeInTransit o) (transfers o)
    (transitCost o) (walkCalories o) (bikeDistance o) (driveDistance o)
    (walkDistance o) (carCost o) v (score o).
Definition set_score (v : option float) (o : t) : t :=
  mk (access o) (egress o) (transit o) (fares o) (bikeCalories o) (calories o)
    (cost o) (emissions o) (modes o) (time o) (timeInTransit o) (transfers o)
    (transitCost o) (walkCalories o) (bikeDistance o) (driveDistance o)
    (walkDistance o) (carCost o) (trips o) v.

(** A profiler option that has not been annotated yet. *)
Definition raw (a e : option (list Leg.t)) (tr : option (list Segment.t))
  (fs : option (list (option Fare.t))) : t :=
  mk a e tr fs None None None None None None None None None None None None
    None None None None.
End Opt.

(** ** Shared helpers *)

(** The deep-clone collaborator: on immutable values a structurally
    independent copy is the value itself. *)
Definition clone {A : Type} (x : A) : A := x.

Definition caloriesBurned (met kg hours : float) : float :=
  (met * kg * hours)%float.

(** [applyFactor(v, f)]: call a function factor, multiply by a numeric
    one. *)
Definition applyFactor (v : float) (f : option value) : float :=
  match f with
  | Some (VFun g) => g v
  | _ => (numv f * v)%float
  end.

(** One step of the reduction in [streetEdgeDistanceForMode]; the state is
    the closed-over [currentMode] and the accumulated distance. *)
Definition streetEdgeStep (mode : string) (st : string * float)
  (step : StreetEdge.t) : string * float :=
  let '(currentMode, distance) := st in
  let currentMode :=
    match StreetEdge.mode step with
    | Some m => if truthy_str m then toLowerCase m else currentMode
    | None => currentMode
    end in
  (currentMode,
   if String.eqb currentMode mode
   then (distance + StreetEdge.distance step)%float
   else distance).

Definition streetEdgeDistanceForMode (streetEdges : list StreetEdge.t)
  (mode : string) : float :=
  snd (fold_left (streetEdgeStep mode) streetEdges ("walk", 0%float)).

(** [o.modes.push(mode)] *)
Definition push_mode (mode : string) (o : Opt.t) : result Opt.t :=
  match Opt.modes o with
  | Some ms => Ok (Opt.set_modes (Some (ms ++ [mode])) o)
  | None => TypeError
  end.

Definition add_driveDistance (d : float) (o : Opt.t) : Opt.t :=
  Opt.set_driveDistance (Some (num (Opt.driveDistance o) + d)%float) o.

Definition add_bikeDistance (d : float) (o : Opt.t) : Opt.t :=
  Opt.set_bikeDistance (Some (num (Opt.bikeDistance o) + d)%float) o.

Definition add_walkDistance (d : float) (o : Opt.t) : Opt.t :=
  Opt.set_walkDistance (Some (num (Opt.walkDistance o) + d)%float) o.

Definition add_time (d : float) (o : Opt.t) : Opt.t :=
  Opt.set_time (Some (num (Opt.time o) + d)%float) o.

Definition addStreetEdges (o : Opt.t) (mode : string)
  (streetEdges : option (list StreetEdge.t)) : result Opt.t :=
  match streetEdges with
  | None => Ok o
  | Some edges =>
    let* o := push_mode mode o in
    if String.eqb mode "car" then
      Ok (o ;> add_driveDistance (streetEdgeDistanceForMode edges "car"))
    else if String.eqb mode "bicycle" then
      Ok (o ;> add_bikeDistance (streetEdgeDistanceForMode edges "bicycle"))
    else if String.eqb mode "bicycle_rent" then
      let* o := push_mode "walk" o in
      Ok (o ;> add_bikeDistance (streetEdgeDistanceForMode edges "bicycle")
            ;> add_walkDistance (streetEdgeDistanceForMode edges "walk"))
    else if String.eqb mode "walk" then
      Ok (o ;> add_walkDistance (streetEdgeDistanceForMode edges "walk"))
    else Ok o
  end.

(** ** Tally *)

Definition tally_defaults (o : Opt.t) : Opt.t :=
  o ;> Opt.set_bikeCalories (Some 0%float)
    ;> Opt.set_calories (Some 0%float)
    ;> Opt.set_cost (Some 0%float)
    ;> Opt.set_emissions (Some 0%float)
    ;> Opt.set_modes (Some [])
    ;> Opt.set_time (Some 0%float)
    ;> Opt.set_timeInTransit (Some 0%float)
    ;> Opt.set_transfers (Some 0%float)
    ;> Opt.set_transitCost (Some 0%float)
    ;> Opt.set_walkCalories (Some 0%float)
    ;> Opt.set_bikeDistance (Some 0%float)
    ;> Opt.set_driveDistance (Some 0%float)
    ;> Opt.set_walkDistance (Some 0%float).

Definition tally_access (o : Opt.t) : result Opt.t :=
  match Opt.access o with
  | Some (access :: _) =>
    let accessMode := toLowerCase (Leg.mode access) in
    let* o := addStreetEdges o accessMode (Leg.streetEdges access) in
    Ok (o ;> add_time (Leg.time access))
  | _ => Ok o
  end.

Definition tally_egress (o : Opt.t) : result Opt.t :=
  match Opt.egress o with
  | Some (egress :: _) =>
    let egressMode := toLowerCase (Leg.mode egress) in
    let* o := addStreetEdges o egressMode (Leg.streetEdges egress) in
    Ok (o ;> add_time (Leg.time egress))
  | _ => Ok o
  end.

(** The body of [o.transit.forEach]. *)
Definition tally_segment (rates : gmap string value) (o : Opt.t)
  (segment : Segment.t) : result Opt.t :=
  let* o := push_mode (toLowerCase (Segment.mode segment)) o in
  let* trips :=
    match Segment.segmentPatterns segment with
    | Some (p :: _) => Ok (Pattern.nTrips p)
    | Some [] => TypeError
    | None => Ok 0%float
    end in
  let o :=
    if PrimFloat.ltb trips (num (Opt.trips o))
    then Opt.set_trips (Some trips) o else o in
  let timeInTransit :=
    (Segment.waitStats_avg segment + Segment.rideStats_avg segment)%float in
  Ok (o ;> Opt.set_timeInTransit
             (Some (num (Opt.timeInTransit o) + timeInTransit)%float)
        ;> add_time (Segment.walkTime segment + timeInTransit)%float
        ;> add_walkDistance (Segment.walkDistance segment)
        ;> (fun o => Opt.set_emissions
             (Some (num (Opt.emissions o)
                    + numv (rates !! "co2PerTransitTrip"))%float) o)).

(** The body of [o.fares.forEach]. *)
Definition tally_fare (o : Opt.t) (fare : option Fare.t) : Opt.t :=
  match fare with
  | Some f =>
    match Fare.peak f with
    | Some p =>
      if truthy_num p
      then Opt.set_transitCost (Some (num (Opt.transitCost o) + p)%float) o
      else o
    | None => o
    end
  | None => o
  end.

Definition tally_transit (rates : gmap string value) (o : Opt.t)
  : result Opt.t :=
  match Opt.transit o with
  | Some ((_ :: _) as transit) =>
    let o :=
      o ;> Opt.set_transfers (Some (float_of_nat (length transit) - 1)%float)
        ;> Opt.set_transitCost (Some 0%float)
        ;> Opt.set_trips (Some infinity) in
    let* o := forEachM (tally_segment rates) transit o in
    let o :=
      match Opt.fares o with
      | Some fares => fold_left tally_fare fares o
      | None => o
      end in
    Ok (Opt.set_cost (Some (num (Opt.cost o) + num (Opt.transitCost o))%float) o)
  | _ => Ok o
  end.

(** Set the walking calories burned. *)
Definition tally_walkCalories (rates : gmap string value) (o : Opt.t)
  : result Opt.t :=
  match Opt.modes o with
  | None => TypeError
  | Some modes =>
    if negb (indexOf modes "walk" =? -1)%Z then
      Ok (Opt.set_walkCalories
            (Some (caloriesBurned WALKING_MET (numv (rates !! "weight"))
                     (num (Opt.walkDistance o) / numv (rates !! "walkSpeed")
                      * SECONDS_TO_HOURS)%float)) o)
    else Ok o
  end.

(** Set the biking calories burned. *)
Definition tally_bikeCalories (rates : gmap string value) (o : Opt.t)
  : result Opt.t :=
  match Opt.modes o with
  | None => TypeError
  | Some modes =>
    if negb (indexOf modes "bicycle" =? -1)%Z
       || negb (indexOf modes "bicycle_rent" =? -1)%Z then
      Ok (Opt.set_bikeCalories
            (Some (caloriesBurned CYCLING_MET (numv (rates !! "weight"))
                     (num (Opt.bikeDistance o) / numv (rates !! "bikeSpeed")
                      * SECONDS_TO_HOURS)%float)) o)
    else Ok o
  end.

(** Set the parking costs (and the car emissions). *)
Definition tally_car (rates : gmap string value) (o : Opt.t)
  : result Opt.t :=
  match Opt.modes o with
  | None => TypeError
  | Some modes =>
    if negb (indexOf modes "car" =? -1)%Z then
      let o :=
        Opt.set_carCost
          (Some (numv (rates !! "mileageRate")
                 * (num (Opt.driveDistance o) * METERS_TO_MILES)
                 + numv (rates !! "carParkingCost"))%float) o in
      let o :=
        Opt.set_cost (Some (num (Opt.cost o) + num (Opt.carCost o))%float) o in
      Ok (Opt.set_emissions
            (Some (num (Opt.driveDistance o) / numv (rates !! "mpg")
                   * CO2_PER_GALLON)%float) o)
    else Ok o
  end.

(** The reduction that keeps the first occurrence of every mode. *)
Definition unique_step (modes : list string) (mode : string) : list string :=
  if (indexOf modes mode =? -1)%Z then modes ++ [mode] else modes.

Definition unique (modes : list string) : list string :=
  fold_left unique_step modes [].

(** The last two statements: unique modes only, total calories. *)
Definition tally_finish (o : Opt.t) : result Opt.t :=
  match Opt.modes o with
  | None => TypeError
  | Some modes =>
    let o := Opt.set_modes (Some (unique modes)) o in
    Ok (Opt.set_calories
          (Some (num (Opt.bikeCalories o) + num (Opt.walkCalories o))%float) o)
  end.

(** Everything [tally] does before it de-duplicates [modes]. *)
Definition tally_body (rates : gmap string value) (o : Opt.t)
  : result Opt.t :=
  let o := tally_defaults o in
  let* o := tally_access o in
  let* o := tally_egress o in
  let* o := tally_transit rates o in
  let* o := tally_walkCalories rates o in
  let* o := tally_bikeCalories rates o in
  tally_car rates o.

Definition tally (rates : gmap string value) (o : Opt.t) : result Opt.t :=
  let* o := tally_body rates o in
  tally_finish o.

(** ** Score *)

(** The body of [o.modes.forEach] in [score]; the state is the pair of the
    closed-over [score] and [totalCalories]. *)
Definition score_mode (factors : gmap string value) (o : Opt.t)
  (st : float * float) (mode : string) : float * float :=
  let '(score, totalCalories) := st in
  if String.eqb mode "car" then
    let score := (score + applyFactor 1 (factors !! "carParking"))%float in
    let score :=
      (score + applyFactor (num (Opt.emissions o)) (factors !! "co2"))%float in
    (score, totalCalories)
  else if String.eqb mode "bicycle" || String.eqb mode "bicycle_rent" then
    ((score + applyFactor 1 (factors !! "bikeParking"))%float,
     (totalCalories + num (Opt.bikeCalories o))%float)
  else if String.eqb mode "walk" then
    (score, (totalCalories + num (Opt.walkCalories o))%float)
  else st.

(** [score] and [totalCalories] when the loop over the modes is done. *)
Definition score_modes (factors : gmap string value) (o : Opt.t)
  : result (float * float) :=
  match Opt.modes o with
  | None => TypeError
  | Some modes =>
    Ok (fold_left (score_mode factors o) modes
          ((num (Opt.time o) / 60)%float, 0%float))
  end.

Definition score (factors : gmap string value) (o : Opt.t) : result float :=
  let* st := score_modes factors o in
  let '(score, totalCalories) := st in
  let score :=
    (score + applyFactor (num (Opt.transfers o)) (factors !! "transfer"))%float in
  let score :=
    (score + applyFactor (num (Opt.cost o)) (factors !! "cost"))%float in
  let score :=
    (score + applyFactor totalCalories (factors !! "calories"))%float in
  Ok score.

(** ** The scorer object and the shared defaults

    [merge(a, b)] writes the keys of [b] into [a] and returns [a] itself,
    and the constructor calls it with the module-level default objects as
    [a]: the objects an instance holds in [this.factors] and [this.rates]
    are those two module-level objects.  The heap holds them; an instance
    holds references. *)

Inductive ref : Type :=
| Ref_DEFAULT_TIME_FACTORS
| Ref_DEFAULT_RATES.

Record Heap : Type := mkHeap {
  DEFAULT_TIME_FACTORS : gmap string value;
  DEFAULT_RATES : gmap string value
}.

(** The heap when the module has been loaded. *)
Definition initial_heap : Heap :=
  mkHeap DEFAULT_TIME_FACTORS_init DEFAULT_RATES_init.

Definition deref (h : Heap) (r : ref) : gmap string value :=
  match r with
  | Ref_DEFAULT_TIME_FACTORS => DEFAULT_TIME_FACTORS h
  | Ref_DEFAULT_RATES => DEFAULT_RATES h
  end.

Definition store (r : ref) (obj : gmap string value) (h : Heap) : Heap :=
  match r with
  | Ref_DEFAULT_TIME_FACTORS => mkHeap obj (DEFAULT_RATES h)
  | Ref_DEFAULT_RATES => mkHeap (DEFAULT_TIME_FACTORS h) obj
  end.

(** [for (var k in b) a[k] = b[k]] on the contents of [a]. *)
Definition merge_keys (a b : gmap string value) : gmap string value :=
  map_fold (fun k v a => <[k := v]> a) a b.

Definition merge (a : ref) (b : gmap string value) (h : Heap) : Heap * ref :=
  (store a (merge_keys (deref h a) b) h, a).

Record Opts : Type := mkOpts {
  opts_factors : option (gmap string value);
  opts_rates : option (gmap string value)
}.

Record ProfileScore : Type := mkProfileScore {
  factors : ref;
  rates : ref
}.

(** [new ProfileScore(opts)] *)
Definition ProfileScore_new (opts : option Opts) (h : Heap)
  : Heap * ProfileScore :=
  let opts := default (mkOpts None None) opts in
  let '(h, f) :=
    merge Ref_DEFAULT_TIME_FACTORS (default ∅ (opts_factors opts)) h in
  let '(h, r) := merge Ref_DEFAULT_RATES (default ∅ (opts_rates opts)) h in
  (h, mkProfileScore f r).

(** A sequence of constructions, oldest first; the instances come back in
    the same order. *)
Fixpoint construct_all (optss : list (option Opts)) (h : Heap)
  : Heap * list ProfileScore :=
  match optss with
  | [] => (h, [])
  | opts :: rest =>
    let '(h, s) := ProfileScore_new opts h in
    let '(h, ss) := construct_all rest h in
    (h, s :: ss)
  end.

(** ** Processing options *)

Definition processOption (h : Heap) (this : ProfileScore) (o : Opt.t)
  : result Opt.t :=
  let* o := tally (deref h (rates this)) o in
  let* s := score (deref h (factors this)) o in
  Ok (Opt.set_score (Some s) o).

(** [Array.prototype.sort(comparefn)] as ECMAScript specifies it: a NaN
    from [comparefn] counts as [+0], an element moves behind another only
    when [comparefn] is positive on the pair, and the sort is stable.
    Insertion from the right end gives that order. *)
Definition sortCompare {A : Type} (comparefn : A -> A -> float) (x y : A)
  : float :=
  let v := comparefn x y in
  if PrimFloat.is_nan v then 0%float else v.

Fixpoint sort_insert {A : Type} (comparefn : A -> A -> float) (x : A)
  (l : list A) : list A :=
  match l with
  | [] => [x]
  | y :: l' =>
    if PrimFloat.ltb 0%float (sortCompare comparefn x y)
    then y :: sort_insert comparefn x l'
    else x :: l
  end.

Definition sort {A : Type} (comparefn : A -> A -> float) (l : list A)
  : list A :=
  fold_right (sort_insert comparefn) [] l.

(** [function(a, b) { return a.score - b.score; }] *)
Definition byScore (a b : Opt.t) : float :=
  (num (Opt.score a) - num (Opt.score b))%float.

Definition processOptions (h : Heap) (this : ProfileScore)
  (options : list Opt.t) : result (list Opt.t) :=
  let* processed :=
    forEachM (fun processed o =>
      match Opt.access o with
      | Some access =>
        forEachM (fun processed a =>
          match Opt.egress o with
          | Some ((_ :: _) as egress) =>
            forEachM (fun processed e =>
              let opt := clone o in
              let opt := Opt.set_access (Some [clone a]) opt in
              let opt := Opt.set_egress (Some [clone e]) opt in
              let* r := processOption h this opt in
              Ok (processed ++ [r])) egress processed
          | _ =>
            let opt := clone o in
            let opt := Opt.set_access (Some [clone a]) opt in
            let* r := processOption h this opt in
            Ok (processed ++ [r])
          end) access processed
      | None => Ok processed
      end) options [] in
  Ok (sort byScore processed).

(** * Vocabulary of the properties *)

(** What a stage keeps *)

(** The part of an option the profiler supplied. *)
Definition raw_of (o : Opt.t)
  : option (list Leg.t) * option (list Leg.t) * option (list Segment.t)
    * option (list (option Fare.t)) :=
  (Opt.access o, Opt.egress o, Opt.transit o, Opt.fares o).

(** [o'] still has its [modes] array and the profiler's data of [o]. *)
Definition kept (o o' : Opt.t) : Prop :=
  is_Some (Opt.modes o') /\ raw_of o' = raw_of o.

(** A transit leg on which [segment.segmentPatterns[0]] can be read. *)
Definition segment_ok (s : Segment.t) : Prop :=
  Segment.segmentPatterns s <> Some [].

(** An option whose transit legs can all be read. *)
Definition transit_ok (o : Opt.t) : Prop :=
  Forall segment_ok (default [] (Opt.transit o)).

(** Street edges by sub-mode *)

(** The sub-mode an edge is travelled in: the one it declares, or else the
    one in force before it. *)
Definition submode_after (current : string) (e : StreetEdge.t) : string :=
  match StreetEdge.mode e with
  | Some m => if truthy_str m then toLowerCase m else current
  | None => current
  end.

(** The edges whose current sub-mode is [target], in order, when the
    sub-mode in force before the first edge is [current]. *)
Fixpoint edges_in_submode (current target : string)
  (edges : list StreetEdge.t) : list StreetEdge.t :=
  match edges with
  | [] => []
  | e :: es =>
    let current := submode_after current e in
    if String.eqb current target
    then e :: edges_in_submode current target es
    else edges_in_submode current target es
  end.

(** The distances of the edges added up from [d], first edge first. *)
Definition sum_distances_from (d : float) (edges : list StreetEdge.t) : float :=
  fold_left (fun d e => (d + StreetEdge.distance e)%float) edges d.

(** The distances of the edges added up from 0. *)
Definition sum_distances (edges : list StreetEdge.t) : float :=
  sum_distances_from 0%float edges.

(** The option has an access leg and nothing else. *)
Definition access_only (o : Opt.t) (leg : Leg.t) (rest : list Leg.t) : Prop :=
  Opt.access o = Some (leg :: rest) /\ Opt.egress o = None /\
  Opt.transit o = None.

(** Branches *)

(** [g] on every element, first to last, until one throws. *)
Fixpoint mapM {A B : Type} (g : A -> result B) (l : list A)
  : result (list B) :=
  match l with
  | [] => Ok []
  | a :: l' =>
    let* b := g a in
    let* bs := mapM g l' in
    Ok (b :: bs)
  end.

(** The branches of one access alternative, in the order the code makes
    them. *)
Definition expand_access (o : Opt.t) (a : Leg.t) : list Opt.t :=
  match Opt.egress o with
  | Some ((_ :: _) as egress) =>
    map (fun e => Opt.set_egress (Some [e]) (Opt.set_access (Some [a]) o))
      egress
  | _ => [Opt.set_access (Some [a]) o]
  end.

(** The branches of one raw option. *)
Definition expand (o : Opt.t) : list Opt.t :=
  match Opt.access o with
  | Some access => flat_map (expand_access o) access
  | None => []
  end.

(** The number of branches of a raw option: every pair of an access and an
    egress alternative when there are both, every access alternative when
    there is no egress alternative, none without an access alternative. *)
Definition branch_count (o : Opt.t) : nat :=
  match Opt.access o, Opt.egress o with
  | Some ((_ :: _) as access), Some ((_ :: _) as egress) =>
    length access * length egress
  | Some ((_ :: _) as access), _ => length access
  | _, _ => 0
  end.

(** The order of the scores *)

(** A binary64 number as an integer multiple of the smallest subnormal,
    [2^-1074]; the infinities lie beyond every finite value.  Both zeros
    are 0; NaN has no place in the order. *)
Definition float_ord (x : spec_float) : Z :=
  match x with
  | S754_zero _ => 0%Z
  | S754_nan => 0%Z
  | S754_infinity s => cond_Zopp s (2 ^ 2200)%Z
  | S754_finite s m e => cond_Zopp s (Zpos m * 2 ^ (e + 1074))%Z
  end.

(** A number, in the specification's representation. *)
Definition float_not_nan (x : spec_float) : Prop := x <> S754_nan.

(** A number with the sign [s]: finite or infinite, not a zero. *)
Definition float_signed (s : bool) (x : spec_float) : Prop :=
  (exists m e, x = S754_finite s m e) \/ x = S754_infinity s.

(** The place of a JavaScript number in the order. *)
Definition float_key (x : float) : Z := float_ord (Prim2SF x).

(** A list in ascending order of the key [k]. *)
Definition ascending {A : Type} (k : A -> Z) : list A -> Prop :=
  StronglySorted (fun x y => (k x <= k y)%Z).

(** The score of a result, as a number. *)
Definition score_of (r : Opt.t) : float := num (Opt.score r).

(** The score of the result is a number (not NaN). *)
Definition has_score (r : Opt.t) : Prop :=
  PrimFloat.is_nan (score_of r) = false.

(** Itineraries to run the code on *)

(** A scorer with the defaults, and the heap it leaves. *)
Definition default_heap : Heap := fst (ProfileScore_new None initial_heap).
Definition default_scorer : ProfileScore :=
  snd (ProfileScore_new None initial_heap).

(** The option of Scenario A: a walk to the destination. *)
Definition scenario_A : Opt.t :=
  Opt.raw
    (Some [Leg.mk "walk" (Some [StreetEdge.mk None 500%float]) 360%float])
    None None None.

(** Scenario A again, the mode in capitals: the same score. *)
Definition scenario_A_caps : Opt.t :=
  Opt.raw
    (Some [Leg.mk "WALK" (Some [StreetEdge.mk None 500%float]) 360%float])
    None None None.

(** Scenario B: two access alternatives, one egress alternative. *)
Definition scenario_B : Opt.t :=
  Opt.raw
    (Some [Leg.mk "WALK" (Some [StreetEdge.mk None 400%float]) 300%float;
           Leg.mk "BICYCLE" (Some [StreetEdge.mk (Some "BICYCLE") 400%float])
             100%float])
    (Some [Leg.mk "WALK" (Some [StreetEdge.mk None 200%float]) 150%float])
    (Some [Segment.mk "BUS" (Some [Pattern.mk 6%float]) 240%float 900%float
             0%float 0%float])
    None.

(** The option of Scenario C. *)
Definition scenario_C : Opt.t :=
  Opt.raw
    (Some [Leg.mk "bicycle_rent"
             (Some [StreetEdge.mk (Some "bicycle") 1000%float;
                    StreetEdge.mk (Some "walk") 100%float])
             360%float])
    None None None.

(** A rental-bike leg: cycled for two edges, then walked. *)
Definition rental_edges : list StreetEdge.t :=
  [StreetEdge.mk (Some "BICYCLE") 700%float;
   StreetEdge.mk None 50%float;
   StreetEdge.mk (Some "walk") 30%float].

(** The leg, its mode in mixed case, and an option that has only it. *)
Definition rental_leg : Leg.t :=
  Leg.mk "Bicycle_Rent" (Some rental_edges) 120%float.

Definition rental_access : Opt.t :=
  Opt.raw (Some [rental_leg]) None None None.

(** A walk leg of six minutes that came without street edges. *)
Definition walk_without_edges : Leg.t := Leg.mk "WALK" None 360%float.


(** A walk access leg of 60 seconds without street edges: the tallied
    option has no mode, no transfer and no cost. *)
Definition one_minute : Opt.t :=
  Opt.raw (Some [Leg.mk "walk" None 60%float]) None None None.

(** A drive to the station, two transit legs, a walk from the stop. *)
Definition car_and_transit : Opt.t :=
  Opt.raw
    (Some [Leg.mk "CAR" (Some [StreetEdge.mk (Some "car") 8000%float])
             600%float])
    (Some [Leg.mk "WALK" (Some [StreetEdge.mk None 300%float]) 240%float])
    (Some [Segment.mk "SUBWAY" (Some [Pattern.mk 12%float]) 180%float
             900%float 60%float 80%float;
           Segment.mk "BUS" None 300%float 600%float 120%float 150%float])
    (Some [Some (Fare.mk (Some 2.5%float)); None;
           Some (Fare.mk None)]).

(** Walk to a bus, change to the subway, change to a bus, walk. *)
Definition walk_bus_subway_bus : Opt.t :=
  Opt.raw
    (Some [Leg.mk "WALK" (Some [StreetEdge.mk None 200%float]) 150%float])
    (Some [Leg.mk "WALK" (Some [StreetEdge.mk None 100%float]) 80%float])
    (Some [Segment.mk "BUS" None 120%float 600%float 0%float 0%float;
           Segment.mk "SUBWAY" None 200%float 500%float 60%float 70%float;
           Segment.mk "BUS" None 150%float 400%float 30%float 40%float])
    None.

(** Cycle to the station, ride, take a rental bike at the other end. *)
Definition bike_then_rental : Opt.t :=
  Opt.raw
    (Some [Leg.mk "BICYCLE" (Some [StreetEdge.mk (Some "BICYCLE") 1000%float])
             300%float])
    (Some [Leg.mk "BICYCLE_RENT"
             (Some [StreetEdge.mk (Some "BICYCLE") 500%float;
                    StreetEdge.mk (Some "WALK") 100%float])
             240%float])
    None None.

(** * Vocabulary of the further properties *)

(** ** What [tally] computes, read off the option *)

(** A function on the value a call returns; a throw stays a throw. *)
Definition result_map {A B : Type} (g : A -> B) (r : result A) : result B :=
  match r with
  | Ok a => Ok (g a)
  | TypeError => TypeError
  end.

(** The transit legs of an option, none when the array is absent. *)
Definition transit_legs (o : Opt.t) : list Segment.t :=
  default [] (Opt.transit o).

(** Has the option a transit leg? *)
Definition has_transit (o : Opt.t) : bool :=
  match Opt.transit o with
  | Some (_ :: _) => true
  | _ => false
  end.

(** The modes the first alternative of an access or egress array pushes. *)
Definition leg_modes (legs : option (list Leg.t)) : list string :=
  match legs with
  | Some (leg :: _) =>
    match Leg.streetEdges leg with
    | Some _ =>
      let mode := toLowerCase (Leg.mode leg) in
      if String.eqb mode "bicycle_rent" then [mode; "walk"] else [mode]
    | None => []
    end
  | _ => []
  end.

(** The modes the transit legs push. *)
Definition transit_modes (o : Opt.t) : list string :=
  map (fun s => toLowerCase (Segment.mode s)) (transit_legs o).

(** Everything the transit legs and the street legs push, in order. *)
Definition pushed_modes (o : Opt.t) : list string :=
  leg_modes (Opt.access o) ++ leg_modes (Opt.egress o) ++ transit_modes o.

(** [modes.indexOf(m) !== -1] *)
Definition in_modes (m : string) (ms : list string) : bool :=
  negb (indexOf ms m =? -1)%Z.

(** ['car'] is among the modes the option holds. *)
Definition has_car (o : Opt.t) : bool :=
  in_modes "car" (default [] (Opt.modes o)).

(** The peak fares that count: the fare is there, has a peak, and the peak
    is a truthy number. *)
Fixpoint counted_peaks (fares : list (option Fare.t)) : list float :=
  match fares with
  | [] => []
  | Some f :: rest =>
    match Fare.peak f with
    | Some p => if truthy_num p then p :: counted_peaks rest
                else counted_peaks rest
    | None => counted_peaks rest
    end
  | None :: rest => counted_peaks rest
  end.

(** Numbers added up from [x], first to last. *)
Definition sum_from (x : float) (l : list float) : float :=
  fold_left PrimFloat.add l x.

(** [x] with [d] added [n] times. *)
Definition add_times (n : nat) (d x : float) : float :=
  Nat.iter n (fun e => (e + d)%float) x.

(** What a street leg of mode [mode] adds to the distance travelled in
    [target]: the [switch] of [addStreetEdges]. *)
Definition edge_adds (target mode : string)
  (se : option (list StreetEdge.t)) : list float :=
  match se with
  | None => []
  | Some edges =>
    let d := [streetEdgeDistanceForMode edges target] in
    if String.eqb mode "car" then
      if String.eqb target "car" then d else []
    else if String.eqb mode "bicycle" then
      if String.eqb target "bicycle" then d else []
    else if String.eqb mode "bicycle_rent" then
      if String.eqb target "bicycle" || String.eqb target "walk" then d
      else []
    else if String.eqb mode "walk" then
      if String.eqb target "walk" then d else []
    else []
  end.

(** The same for the first alternative of an access or egress array. *)
Definition leg_adds (target : string) (legs : option (list Leg.t))
  : list float :=
  match legs with
  | Some (leg :: _) =>
    edge_adds target (toLowerCase (Leg.mode leg)) (Leg.streetEdges leg)
  | _ => []
  end.

(** The time of the first alternative. *)
Definition leg_times (legs : option (list Leg.t)) : list float :=
  match legs with
  | Some (leg :: _) => [Leg.time leg]
  | _ => []
  end.

(** Waiting and riding on a transit leg. *)
Definition segment_timeInTransit (s : Segment.t) : float :=
  (Segment.waitStats_avg s + Segment.rideStats_avg s)%float.

(** Walking to, waiting for and riding a transit leg. *)
Definition segment_time (s : Segment.t) : float :=
  (Segment.walkTime s + segment_timeInTransit s)%float.

(** The trips of a transit leg: those of its first pattern, 0 when it has
    no patterns. *)
Definition segment_trips (s : Segment.t) : float :=
  match Segment.segmentPatterns s with
  | Some (p :: _) => Pattern.nTrips p
  | _ => 0%float
  end.

(** [if (trips < o.trips) o.trips = trips] *)
Definition fewer_trips (t : float) (s : Segment.t) : float :=
  if PrimFloat.ltb (segment_trips s) t then segment_trips s else t.

(** ** Footprints of the stages *)

(** [o] without what a street leg may write. *)
Definition erase_leg (o : Opt.t) : Opt.t :=
  o ;> Opt.set_modes None ;> Opt.set_time None
    ;> Opt.set_driveDistance None ;> Opt.set_bikeDistance None
    ;> Opt.set_walkDistance None.

(** [o] without what the transit block may write. *)
Definition erase_transit (o : Opt.t) : Opt.t :=
  o ;> Opt.set_transfers None ;> Opt.set_transitCost None
    ;> Opt.set_trips None ;> Opt.set_modes None
    ;> Opt.set_timeInTransit None ;> Opt.set_time None
    ;> Opt.set_walkDistance None ;> Opt.set_emissions None
    ;> Opt.set_cost None.

(** [o] without what the car block may write. *)
Definition erase_car (o : Opt.t) : Opt.t :=
  o ;> Opt.set_carCost None ;> Opt.set_cost None ;> Opt.set_emissions None.

(** [o] without what the closing statements write. *)
Definition erase_finish (o : Opt.t) : Opt.t :=
  o ;> Opt.set_calories None ;> Opt.set_modes None.

(** The three annotations that no defaults line resets, overwritten. *)
Definition stamp (c t v : option float) (o : Opt.t) : Opt.t :=
  o ;> Opt.set_score v ;> Opt.set_trips t ;> Opt.set_carCost c.

(** ** Branches and order *)

(** The branch has one access alternative and at most one egress
    alternative, taken from those of [o]; everything else is [o]'s. *)
Definition branch_of (o b : Opt.t) : Prop :=
  (exists a, a ∈ default [] (Opt.access o) /\ Opt.access b = Some [a]) /\
  ((exists e, e ∈ default [] (Opt.egress o) /\ Opt.egress b = Some [e]) \/
   (Opt.egress b = Opt.egress o /\
    (Opt.egress o = None \/ Opt.egress o = Some []))) /\
  Opt.transit b = Opt.transit o /\ Opt.fares b = Opt.fares o.

(** A list on which no element has to move behind its successor. *)
Fixpoint settled {A : Type} (comparefn : A -> A -> float) (l : list A)
  : Prop :=
  match l with
  | x :: ((y :: _) as l') =>
    PrimFloat.ltb 0 (sortCompare comparefn x y) = false /\
    settled comparefn l'
  | _ => True
  end.

(** ** Mode names *)

(** The edge declares no mode: the field is absent or the empty
    string. *)
Definition undeclared (e : StreetEdge.t) : Prop :=
  StreetEdge.mode e = None \/ StreetEdge.mode e = Some "".

(** The modes the [switch] of [score] has a case for. *)
Definition scored_mode (mode : string) : bool :=
  String.eqb mode "car" || String.eqb mode "bicycle"
  || String.eqb mode "bicycle_rent" || String.eqb mode "walk".

(** A street edge, a leg and a transit leg with the mode names in lower
    case. *)
Definition lower_edge (e : StreetEdge.t) : StreetEdge.t :=
  StreetEdge.mk (option_map toLowerCase (StreetEdge.mode e))
    (StreetEdge.distance e).

Definition lower_leg (l : Leg.t) : Leg.t :=
  Leg.mk (toLowerCase (Leg.mode l))
    (option_map (map lower_edge) (Leg.streetEdges l)) (Leg.time l).

Definition lower_segment (s : Segment.t) : Segment.t :=
  Segment.mk (toLowerCase (Segment.mode s)) (Segment.segmentPatterns s)
    (Segment.waitStats_avg s) (Segment.rideStats_avg s)
    (Segment.walkTime s) (Segment.walkDistance s).

(** The option with every mode name of the profiler's data in lower
    case: those of the access and egress alternatives, of their street
    edges and of the transit legs. *)
Definition lower_modes (o : Opt.t) : Opt.t :=
  Opt.mk (option_map (map lower_leg) (Opt.access o))
    (option_map (map lower_leg) (Opt.egress o))
    (option_map (map lower_segment) (Opt.transit o))
    (Opt.fares o) (Opt.bikeCalories o) (Opt.calories o) (Opt.cost o)
    (Opt.emissions o) (Opt.modes o) (Opt.time o) (Opt.timeInTransit o)
    (Opt.transfers o) (Opt.transitCost o) (Opt.walkCalories o)
    (Opt.bikeDistance o) (Opt.driveDistance o) (Opt.walkDistance o)
    (Opt.carCost o) (Opt.trips o) (Opt.score o).

(** ** The alternatives after the first *)

(** An access or egress array cut down to its first alternative. *)
Definition first_only (legs : option (list Leg.t)) : option (list Leg.t) :=
  match legs with
  | Some (leg :: _) => Some [leg]
  | _ => legs
  end.

(** The option with other access and egress arrays. *)
Definition with_legs (a e : option (list Leg.t)) (o : Opt.t) : Opt.t :=
  o ;> Opt.set_access a ;> Opt.set_egress e.

(** ** Constructions in sequence *)

(** The value the latest of the constructions supplies for the key [k] in
    the override object [f] ([opts.factors] or [opts.rates]), if any
    does. *)
Fixpoint last_given (f : Opts -> option (gmap string value))
  (optss : list (option Opts)) (k : string) : option value :=
  match optss with
  | [] => None
  | opts :: rest =>
    match last_given f rest k with
    | Some v => Some v
    | None => default ∅ (opts ≫= f) !! k
    end
  end.

(** ** More itineraries and scorers to run the code on *)

(** A bus leg whose list of patterns is there and empty. *)
Definition unreadable_leg : Segment.t :=
  Segment.mk "BUS" (Some []) 60%float 300%float 0%float 0%float.

(** A walk to that leg. *)
Definition unreadable_option : Opt.t :=
  Opt.raw
    (Some [Leg.mk "WALK" (Some [StreetEdge.mk None 200%float]) 150%float])
    None (Some [unreadable_leg]) None.

(** A walk of three minutes that came without street edges, and the same
    walk with a time that is not a number. *)
Definition three_minutes : Opt.t :=
  Opt.raw (Some [Leg.mk "walk" None 180%float]) None None None.

Definition no_time : Opt.t :=
  Opt.raw (Some [Leg.mk "walk" None nan]) None None None.

(** Fares without a transit leg to pay them on. *)
Definition fares_without_transit : Opt.t :=
  Opt.raw
    (Some [Leg.mk "WALK" (Some [StreetEdge.mk None 500%float]) 360%float])
    None (Some []) (Some [Some (Fare.mk (Some 2.5%float))]).

(** An option that carries annotations of another itinerary. *)
Definition stale_scenario_A : Opt.t :=
  scenario_A ;> Opt.set_modes (Some ["car"; "bus"])
             ;> Opt.set_time (Some 9999%float)
             ;> Opt.set_cost (Some 50%float)
             ;> Opt.set_emissions (Some 7%float)
             ;> Opt.set_walkDistance (Some 12345%float).

(** A car leg whose edges were never marked as driven. *)
Definition unmarked_car_leg : list StreetEdge.t :=
  [StreetEdge.mk None 5000%float; StreetEdge.mk (Some "") 3000%float].

(** The tallied modes of a drive, two rides and a walk. *)
Definition tallied_modes : Opt.t :=
  tally_defaults car_and_transit
    ;> Opt.set_modes (Some ["car"; "walk"; "subway"; "bus"]).

(** A free scorer: the cost factor overridden by 0. *)
Definition free_factors : gmap string value :=
  <["cost" := VNum 0%float]> DEFAULT_TIME_FACTORS_init.

(** A tallied walk that cost 40, and one whose cost is infinite. *)
Definition costly_walk : Opt.t :=
  tally_defaults scenario_A ;> Opt.set_time (Some 360%float)
                            ;> Opt.set_cost (Some 40%float).

Definition priceless_walk : Opt.t :=
  tally_defaults scenario_A ;> Opt.set_time (Some 360%float)
                            ;> Opt.set_cost (Some infinity).

(** * Properties *)

(** ** Exceptions and loops *)

Lemma bind_Ok {A B : Type} (r : result A) (k : A -> result B) (b : B) :
  bind r k = Ok b -> exists a, r = Ok a /\ k a = Ok b.
Proof.
  destruct r as [a|]; simpl; intros H; [exists a; auto | discriminate].
Qed.

Lemma Ok_inj {A : Type} (a b : A) : Ok a = Ok b -> a = b.
Proof.
  intros H.
  exact (f_equal (fun r => match r with Ok x => x | TypeError => a end) H).
Qed.

(** Running the code: the result is read off the evaluated call. *)
Lemma returns_with {A : Type} (r : result A) (P : A -> Prop) :
  match r with Ok a => P a | TypeError => False end ->
  exists a, r = Ok a /\ P a.
Proof. destruct r as [a|]; [eauto | tauto]. Qed.

Ltac inv_bind H :=
  let a := fresh "o" in
  let Ha := fresh "H" in
  apply bind_Ok in H; destruct H as (a & Ha & H).

(** A loop returns when its body returns on every element, from every
    state the invariant allows. *)
Lemma forEachM_returns {A S : Type} (P : S -> Prop) (Q : A -> Prop)
  (f : S -> A -> result S) (l : list A) :
  (forall s a, P s -> Q a -> exists s', f s a = Ok s' /\ P s') ->
  Forall Q l ->
  forall s, P s -> exists s', forEachM f l s = Ok s' /\ P s'.
Proof.
  intros Hf HQ. induction HQ as [|a l Ha _ IH]; simpl; intros s Hs.
  - eauto.
  - destruct (Hf s a Hs Ha) as (s1 & -> & Hs1). simpl. auto.
Qed.

(** ** [indexOf] *)

Lemma indexOf_from_bounds (l : list string) (x : string) (i : Z) :
  x ∈ l -> (i <= indexOf_from l x i < i + Z.of_nat (length l))%Z.
Proof.
  revert i. induction l as [|y l IH]; intros i Hx.
  - inversion Hx.
  - simpl indexOf_from. destruct (String.eqb_spec y x) as [->|Hne].
    + simpl length. lia.
    + apply elem_of_cons in Hx as [->|Hx]; [congruence|].
      specialize (IH (i + 1)%Z Hx). simpl length. lia.
Qed.

Lemma indexOf_from_notin (l : list string) (x : string) (i : Z) :
  x ∉ l -> indexOf_from l x i = (-1)%Z.
Proof.
  revert i. induction l as [|y l IH]; intros i Hx; [reflexivity|].
  simpl. apply not_elem_of_cons in Hx as [Hne Hx].
  destruct (String.eqb_spec y x); [congruence | auto].
Qed.

Lemma indexOf_from_app_in (l l' : list string) (x : string) (i : Z) :
  x ∈ l -> indexOf_from (l ++ l') x i = indexOf_from l x i.
Proof.
  revert i. induction l as [|y l IH]; intros i Hx.
  - inversion Hx.
  - simpl. destruct (String.eqb_spec y x) as [->|Hne]; [reflexivity|].
    apply elem_of_cons in Hx as [->|Hx]; [congruence | auto].
Qed.

Lemma indexOf_from_app_notin (l l' : list string) (x : string) (i : Z) :
  x ∉ l ->
  indexOf_from (l ++ l') x i = indexOf_from l' x (i + Z.of_nat (length l)).
Proof.
  revert i. induction l as [|y l IH]; intros i Hx.
  - simpl. f_equal. lia.
  - apply not_elem_of_cons in Hx as [Hne Hx]. simpl indexOf_from.
    destruct (String.eqb_spec y x); [congruence|].
    rewrite IH by assumption. f_equal. simpl length. lia.
Qed.

(** [indexOf] answers [-1] exactly for the strings the array lacks. *)
Lemma indexOf_absent (l : list string) (x : string) :
  (indexOf l x =? -1)%Z = true <-> x ∉ l.
Proof.
  unfold indexOf. rewrite Z.eqb_eq. split.
  - intros H Hx. pose proof (indexOf_from_bounds l x 0 Hx). lia.
  - apply indexOf_from_notin.
Qed.

Lemma indexOf_present (l : list string) (x : string) :
  negb (indexOf l x =? -1)%Z = true <-> x ∈ l.
Proof.
  rewrite negb_true_iff, <- not_true_iff_false, indexOf_absent.
  destruct (decide (x ∈ l)); tauto.
Qed.

(** ** De-duplication of the modes *)

Lemma unique_snoc (l : list string) (x : string) :
  unique (l ++ [x]) = unique_step (unique l) x.
Proof. unfold unique. rewrite fold_left_app. reflexivity. Qed.

Lemma unique_elem_of (l : list string) (x : string) :
  x ∈ unique l <-> x ∈ l.
Proof.
  induction l as [|y l IH] using rev_ind.
  - reflexivity.
  - rewrite unique_snoc. unfold unique_step.
    destruct (indexOf (unique l) y =? -1)%Z eqn:E.
    + rewrite !elem_of_app, IH. reflexivity.
    + rewrite elem_of_app, IH. split; [auto|].
      intros [H|H]; [assumption|].
      apply list_elem_of_singleton in H as ->.
      apply IH, indexOf_present. rewrite E. reflexivity.
Qed.

Lemma unique_NoDup (l : list string) : NoDup (unique l).
Proof.
  induction l as [|y l IH] using rev_ind.
  - constructor.
  - rewrite unique_snoc. unfold unique_step.
    destruct (indexOf (unique l) y =? -1)%Z eqn:E; [|assumption].
    apply indexOf_absent in E.
    apply NoDup_app. split; [assumption|]. split.
    + intros x Hx Hy. apply list_elem_of_singleton in Hy as ->. auto.
    + apply NoDup_singleton.
Qed.

(** The modes come out in the order of their first occurrences. *)
Lemma unique_order (l : list string) (i j : nat) (x y : string) :
  unique l !! i = Some x -> unique l !! j = Some y -> (i < j)%nat ->
  (indexOf l x < indexOf l y)%Z.
Proof.
  revert i j x y. induction l as [|z l IH] using rev_ind; intros i j x y.
  - intros H. change (unique []) with (@nil string) in H.
    rewrite lookup_nil in H. discriminate.
  - rewrite unique_snoc. unfold unique_step.
    destruct (indexOf (unique l) z =? -1)%Z eqn:E.
    + apply indexOf_absent in E. rewrite unique_elem_of in E.
      intros Hi Hj Hij.
      assert (Hx : x ∈ l).
      { apply unique_elem_of. apply lookup_app_Some in Hi as [Hi|[Hlen Hi]].
        - eapply list_elem_of_lookup_2; eauto.
        - apply lookup_app_Some in Hj as [Hj|[_ Hj]].
          + apply lookup_lt_Some in Hj. lia.
          + apply list_lookup_singleton_Some in Hi as [Hi _].
            apply list_lookup_singleton_Some in Hj as [Hj _]. lia. }
      unfold indexOf. rewrite (indexOf_from_app_in l [z] x 0 Hx).
      apply lookup_app_Some in Hj as [Hj|[Hlen Hj]].
      * assert (Hy : y ∈ l).
        { apply unique_elem_of. eapply list_elem_of_lookup_2; eauto. }
        rewrite (indexOf_from_app_in l [z] y 0 Hy).
        apply lookup_app_Some in Hi as [Hi|[Hlen Hi]].
        -- eapply IH; eauto.
        -- apply lookup_lt_Some in Hj. lia.
      * apply list_lookup_singleton_Some in Hj as [_ <-].
        rewrite (indexOf_from_app_notin l [z] z 0 E). simpl.
        rewrite String.eqb_refl.
        pose proof (indexOf_from_bounds l x 0 Hx). lia.
    + assert (Hz : z ∈ l).
      { apply unique_elem_of, indexOf_present. rewrite E. reflexivity. }
      intros Hi Hj Hij.
      assert (Hx : x ∈ l).
      { apply unique_elem_of. eapply list_elem_of_lookup_2; eauto. }
      assert (Hy : y ∈ l).
      { apply unique_elem_of. eapply list_elem_of_lookup_2; eauto. }
      unfold indexOf.
      rewrite (indexOf_from_app_in l [z] x 0 Hx).
      rewrite (indexOf_from_app_in l [z] y 0 Hy).
      eapply IH; eauto.
Qed.

(** ** What the stages of [tally] keep *)

Lemma kept_trans (o1 o2 o3 : Opt.t) : kept o1 o2 -> kept o2 o3 -> kept o1 o3.
Proof. intros [_ H1] [H2 H3]. split; [assumption | congruence]. Qed.

Lemma push_mode_returns (m : string) (o : Opt.t) :
  is_Some (Opt.modes o) ->
  exists ms, Opt.modes o = Some ms /\
    push_mode m o = Ok (Opt.set_modes (Some (ms ++ [m])) o).
Proof.
  intros [ms Hms]. exists ms. unfold push_mode. rewrite Hms. auto.
Qed.

Lemma addStreetEdges_returns (o : Opt.t) (mode : string)
  (se : option (list StreetEdge.t)) :
  is_Some (Opt.modes o) ->
  exists o', addStreetEdges o mode se = Ok o' /\ kept o o'.
Proof.
  intros [ms Hms]. unfold addStreetEdges, push_mode, kept.
  destruct se as [edges|];
    [|exists o; split; [reflexivity|split; [rewrite Hms; eauto|reflexivity]]].
  rewrite Hms. simpl.
  destruct (String.eqb mode "car"); [eexists; split; [reflexivity|simpl; eauto]|].
  destruct (String.eqb mode "bicycle");
    [eexists; split; [reflexivity|simpl; eauto]|].
  destruct (String.eqb mode "bicycle_rent");
    [eexists; split; [reflexivity|simpl; eauto]|].
  destruct (String.eqb mode "walk");
    eexists; (split; [reflexivity|simpl; eauto]).
Qed.

Lemma tally_access_returns (o : Opt.t) :
  is_Some (Opt.modes o) -> exists o', tally_access o = Ok o' /\ kept o o'.
Proof.
  intros Hm. unfold tally_access.
  destruct (Opt.access o) as [[|a l]|]; try (exists o; split; [reflexivity|split; auto]).
  destruct (addStreetEdges_returns o (toLowerCase (Leg.mode a))
              (Leg.streetEdges a) Hm) as (o1 & -> & Hm1 & Hr1).
  simpl. eexists. split; [reflexivity|]. split; [exact Hm1 | exact Hr1].
Qed.

Lemma tally_egress_returns (o : Opt.t) :
  is_Some (Opt.modes o) -> exists o', tally_egress o = Ok o' /\ kept o o'.
Proof.
  intros Hm. unfold tally_egress.
  destruct (Opt.egress o) as [[|a l]|]; try (exists o; split; [reflexivity|split; auto]).
  destruct (addStreetEdges_returns o (toLowerCase (Leg.mode a))
              (Leg.streetEdges a) Hm) as (o1 & -> & Hm1 & Hr1).
  simpl. eexists. split; [reflexivity|]. split; [exact Hm1 | exact Hr1].
Qed.

Lemma tally_segment_returns (rates : gmap string value) (o : Opt.t)
  (s : Segment.t) :
  is_Some (Opt.modes o) -> segment_ok s ->
  exists o', tally_segment rates o s = Ok o' /\ kept o o'.
Proof.
  intros [ms Hms] Hs. unfold tally_segment, push_mode, kept. rewrite Hms. simpl.
  unfold segment_ok in Hs.
  destruct (Segment.segmentPatterns s) as [[|p ps]|]; [congruence| |]; simpl.
  - destruct (PrimFloat.ltb _ _); eexists; (split; [reflexivity|simpl; eauto]).
  - destruct (PrimFloat.ltb _ _); eexists; (split; [reflexivity|simpl; eauto]).
Qed.

Lemma tally_fares_kept (fs : list (option Fare.t)) (o : Opt.t) :
  kept o (fold_left tally_fare fs o) \/ ~ is_Some (Opt.modes o).
Proof.
  destruct (Opt.modes o) as [ms|] eqn:Hms; [left|right; intros [? ?]; discriminate].
  assert (Hk : kept o o) by (split; [rewrite Hms; eauto | reflexivity]).
  revert Hk. generalize o at 1 3 as o0. clear ms Hms.
  revert o. induction fs as [|f fs IH]; intros o o0 Hk; [exact Hk|].
  simpl. apply IH. unfold tally_fare.
  destruct f as [f|]; [|exact Hk].
  destruct (Fare.peak f) as [p|]; [|exact Hk].
  destruct (truthy_num p); [|exact Hk].
  destruct Hk as [Hm Hr]. split; [exact Hm | exact Hr].
Qed.

Lemma tally_transit_returns (rates : gmap string value) (o : Opt.t) :
  is_Some (Opt.modes o) -> transit_ok o ->
  exists o', tally_transit rates o = Ok o' /\ kept o o'.
Proof.
  intros Hm Hok. unfold tally_transit, transit_ok in *.
  destruct (Opt.transit o) as [[|s ss]|] eqn:Ht;
    try (exists o; split; [reflexivity|split; auto]).
  simpl in Hok. cbv zeta.
  set (o1 := Opt.set_trips _ _).
  assert (Hk1 : kept o o1) by (split; [exact Hm | reflexivity]).
  destruct (forEachM_returns (kept o) segment_ok (tally_segment rates)
              (s :: ss)) with (s := o1) as (o2 & -> & Hk2); auto.
  { intros o' sg Hk Hsg.
    destruct (tally_segment_returns rates o' sg (proj1 Hk) Hsg)
      as (o'' & -> & Hk'').
    eexists. split; [reflexivity|]. eapply kept_trans; eauto. }
  simpl bind.
  eexists. split; [reflexivity|].
  destruct (Opt.fares o2) as [fs|].
  - destruct (tally_fares_kept fs o2) as [Hk3|Hn]; [|destruct Hn; apply Hk2].
    eapply kept_trans; [exact Hk2|].
    destruct Hk3 as [Hm3 Hr3]. split; [exact Hm3 | exact Hr3].
  - destruct Hk2 as [Hm2 Hr2]. split; [exact Hm2 | exact Hr2].
Qed.

Lemma tally_walkCalories_returns (rates : gmap string value) (o : Opt.t) :
  is_Some (Opt.modes o) ->
  exists o', tally_walkCalories rates o = Ok o' /\ kept o o'.
Proof.
  intros [ms Hms]. unfold tally_walkCalories, kept. rewrite Hms.
  destruct (negb _); eexists; (split; [reflexivity|simpl; rewrite ?Hms; eauto]).
Qed.

Lemma tally_bikeCalories_returns (rates : gmap string value) (o : Opt.t) :
  is_Some (Opt.modes o) ->
  exists o', tally_bikeCalories rates o = Ok o' /\ kept o o'.
Proof.
  intros [ms Hms]. unfold tally_bikeCalories, kept. rewrite Hms.
  destruct (_ || _); eexists; (split; [reflexivity|simpl; rewrite ?Hms; eauto]).
Qed.

Lemma tally_car_returns (rates : gmap string value) (o : Opt.t) :
  is_Some (Opt.modes o) ->
  exists o', tally_car rates o = Ok o' /\ kept o o'.
Proof.
  intros [ms Hms]. unfold tally_car, kept. rewrite Hms.
  destruct (negb _); eexists; (split; [reflexivity|simpl; rewrite ?Hms; eauto]).
Qed.

Lemma tally_finish_returns (o : Opt.t) :
  is_Some (Opt.modes o) ->
  exists o', tally_finish o = Ok o' /\ kept o o'.
Proof.
  intros [ms Hms]. unfold tally_finish, kept. rewrite Hms.
  eexists; (split; [reflexivity|simpl; eauto]).
Qed.

Lemma tally_body_returns (rates : gmap string value) (o : Opt.t) :
  transit_ok o -> exists o', tally_body rates o = Ok o' /\ kept o o'.
Proof.
  intros Hok. unfold tally_body.
  assert (H0 : kept o (tally_defaults o)) by (split; [simpl; eauto|reflexivity]).
  destruct (tally_access_returns _ (proj1 H0)) as (o1 & -> & H1). simpl bind.
  pose proof (kept_trans _ _ _ H0 H1) as K1.
  destruct (tally_egress_returns _ (proj1 H1)) as (o2 & -> & H2). simpl bind.
  pose proof (kept_trans _ _ _ K1 H2) as K2.
  destruct (tally_transit_returns rates o2 (proj1 H2)) as (o3 & -> & H3).
  { unfold transit_ok in *. destruct K2 as [_ K2]. unfold raw_of in K2.
    injection K2 as _ _ -> _. exact Hok. }
  simpl bind. pose proof (kept_trans _ _ _ K2 H3) as K3.
  destruct (tally_walkCalories_returns rates o3 (proj1 H3)) as (o4 & -> & H4).
  simpl bind. pose proof (kept_trans _ _ _ K3 H4) as K4.
  destruct (tally_bikeCalories_returns rates o4 (proj1 H4)) as (o5 & -> & H5).
  simpl bind. pose proof (kept_trans _ _ _ K4 H5) as K5.
  destruct (tally_car_returns rates o5 (proj1 H5)) as (o6 & -> & H6).
  exists o6. split; [reflexivity|]. eapply kept_trans; eauto.
Qed.

(** [tally] returns on every option whose transit legs can be read. *)
Lemma tally_returns (rates : gmap string value) (o : Opt.t) :
  transit_ok o -> exists o', tally rates o = Ok o' /\ kept o o'.
Proof.
  intros Hok. unfold tally.
  destruct (tally_body_returns rates o Hok) as (o1 & -> & H1). simpl bind.
  destruct (tally_finish_returns o1 (proj1 H1)) as (o2 & -> & H2).
  exists o2. split; [reflexivity|]. eapply kept_trans; eauto.
Qed.

(** ** Street edges by sub-mode *)

Lemma streetEdge_fold (mode current : string) (d : float)
  (edges : list StreetEdge.t) :
  snd (fold_left (streetEdgeStep mode) edges (current, d)) =
  sum_distances_from d (edges_in_submode current mode edges).
Proof.
  revert current d. induction edges as [|e es IH]; intros current d.
  - reflexivity.
  - simpl fold_left.
    simpl edges_in_submode. unfold submode_after.
    destruct (StreetEdge.mode e) as [m|]; [destruct (truthy_str m)|];
      (match goal with
       | |- context [String.eqb ?a ?b] => destruct (String.eqb a b)
       end; rewrite IH; reflexivity).
Qed.

(** [streetEdgeDistanceForMode] is the sum, in order, of the distances of
    the edges whose current sub-mode is the target, the sub-mode being
    ['walk'] until an edge declares one. *)
Lemma streetEdgeDistanceForMode_sum (edges : list StreetEdge.t)
  (mode : string) :
  streetEdgeDistanceForMode edges mode =
  sum_distances (edges_in_submode "walk" mode edges).
Proof. apply streetEdge_fold. Qed.

(** What [addStreetEdges] does for a rental-bike leg. *)
Lemma addStreetEdges_bicycle_rent (o : Opt.t) (ms : list string)
  (edges : list StreetEdge.t) :
  Opt.modes o = Some ms ->
  exists o',
    addStreetEdges o "bicycle_rent" (Some edges) = Ok o' /\
    Opt.modes o' = Some (ms ++ ["bicycle_rent"; "walk"]) /\
    Opt.bikeDistance o' =
      Some (num (Opt.bikeDistance o)
            + sum_distances (edges_in_submode "walk" "bicycle" edges))%float /\
    Opt.walkDistance o' =
      Some (num (Opt.walkDistance o)
            + sum_distances (edges_in_submode "walk" "walk" edges))%float /\
    Opt.driveDistance o' = Opt.driveDistance o /\
    Opt.time o' = Opt.time o.
Proof.
  intros Hms. unfold addStreetEdges, push_mode. rewrite Hms. simpl.
  eexists. split; [reflexivity|]. simpl.
  rewrite <- !streetEdgeDistanceForMode_sum, <- app_assoc.
  repeat split; reflexivity.
Qed.

(** C8: for an access or an egress leg of mode [bicycle_rent] that has
    street edges, tally adds ['bicycle_rent'] and then a synthetic ['walk']
    to [modes], adds to [bikeDistance] the sum of the distances of the edges
    whose current sub-mode is ['bicycle'] and to [walkDistance] the sum for
    ['walk'], the current sub-mode being ['walk'] until an edge declares
    one.  When the leg is all the option has, these are the tallied
    values; Scenario C ends with [bikeDistance = 1000],
    [walkDistance = 100] and both modes recorded. *)
Theorem bicycle_rent_leg_tally (o : Opt.t) (ms : list string) (leg : Leg.t)
  (rest : list Leg.t) (edges : list StreetEdge.t) :
  Opt.modes o = Some ms ->
  toLowerCase (Leg.mode leg) = "bicycle_rent" ->
  Leg.streetEdges leg = Some edges ->
  let bike := sum_distances (edges_in_submode "walk" "bicycle" edges) in
  let walk := sum_distances (edges_in_submode "walk" "walk" edges) in
  (Opt.access o = Some (leg :: rest) ->
   exists o',
     tally_access o = Ok o' /\
     Opt.modes o' = Some (ms ++ ["bicycle_rent"; "walk"]) /\
     Opt.bikeDistance o' = Some (num (Opt.bikeDistance o) + bike)%float /\
     Opt.walkDistance o' = Some (num (Opt.walkDistance o) + walk)%float) /\
  (Opt.egress o = Some (leg :: rest) ->
   exists o',
     tally_egress o = Ok o' /\
     Opt.modes o' = Some (ms ++ ["bicycle_rent"; "walk"]) /\
     Opt.bikeDistance o' = Some (num (Opt.bikeDistance o) + bike)%float /\
     Opt.walkDistance o' = Some (num (Opt.walkDistance o) + walk)%float) /\
  (forall rates, access_only o leg rest ->
   exists o',
     tally rates o = Ok o' /\
     Opt.modes o' = Some ["bicycle_rent"; "walk"] /\
     Opt.bikeDistance o' = Some (0 + bike)%float /\
     Opt.walkDistance o' = Some (0 + walk)%float) /\
  (forall rates, exists o',
     tally rates scenario_C = Ok o' /\
     Opt.modes o' = Some ["bicycle_rent"; "walk"] /\
     Opt.bikeDistance o' = Some 1000%float /\
     Opt.walkDistance o' = Some 100%float).
Proof.
  intros Hms Hmode Hse bike walk.
  destruct (addStreetEdges_bicycle_rent o ms edges Hms)
    as (o1 & Hadd & Hm1 & Hb1 & Hw1 & _ & _).
  split; [|split; [|split]].
  - intros Ha. unfold tally_access. rewrite Ha, Hmode, Hse, Hadd. simpl.
    eexists. split; [reflexivity|]. simpl. auto.
  - intros He. unfold tally_egress. rewrite He, Hmode, Hse, Hadd. simpl.
    eexists. split; [reflexivity|]. simpl. auto.
  - intros rates (Ha & He & Ht).
    unfold tally, tally_body, tally_access, tally_egress, tally_transit.
    simpl. rewrite Ha, Hmode, Hse. unfold addStreetEdges, push_mode.
    simpl. rewrite He. simpl. rewrite Ht. simpl.
    eexists. split; [reflexivity|]. simpl.
    unfold bike, walk. rewrite <- !streetEdgeDistanceForMode_sum. auto.
  - intros rates. apply returns_with. vm_compute. auto.
Qed.

Lemma bicycle_rent_leg_tally_witness :
  exists o',
    tally_access (tally_defaults rental_access) = Ok o' /\
    Opt.modes o' = Some ["bicycle_rent"; "walk"] /\
    Opt.bikeDistance o' = Some 750%float /\
    Opt.walkDistance o' = Some 30%float.
Proof.
  destruct (bicycle_rent_leg_tally (tally_defaults rental_access) []
              rental_leg [] rental_edges eq_refl eq_refl eq_refl)
    as [Ha _].
  destruct (Ha eq_refl) as (o' & Ho & Hm & Hb & Hw).
  exists o'. repeat split; [exact Ho | exact Hm | |].
  - rewrite Hb. vm_compute. reflexivity.
  - rewrite Hw. vm_compute. reflexivity.
Defined.

(** ** Legs without street edges *)

(** C10: when the first access (or egress) leg has no [streetEdges], tally
    adds the leg's time and nothing else: [modes] and the three distances
    stay as they were.  So an option whose only leg is a walk access leg
    without [streetEdges] ends with empty [modes] and [walkCalories = 0];
    with a present but empty [streetEdges] the mode is recorded and the
    walk distance is still 0. *)
Theorem leg_without_streetEdges (o : Opt.t) (leg : Leg.t)
  (rest : list Leg.t) :
  Leg.streetEdges leg = None ->
  (Opt.access o = Some (leg :: rest) ->
   exists o',
     tally_access o = Ok o' /\
     Opt.time o' = Some (num (Opt.time o) + Leg.time leg)%float /\
     Opt.modes o' = Opt.modes o /\
     Opt.bikeDistance o' = Opt.bikeDistance o /\
     Opt.driveDistance o' = Opt.driveDistance o /\
     Opt.walkDistance o' = Opt.walkDistance o) /\
  (Opt.egress o = Some (leg :: rest) ->
   exists o',
     tally_egress o = Ok o' /\
     Opt.time o' = Some (num (Opt.time o) + Leg.time leg)%float /\
     Opt.modes o' = Opt.modes o /\
     Opt.bikeDistance o' = Opt.bikeDistance o /\
     Opt.driveDistance o' = Opt.driveDistance o /\
     Opt.walkDistance o' = Opt.walkDistance o) /\
  (forall rates,
     toLowerCase (Leg.mode leg) = "walk" -> access_only o leg rest ->
     exists o',
       tally rates o = Ok o' /\
       Opt.time o' = Some (0 + Leg.time leg)%float /\
       Opt.modes o' = Some [] /\
       Opt.walkDistance o' = Some 0%float /\
       Opt.walkCalories o' = Some 0%float) /\
  (forall rates o2 leg2 rest2,
     Leg.streetEdges leg2 = Some [] ->
     toLowerCase (Leg.mode leg2) = "walk" -> access_only o2 leg2 rest2 ->
     exists o',
       tally rates o2 = Ok o' /\
       Opt.time o' = Some (0 + Leg.time leg2)%float /\
       Opt.modes o' = Some ["walk"] /\
       Opt.walkDistance o' = Some 0%float).
Proof.
  intros Hse. split; [|split; [|split]].
  - intros Ha. unfold tally_access, addStreetEdges. rewrite Ha, Hse. simpl.
    eexists. split; [reflexivity|]. simpl. auto.
  - intros He. unfold tally_egress, addStreetEdges. rewrite He, Hse. simpl.
    eexists. split; [reflexivity|]. simpl. auto.
  - intros rates Hmode (Ha & He & Ht).
    unfold tally, tally_body, tally_access, tally_egress, tally_transit.
    simpl. rewrite Ha, Hse. simpl. rewrite He. simpl. rewrite Ht. simpl.
    eexists. split; [reflexivity|]. simpl. auto.
  - intros rates o2 leg2 rest2 Hse2 Hmode (Ha & He & Ht).
    unfold tally, tally_body, tally_access, tally_egress, tally_transit.
    simpl. rewrite Ha, Hse2, Hmode. simpl. rewrite He. simpl. rewrite Ht. simpl.
    eexists. split; [reflexivity|]. simpl. auto.
Qed.

Lemma leg_without_streetEdges_witness :
  Leg.streetEdges walk_without_edges = None /\
  exists o',
    tally DEFAULT_RATES_init (Opt.raw (Some [walk_without_edges]) None None None)
      = Ok o' /\
    Opt.time o' = Some 360%float /\
    Opt.modes o' = Some [] /\
    Opt.walkDistance o' = Some 0%float /\
    Opt.walkCalories o' = Some 0%float.
Proof.
  split; [reflexivity|].
  destruct (leg_without_streetEdges
              (Opt.raw (Some [walk_without_edges]) None None None)
              walk_without_edges [] eq_refl) as (_ & _ & H & _).
  destruct (H DEFAULT_RATES_init eq_refl)
    as (o' & Ho & Ht & Hm & Hd & Hc).
  { repeat split. }
  exists o'. split; [exact Ho|]. split; [|auto].
  rewrite Ht. vm_compute. reflexivity.
Defined.

(** ** The end of [tally] *)

Lemma tally_finish_Ok (o1 o' : Opt.t) :
  tally_finish o1 = Ok o' ->
  exists pushed,
    Opt.modes o1 = Some pushed /\
    Opt.modes o' = Some (unique pushed) /\
    Opt.emissions o' = Opt.emissions o1 /\
    Opt.driveDistance o' = Opt.driveDistance o1 /\
    Opt.carCost o' = Opt.carCost o1 /\
    Opt.bikeCalories o' = Opt.bikeCalories o1 /\
    Opt.walkCalories o' = Opt.walkCalories o1 /\
    Opt.calories o' =
      Some (num (Opt.bikeCalories o1) + num (Opt.walkCalories o1))%float.
Proof.
  unfold tally_finish. destruct (Opt.modes o1) as [pushed|]; [|discriminate].
  intros [= <-]. exists pushed. simpl. repeat split.
Qed.

Lemma tally_car_Ok (rates : gmap string value) (o1 o' : Opt.t) :
  tally_car rates o1 = Ok o' ->
  exists pushed,
    Opt.modes o1 = Some pushed /\
    Opt.modes o' = Some pushed /\
    Opt.driveDistance o' = Opt.driveDistance o1 /\
    if negb (indexOf pushed "car" =? -1)%Z then
      Opt.emissions o' =
        Some (num (Opt.driveDistance o1) / numv (rates !! "mpg")
              * CO2_PER_GALLON)%float /\
      Opt.carCost o' =
        Some (numv (rates !! "mileageRate")
              * (num (Opt.driveDistance o1) * METERS_TO_MILES)
              + numv (rates !! "carParkingCost"))%float
    else o' = o1.
Proof.
  unfold tally_car. destruct (Opt.modes o1) as [pushed|] eqn:Hm; [|discriminate].
  exists pushed. revert H.
  destruct (negb (indexOf pushed "car" =? -1)%Z); intros [= <-].
  - simpl. auto.
  - auto.
Qed.

Lemma tally_Ok (rates : gmap string value) (o o' : Opt.t) :
  tally rates o = Ok o' ->
  exists o5 o6,
    (let* o1 := tally_access (tally_defaults o) in
     let* o2 := tally_egress o1 in
     let* o3 := tally_transit rates o2 in
     let* o4 := tally_walkCalories rates o3 in
     tally_bikeCalories rates o4) = Ok o5 /\
    tally_car rates o5 = Ok o6 /\
    tally_body rates o = Ok o6 /\
    tally_finish o6 = Ok o'.
Proof.
  unfold tally. intros H. inv_bind H. rename o0 into o6.
  pose proof H0 as Hbody. revert H0. unfold tally_body.
  destruct (tally_access (tally_defaults o)) as [o1|]; [|discriminate].
  simpl. destruct (tally_egress o1) as [o2|]; [|discriminate].
  simpl. destruct (tally_transit rates o2) as [o3|]; [|discriminate].
  simpl. destruct (tally_walkCalories rates o3) as [o4|]; [|discriminate].
  simpl. destruct (tally_bikeCalories rates o4) as [o5|]; [|discriminate].
  simpl. intros H0.
  exists o5, o6. auto.
Qed.

(** C3: when the tallied modes contain ['car'], the emissions are exactly
    [(driveDistance / rates.mpg) * CO2_PER_GALLON]: the car block assigns
    the field, so whatever the transit legs added to it is gone. *)
Theorem car_emissions_overwrite (rates : gmap string value) (o o' : Opt.t)
  (ms : list string) :
  tally rates o = Ok o' ->
  Opt.modes o' = Some ms ->
  "car" ∈ ms ->
  Opt.emissions o' =
    Some (num (Opt.driveDistance o') / numv (rates !! "mpg")
          * CO2_PER_GALLON)%float.
Proof.
  intros H Hms Hcar.
  apply tally_Ok in H as (o5 & o6 & _ & Hc & _ & Hf).
  apply tally_finish_Ok in Hf as (pushed & Hm6 & Hm' & He & Hd & _).
  apply tally_car_Ok in Hc as (pushed' & Hm5 & Hm6' & Hd6 & Hif).
  assert (pushed' = pushed) as -> by congruence.
  assert (Hin : "car" ∈ pushed).
  { apply unique_elem_of. congruence. }
  apply indexOf_present in Hin. rewrite Hin in Hif.
  destruct Hif as [He6 _]. rewrite He, Hd, Hd6. exact He6.
Qed.

Lemma car_emissions_overwrite_witness :
  exists o',
    tally DEFAULT_RATES_init car_and_transit = Ok o' /\
    Opt.modes o' = Some ["car"; "walk"; "subway"; "bus"] /\
    Opt.emissions o' =
      Some (num (Opt.driveDistance o') / 21.4 * 8.887)%float.
Proof.
  destruct (returns_with (tally DEFAULT_RATES_init car_and_transit)
              (fun o' => Opt.modes o' = Some ["car"; "walk"; "subway"; "bus"]))
    as (o' & Ho & Hm).
  { vm_compute. reflexivity. }
  exists o'. split; [exact Ho|]. split; [exact Hm|].
  rewrite (car_emissions_overwrite DEFAULT_RATES_init car_and_transit o'
             ["car"; "walk"; "subway"; "bus"] Ho Hm).
  - reflexivity.
  - apply list_elem_of_here.
Defined.

(** C9: the [modes] array [tally] produces has no duplicates, holds
    exactly the modes that were pushed, and holds them in the order of
    their first occurrences among the pushes. *)
Theorem tally_modes_unique (rates : gmap string value) (o : Opt.t) :
  transit_ok o ->
  exists o1 o' pushed ms,
    tally_body rates o = Ok o1 /\ Opt.modes o1 = Some pushed /\
    tally rates o = Ok o' /\ Opt.modes o' = Some ms /\
    NoDup ms /\
    (forall x, x ∈ ms <-> x ∈ pushed) /\
    (forall i j x y,
       ms !! i = Some x -> ms !! j = Some y -> (i < j)%nat ->
       (indexOf pushed x < indexOf pushed y)%Z).
Proof.
  intros Hok. destruct (tally_returns rates o Hok) as (o' & Ho & _).
  destruct (tally_Ok rates o o' Ho) as (_ & o1 & _ & _ & Hb & Hf).
  apply tally_finish_Ok in Hf as (pushed & Hm1 & Hm' & _).
  exists o1, o', pushed, (unique pushed).
  repeat (split; [assumption|]).
  split; [apply unique_NoDup|]. split.
  - intros x. apply unique_elem_of.
  - intros i j x y. apply unique_order.
Qed.

Lemma tally_modes_unique_witness :
  exists o1 o',
    tally_body DEFAULT_RATES_init walk_bus_subway_bus = Ok o1 /\
    Opt.modes o1 = Some ["walk"; "walk"; "bus"; "subway"; "bus"] /\
    tally DEFAULT_RATES_init walk_bus_subway_bus = Ok o' /\
    Opt.modes o' = Some ["walk"; "bus"; "subway"] /\
    NoDup ["walk"; "bus"; "subway"].
Proof.
  destruct (tally_modes_unique DEFAULT_RATES_init walk_bus_subway_bus)
    as (o1 & o' & pushed & ms & Hb & Hm1 & Ho & Hm & Hnd & _).
  { unfold transit_ok. simpl. repeat constructor; discriminate. }
  assert (E1 : Opt.modes o1 = Some ["walk"; "walk"; "bus"; "subway"; "bus"]).
  { revert Hb. vm_compute. intros [= <-]. reflexivity. }
  assert (E' : Opt.modes o' = Some ["walk"; "bus"; "subway"]).
  { revert Ho. vm_compute. intros [= <-]. reflexivity. }
  exists o1, o'. repeat (split; [assumption|]).
  rewrite E' in Hm. injection Hm as <-. exact Hnd.
Defined.

(** ** The defaults block *)

(** The block under [// Defaults] resets twelve numbers and [modes],
    whatever the option carried before; [carCost] (and [trips]) are not in
    it and keep the value they had. *)
Lemma tally_defaults_resets (o : Opt.t) :
  let o' := tally_defaults o in
  Opt.bikeCalories o' = Some 0%float /\ Opt.calories o' = Some 0%float /\
  Opt.cost o' = Some 0%float /\ Opt.emissions o' = Some 0%float /\
  Opt.modes o' = Some [] /\ Opt.time o' = Some 0%float /\
  Opt.timeInTransit o' = Some 0%float /\ Opt.transfers o' = Some 0%float /\
  Opt.transitCost o' = Some 0%float /\ Opt.walkCalories o' = Some 0%float /\
  Opt.bikeDistance o' = Some 0%float /\ Opt.driveDistance o' = Some 0%float /\
  Opt.walkDistance o' = Some 0%float /\
  Opt.carCost o' = Opt.carCost o /\ Opt.trips o' = Opt.trips o.
Proof. simpl. repeat (split; [reflexivity|]). reflexivity. Qed.

(** C6 at its failing inputs: on a fresh walking option [tally] returns
    with [carCost] absent, and on the same option carrying a [carCost] of
    12.5 from an earlier run it returns with that 12.5 still in place. *)
Theorem tally_carCost_not_reset :
  (exists o',
     tally DEFAULT_RATES_init scenario_A = Ok o' /\
     Opt.cost o' = Some 0%float /\ Opt.carCost o' = None) /\
  (exists o',
     tally DEFAULT_RATES_init (Opt.set_carCost (Some 12.5%float) scenario_A)
       = Ok o' /\
     Opt.modes o' = Some ["walk"] /\ Opt.carCost o' = Some 12.5%float).
Proof.
  split; apply returns_with; vm_compute; auto.
Qed.

(** ** Calories in the score *)

(** Two numbers that [===] tells apart are different (no NaN involved). *)
Lemma float_neq (x y : float) :
  PrimFloat.is_nan x = false -> PrimFloat.eqb x y = false -> x <> y.
Proof.
  unfold PrimFloat.is_nan. intros N E H. subst y.
  rewrite E in N. discriminate.
Qed.

(** C1 at its failing input: the tallied modes are [bicycle],
    [bicycle_rent] and [walk], and the calorie total [score] works with is
    [bikeCalories + bikeCalories + walkCalories], which is not the
    [bikeCalories + walkCalories] that [tally] stored in [calories]. *)
Theorem bike_calories_counted_twice :
  exists o' b w s,
    tally DEFAULT_RATES_init bike_then_rental = Ok o' /\
    Opt.modes o' = Some ["bicycle"; "bicycle_rent"; "walk"] /\
    Opt.bikeCalories o' = Some b /\ Opt.walkCalories o' = Some w /\
    Opt.calories o' = Some (b + w)%float /\
    score_modes DEFAULT_TIME_FACTORS_init o' = Ok (s, (0 + b + b + w)%float) /\
    (0 + b + b + w)%float <> (b + w)%float /\
    score DEFAULT_TIME_FACTORS_init o' =
      Ok (s + 5 * 0 + 5 * 0 + -0.01 * (0 + b + b + w))%float.
Proof.
  destruct (returns_with (tally DEFAULT_RATES_init bike_then_rental)
    (fun o' =>
       Opt.modes o' = Some ["bicycle"; "bicycle_rent"; "walk"] /\
       Opt.bikeCalories o' = Some 60.975609756097569%float /\
       Opt.walkCalories o' = Some 5.6547619047619042%float /\
       Opt.calories o' = Some 66.630371660859467%float /\
       Opt.time o' = Some 540%float /\
       Opt.transfers o' = Some 0%float /\ Opt.cost o' = Some 0%float))
    as (o' & Ho & Hm & Hb & Hw & Hc & Ht & Htr & Hco).
  { vm_compute. repeat (split; [reflexivity|]). reflexivity. }
  exists o', 60.975609756097569%float, 5.6547619047619042%float, 11%float.
  assert (Hs : score_modes DEFAULT_TIME_FACTORS_init o' =
               Ok (11, 0 + 60.975609756097569 + 60.975609756097569
                       + 5.6547619047619042)%float).
  { unfold score_modes. rewrite Hm. simpl fold_left.
    rewrite Ht, Hb, Hw. vm_compute. reflexivity. }
  split; [exact Ho|]. split; [exact Hm|]. split; [exact Hb|].
  split; [exact Hw|]. split; [rewrite Hc; vm_compute; reflexivity|].
  split; [exact Hs|]. split.
  - apply float_neq; vm_compute; reflexivity.
  - unfold score. rewrite Hs. simpl bind. rewrite Htr, Hco.
    vm_compute. reflexivity.
Qed.

(** ** Where the score starts *)








(** ** Construction and the shared defaults *)

(** The keys of [b] win; the other keys of [a] stay. *)
Lemma merge_keys_union (a b : gmap string value) : merge_keys a b = b ∪ a.
Proof.
  unfold merge_keys.
  apply (map_fold_weak_ind (fun r m => r = m ∪ a)).
  - rewrite (left_id_L ∅ (∪)). reflexivity.
  - intros k v m r _ ->. rewrite insert_union_l. reflexivity.
Qed.

Lemma merge_keys_lookup (a b : gmap string value) (k : string) :
  merge_keys a b !! k =
  match b !! k with
  | Some v => Some v
  | None => a !! k
  end.
Proof.
  rewrite merge_keys_union.
  destruct (b !! k) as [v|] eqn:E.
  - apply lookup_union_Some_l. exact E.
  - apply lookup_union_r. exact E.
Qed.

(** Every instance holds the two module-level objects, not copies. *)
Lemma ProfileScore_new_refs (opts : option Opts) (h : Heap) :
  snd (ProfileScore_new opts h) =
  mkProfileScore Ref_DEFAULT_TIME_FACTORS Ref_DEFAULT_RATES.
Proof. reflexivity. Qed.

(** What a construction leaves in the heap: the overrides are written into
    the objects that were there, defaults or not. *)
Lemma ProfileScore_new_heap (opts : option Opts) (h : Heap) (k : string) :
  let h' := fst (ProfileScore_new opts h) in
  let given_factors := default ∅ (opts ≫= opts_factors) in
  let given_rates := default ∅ (opts ≫= opts_rates) in
  DEFAULT_TIME_FACTORS h' !! k =
    match given_factors !! k with
    | Some v => Some v
    | None => DEFAULT_TIME_FACTORS h !! k
    end /\
  DEFAULT_RATES h' !! k =
    match given_rates !! k with
    | Some v => Some v
    | None => DEFAULT_RATES h !! k
    end.
Proof.
  destruct opts as [[f r]|]; simpl; rewrite !merge_keys_lookup; auto.
Qed.

(** C7 at its failing input: a scorer constructed with the factor
    override [{cost: 0}], then one constructed with no override.  The
    second one's [cost] factor is the first one's 0 and not the default 5;
    and a scorer constructed with defaults has its [weight] rate changed
    to 90 by a later construction that overrides it. *)
Theorem defaults_shared_between_instances :
  (let '(h, scorers) :=
     construct_all
       [Some (mkOpts (Some {["cost" := VNum 0%float]}) None); None]
       initial_heap in
   exists first second,
     scorers = [first; second] /\
     deref h (factors second) !! "cost" = Some (VNum 0%float) /\
     DEFAULT_TIME_FACTORS_init !! "cost" = Some (VNum 5%float) /\
     factors first = factors second) /\
  (let '(h1, first) := ProfileScore_new None initial_heap in
   let '(h2, second) :=
     ProfileScore_new
       (Some (mkOpts None (Some {["weight" := VNum 90%float]}))) h1 in
   deref h1 (rates first) !! "weight" = Some (VNum 75%float) /\
   deref h2 (rates first) !! "weight" = Some (VNum 90%float)).
Proof.
  split.
  - simpl. eexists _, _. split; [reflexivity|].
    split; [vm_compute; reflexivity|].
    split; [vm_compute; reflexivity | reflexivity].
  - simpl. split; vm_compute; reflexivity.
Qed.

(** ** Expansion into branches *)

Lemma mapM_app {A B : Type} (g : A -> result B) (l1 l2 : list A) :
  mapM g (l1 ++ l2) =
  let* r1 := mapM g l1 in
  let* r2 := mapM g l2 in
  Ok (r1 ++ r2).
Proof.
  induction l1 as [|a l1 IH]; simpl.
  - destruct (mapM g l2); reflexivity.
  - destruct (g a) as [b|]; [simpl|reflexivity].
    rewrite IH. destruct (mapM g l1) as [r1|]; [simpl|reflexivity].
    destruct (mapM g l2); reflexivity.
Qed.

Lemma mapM_length {A B : Type} (g : A -> result B) (l : list A)
  (r : list B) :
  mapM g l = Ok r -> length r = length l.
Proof.
  revert r. induction l as [|a l IH]; simpl; intros r H.
  - apply Ok_inj in H as <-. reflexivity.
  - inv_bind H. inv_bind H. apply Ok_inj in H as <-. simpl. f_equal. auto.
Qed.

Lemma mapM_returns {A B : Type} (g : A -> result B) (l : list A) :
  Forall (fun a => exists b, g a = Ok b) l -> exists r, mapM g l = Ok r.
Proof.
  induction 1 as [|a l [b Hb] _ [r Hr]]; simpl.
  - eauto.
  - rewrite Hb, Hr. simpl. eauto.
Qed.

Lemma forEachM_ext {A S : Type} (f f' : S -> A -> result S) (l : list A)
  (s : S) :
  (forall s a, f s a = f' s a) -> forEachM f l s = forEachM f' l s.
Proof.
  intros E. revert s. induction l as [|a l IH]; intros s; simpl.
  - reflexivity.
  - rewrite E. destruct (f' s a); simpl; auto.
Qed.

(** A loop that pushes, for each element, the results of [g] on the
    elements it expands to, pushes the results of [g] on the whole
    expansion, in order. *)
Lemma forEachM_push {A B C : Type} (g : B -> result C) (ex : A -> list B)
  (l : list A) (s : list C) :
  forEachM (fun s a => let* rs := mapM g (ex a) in Ok (s ++ rs)) l s =
  let* rs := mapM g (flat_map ex l) in Ok (s ++ rs).
Proof.
  revert s. induction l as [|a l IH]; intros s; simpl.
  - rewrite app_nil_r. reflexivity.
  - rewrite mapM_app. destruct (mapM g (ex a)) as [r1|]; [simpl|reflexivity].
    rewrite IH. destruct (mapM g (flat_map ex l)) as [r2|]; [simpl|reflexivity].
    rewrite app_assoc. reflexivity.
Qed.

Lemma forEachM_push_one {A B C : Type} (g : B -> result C) (f : A -> B)
  (l : list A) (s : list C) :
  forEachM (fun s a => let* r := g (f a) in Ok (s ++ [r])) l s =
  let* rs := mapM g (map f l) in Ok (s ++ rs).
Proof.
  revert s. induction l as [|a l IH]; intros s; simpl.
  - rewrite app_nil_r. reflexivity.
  - destruct (g (f a)) as [r|]; [simpl|reflexivity].
    rewrite IH. destruct (mapM g (map f l)) as [rs|]; [simpl|reflexivity].
    rewrite <- app_assoc. reflexivity.
Qed.

(** [processOptions] processes the branches of the options, in order, and
    sorts what it got. *)
Lemma processOptions_expand (h : Heap) (this : ProfileScore)
  (options : list Opt.t) :
  processOptions h this options =
  let* processed := mapM (processOption h this) (flat_map expand options) in
  Ok (sort byScore processed).
Proof.
  unfold processOptions.
  rewrite (forEachM_ext _
    (fun s o => let* rs := mapM (processOption h this) (expand o) in
                Ok (s ++ rs))).
  - rewrite forEachM_push. simpl.
    destruct (mapM _ _); reflexivity.
  - intros s o. unfold expand.
    destruct (Opt.access o) as [access|]; [|simpl; rewrite app_nil_r; reflexivity].
    rewrite <- forEachM_push. apply forEachM_ext. clear s. intros s a.
    unfold expand_access, clone.
    destruct (Opt.egress o) as [[|e es]|].
    + simpl. destruct (processOption _ _ _); reflexivity.
    + apply (forEachM_push_one (processOption h this)
               (fun e => Opt.set_egress (Some [e])
                           (Opt.set_access (Some [a]) o))).
    + simpl. destruct (processOption _ _ _); reflexivity.
Qed.

(** ** The sort rearranges *)

Lemma sort_insert_Permutation {A : Type} (comparefn : A -> A -> float)
  (x : A) (l : list A) :
  Permutation (sort_insert comparefn x l) (x :: l).
Proof.
  induction l as [|y l IH]; simpl.
  - reflexivity.
  - destruct (PrimFloat.ltb _ _).
    + rewrite IH. apply perm_swap.
    + reflexivity.
Qed.

Lemma sort_Permutation {A : Type} (comparefn : A -> A -> float)
  (l : list A) :
  Permutation (sort comparefn l) l.
Proof.
  induction l as [|x l IH]; simpl.
  - reflexivity.
  - rewrite sort_insert_Permutation. apply perm_skip. exact IH.
Qed.

(** ** How many results *)

Lemma score_returns (factors : gmap string value) (o : Opt.t) :
  is_Some (Opt.modes o) -> exists s, score factors o = Ok s.
Proof.
  intros [ms Hms]. unfold score, score_modes. rewrite Hms. simpl.
  destruct (fold_left _ _ _). eauto.
Qed.

Lemma processOption_returns (h : Heap) (this : ProfileScore) (o : Opt.t) :
  transit_ok o -> exists o', processOption h this o = Ok o'.
Proof.
  intros Hok. unfold processOption.
  destruct (tally_returns (deref h (rates this)) o Hok) as (o1 & -> & Hm & _).
  simpl. destruct (score_returns (deref h (factors this)) o1 Hm) as [s ->].
  simpl. eauto.
Qed.

Lemma expand_transit (o b : Opt.t) :
  b ∈ expand o -> Opt.transit b = Opt.transit o.
Proof.
  unfold expand. destruct (Opt.access o) as [access|]; [|inversion 1].
  intros Hb. apply list_elem_of_In, in_flat_map in Hb as (a & _ & Hb).
  apply list_elem_of_In in Hb. unfold expand_access in Hb.
  destruct (Opt.egress o) as [[|e es]|].
  - apply list_elem_of_singleton in Hb as ->. reflexivity.
  - apply list_elem_of_fmap in Hb as (e' & -> & _). reflexivity.
  - apply list_elem_of_singleton in Hb as ->. reflexivity.
Qed.

Lemma expand_length (o : Opt.t) : length (expand o) = branch_count o.
Proof.
  unfold expand, branch_count.
  destruct (Opt.access o) as [access|]; [|reflexivity].
  assert (H : length (flat_map (expand_access o) access) =
              length access * length (expand_access o (Leg.mk "" None 0%float))).
  { induction access as [|a l IH]; [reflexivity|].
    simpl. rewrite length_app, IH. f_equal.
    unfold expand_access. destruct (Opt.egress o) as [[|e es]|]; simpl;
      rewrite ?length_map; reflexivity. }
  rewrite H. unfold expand_access.
  destruct (Opt.egress o) as [[|e es]|]; destruct access as [|a l];
    simpl; rewrite ?length_map; simpl; lia.
Qed.

Lemma flat_map_length_sum {A B : Type} (f : A -> list B) (l : list A) :
  length (flat_map f l) = sum_list_with (fun a => length (f a)) l.
Proof.
  induction l as [|a l IH]; simpl; [reflexivity|].
  rewrite length_app, IH. reflexivity.
Qed.

(** C4: when [processOptions] returns, the number of results is the sum
    over the raw options of [|access| * |egress|] (both present and
    non-empty), [|access|] (no egress alternative) or 0 (no access
    alternative); it returns whenever the transit legs of the options can
    be read; and on no option at all it returns no result. *)
Theorem processOptions_count (h : Heap) (this : ProfileScore)
  (options : list Opt.t) :
  (forall results,
     processOptions h this options = Ok results ->
     length results = sum_list_with branch_count options) /\
  (Forall transit_ok options ->
   exists results, processOptions h this options = Ok results) /\
  processOptions h this [] = Ok [].
Proof.
  rewrite processOptions_expand. split; [|split].
  - intros results H. inv_bind H. apply Ok_inj in H as <-.
    rewrite (Permutation_length (sort_Permutation byScore o)).
    rewrite (mapM_length _ _ _ H0), flat_map_length_sum. clear.
    induction options as [|o1 l IH]; simpl; [reflexivity|].
    rewrite expand_length. f_equal.
    apply IH.
  - intros Hok.
    destruct (mapM_returns (processOption h this) (flat_map expand options))
      as [r Hr].
    + apply Forall_forall. intros b Hb.
      apply list_elem_of_In, in_flat_map in Hb as (o & Ho & Hb).
      apply processOption_returns. unfold transit_ok.
      rewrite (expand_transit o b) by (apply list_elem_of_In; exact Hb).
      rewrite Forall_forall in Hok. apply Hok, list_elem_of_In, Ho.
    + rewrite Hr. simpl. eauto.
  - reflexivity.
Qed.

(** ** The order of the binary64 numbers *)

Section FloatOrder.
Local Open Scope Z_scope.

Lemma digits2_pos_bounds (m : positive) :
  2 ^ (Zpos (digits2_pos m) - 1) <= Zpos m < 2 ^ Zpos (digits2_pos m).
Proof.
  induction m as [p IH|p IH|]; simpl digits2_pos.
  - rewrite Pos2Z.inj_succ, Z.pow_succ_r by lia.
    replace (Z.succ (Zpos (digits2_pos p)) - 1)
      with (Z.succ (Zpos (digits2_pos p) - 1)) by lia.
    rewrite Z.pow_succ_r by lia. lia.
  - rewrite Pos2Z.inj_succ, Z.pow_succ_r by lia.
    replace (Z.succ (Zpos (digits2_pos p)) - 1)
      with (Z.succ (Zpos (digits2_pos p) - 1)) by lia.
    rewrite Z.pow_succ_r by lia. lia.
  - simpl. lia.
Qed.

(** What validity says of a finite number's mantissa and exponent. *)
Lemma bounded_inv (m : positive) (e : Z) :
  bounded prec emax m e = true ->
  -1074 <= e <= 971 /\ Zpos m < 2 ^ 53 /\ (-1074 < e -> 2 ^ 52 <= Zpos m).
Proof.
  unfold bounded, canonical_mantissa, fexp, SpecFloat.emin, prec, emax.
  intros H. apply andb_prop in H as [H1 H2].
  apply Z.eqb_eq in H1. apply Z.leb_le in H2.
  pose proof (digits2_pos_bounds m) as [Hlo Hhi].
  assert (Hd : Zpos (digits2_pos m) <= 53) by lia.
  split; [lia|]. split.
  - apply (Z.lt_le_trans _ _ _ Hhi). apply Z.pow_le_mono_r; lia.
  - intros He. assert (Zpos (digits2_pos m) = 53) as Hd53 by lia.
    rewrite Hd53 in Hlo. exact Hlo.
Qed.

Lemma ord_finite_bound (s : bool) (m : positive) (e : Z) :
  bounded prec emax m e = true ->
  0 < Zpos m * 2 ^ (e + 1074) < 2 ^ 2200.
Proof.
  intros H. apply bounded_inv in H as (He & Hm & _).
  assert (0 < 2 ^ (e + 1074)) by (apply Z.pow_pos_nonneg; lia).
  split; [lia|].
  apply (Z.lt_le_trans _ (2 ^ 53 * 2 ^ (e + 1074))).
  - apply Z.mul_lt_mono_pos_r; lia.
  - rewrite <- Z.pow_add_r by lia. apply Z.pow_le_mono_r; lia.
Qed.

(** Among valid numbers of one sign, a smaller exponent is a smaller
    magnitude. *)
Lemma magnitude_lt_exponent (m1 m2 : positive) (e1 e2 : Z) :
  bounded prec emax m1 e1 = true -> bounded prec emax m2 e2 = true ->
  e1 < e2 ->
  Zpos m1 * 2 ^ (e1 + 1074) < Zpos m2 * 2 ^ (e2 + 1074).
Proof.
  intros H1 H2 He.
  apply bounded_inv in H1 as (He1 & Hm1 & _).
  apply bounded_inv in H2 as (He2 & _ & Hm2).
  specialize (Hm2 ltac:(lia)).
  replace (e2 + 1074) with ((e2 - e1) + (e1 + 1074)) by lia.
  rewrite (Z.pow_add_r 2 (e2 - e1) (e1 + 1074)) by lia.
  assert (0 < 2 ^ (e1 + 1074)) by (apply Z.pow_pos_nonneg; lia).
  assert (2 ^ 1 <= 2 ^ (e2 - e1)) by (apply Z.pow_le_mono_r; lia).
  change (2 ^ 1) with 2 in *. change (2 ^ 53) with (2 * 2 ^ 52) in Hm1.
  rewrite Z.mul_assoc.
  apply Z.mul_lt_mono_pos_r; [assumption|].
  apply (Z.lt_le_trans _ (Zpos m2 * 2)); [lia|].
  apply Z.mul_le_mono_nonneg_l; lia.
Qed.

Lemma magnitude_compare (m1 m2 : positive) (e1 e2 : Z) :
  bounded prec emax m1 e1 = true -> bounded prec emax m2 e2 = true ->
  match e1 ?= e2 with
  | Lt => Lt
  | Gt => Gt
  | Eq => Pos.compare_cont Eq m1 m2
  end = (Zpos m1 * 2 ^ (e1 + 1074) ?= Zpos m2 * 2 ^ (e2 + 1074)).
Proof.
  intros H1 H2. destruct (Z.compare_spec e1 e2) as [->|Hlt|Hgt].
  - pose proof (bounded_inv _ _ H2) as (He & _).
    assert (0 < 2 ^ (e2 + 1074)) by (apply Z.pow_pos_nonneg; lia).
    change (Pos.compare_cont Eq m1 m2) with (Zpos m1 ?= Zpos m2).
    destruct (Z.compare_spec (Zpos m1) (Zpos m2)) as [E|E|E]; symmetry.
    + apply Z.compare_eq_iff. congruence.
    + apply Z.compare_lt_iff. apply Z.mul_lt_mono_pos_r; assumption.
    + apply Z.compare_gt_iff. apply Z.mul_lt_mono_pos_r; assumption.
  - symmetry. apply Z.compare_lt_iff. apply magnitude_lt_exponent; assumption.
  - symmetry. apply Z.compare_gt_iff. apply magnitude_lt_exponent; assumption.
Qed.

Lemma Some_compare (c : comparison) (a b : Z) :
  match c with
  | Lt => a < b
  | Eq => a = b
  | Gt => b < a
  end ->
  Some c = Some (a ?= b).
Proof.
  intros H. f_equal. symmetry. destruct c.
  - apply Z.compare_eq_iff. exact H.
  - apply Z.compare_lt_iff. exact H.
  - apply Z.compare_gt_iff. exact H.
Qed.

(** [SFcompare] on valid numbers is the comparison of their places. *)
Lemma SFcompare_ord (x y : spec_float) :
  valid_binary x = true -> valid_binary y = true ->
  float_not_nan x -> float_not_nan y ->
  SFcompare x y = Some (float_ord x ?= float_ord y).
Proof.
  intros Vx Vy Nx Ny.
  destruct x as [sx|sx| |sx mx ex]; [| |congruence|];
  destruct y as [sy|sy| |sy my ey]; try congruence;
  simpl in Vx, Vy; unfold SFcompare, float_ord;
  try pose proof (ord_finite_bound sx mx ex Vx);
  try pose proof (ord_finite_bound sy my ey Vy);
  try (destruct sx); try (destruct sy);
  cbv beta iota delta [cond_Zopp];
  try (apply Some_compare; lia).
  - rewrite Z.compare_opp.
    rewrite (Z.compare_antisym (Zpos mx * 2 ^ (ex + 1074))
               (Zpos my * 2 ^ (ey + 1074))).
    rewrite <- (magnitude_compare _ _ _ _ Vx Vy).
    destruct (ex ?= ey); reflexivity.
  - f_equal. apply magnitude_compare; assumption.
Qed.

(** *** The sign of a rounded difference *)

Lemma shr_1_m (mrs : shr_record) :
  0 <= shr_m mrs -> shr_m (shr_1 mrs) = shr_m mrs / 2.
Proof.
  destruct mrs as [m r s]. simpl shr_m at 1 3. intros Hm.
  rewrite <- Z.div2_div.
  destruct m as [|[p|p|]|p]; try reflexivity. lia.
Qed.

Lemma iter_shr_1_m (p : positive) (mrs : shr_record) :
  0 <= shr_m mrs ->
  shr_m (SpecFloat.iter_pos shr_1 p mrs) = shr_m mrs / 2 ^ Zpos p.
Proof.
  revert mrs. induction p as [p IH|p IH|]; intros mrs Hm; simpl SpecFloat.iter_pos.
  - assert (H1 : 0 <= shr_m (shr_1 mrs)).
    { rewrite shr_1_m by assumption. apply Z.div_pos; lia. }
    assert (H2 : 0 <= shr_m (SpecFloat.iter_pos shr_1 p (shr_1 mrs))).
    { rewrite IH by assumption. apply Z.div_pos; [lia|].
      apply Z.pow_pos_nonneg; lia. }
    rewrite IH, IH, shr_1_m by assumption.
    assert (0 < 2 ^ Zpos p) by (apply Z.pow_pos_nonneg; lia).
    rewrite !Z.div_div by lia. f_equal.
    replace (Zpos p~1) with (1 + Zpos p + Zpos p) by lia.
    rewrite !Z.pow_add_r by lia. change (2 ^ 1) with 2. lia.
  - assert (H2 : 0 <= shr_m (SpecFloat.iter_pos shr_1 p mrs)).
    { rewrite IH by assumption. apply Z.div_pos; [lia|].
      apply Z.pow_pos_nonneg; lia. }
    rewrite IH, IH by assumption.
    assert (0 < 2 ^ Zpos p) by (apply Z.pow_pos_nonneg; lia).
    rewrite !Z.div_div by lia. f_equal.
    replace (Zpos p~0) with (Zpos p + Zpos p) by lia.
    rewrite !Z.pow_add_r by lia. reflexivity.
  - rewrite shr_1_m by assumption. reflexivity.
Qed.

Lemma shr_record_of_loc_m (m : Z) (l : location) :
  shr_m (shr_record_of_loc m l) = m.
Proof. destruct l as [|[| |]]; reflexivity. Qed.

(** Shifting a positive mantissa to its format exponent leaves it
    positive when the exponent is not below that of the subnormals. *)
Lemma shr_fexp_pos (m e : Z) (l : location) :
  0 < m -> -1074 <= e ->
  0 < shr_m (fst (shr_fexp prec emax m e l)) /\
  -1074 <= snd (shr_fexp prec emax m e l).
Proof.
  intros Hm He. unfold shr_fexp, shr, fexp, SpecFloat.emin, prec, emax.
  destruct m as [|p|p]; try lia. simpl Zdigits2.
  pose proof (digits2_pos_bounds p) as [Hlo _].
  set (d := Zpos (digits2_pos p)) in *.
  destruct (Z.max (d + e - 53) (3 - 1024 - 53) - e) as [|n|n] eqn:E; simpl fst;
    simpl snd; rewrite ?shr_record_of_loc_m; try lia.
  rewrite iter_shr_1_m by (rewrite shr_record_of_loc_m; lia).
  rewrite shr_record_of_loc_m.
  assert (Hn : Zpos n = d - 53) by lia.
  split; [|lia].
  apply Z.div_str_pos. split; [apply Z.pow_pos_nonneg; lia|].
  apply (Z.le_trans _ (2 ^ (d - 1))); [|assumption].
  apply Z.pow_le_mono_r; lia.
Qed.

Lemma round_nearest_even_ge (m : Z) (l : location) :
  m <= round_nearest_even m l.
Proof.
  destruct l as [|[| |]]; simpl; try lia. destruct (Z.even m); lia.
Qed.

Lemma binary_round_aux_signed (s : bool) (m e : Z) (l : location) :
  0 < m -> -1074 <= e -> float_signed s (binary_round_aux prec emax s m e l).
Proof.
  intros Hm He. unfold binary_round_aux.
  pose proof (shr_fexp_pos m e l Hm He) as [H1 H2].
  destruct (shr_fexp prec emax m e l) as [mrs1 e1]. simpl in H1, H2.
  pose proof (round_nearest_even_ge (shr_m mrs1) (loc_of_shr_record mrs1)).
  pose proof (shr_fexp_pos
                (round_nearest_even (shr_m mrs1) (loc_of_shr_record mrs1)) e1
                loc_Exact ltac:(lia) H2) as [H3 _].
  destruct (shr_fexp prec emax _ e1 loc_Exact) as [mrs2 e2]. simpl in H3.
  destruct (shr_m mrs2) as [|p|p]; try lia.
  destruct (e2 <=? emax - prec); [left; eauto | right; reflexivity].
Qed.

Lemma shl_align_exponent (m : positive) (e e' : Z) :
  -1074 <= e -> -1074 <= e' -> -1074 <= snd (shl_align m e e').
Proof.
  intros He He'. unfold shl_align. destruct (e' - e); simpl; lia.
Qed.

Lemma binary_round_signed (s : bool) (m : positive) (e : Z) :
  -1074 <= e -> float_signed s (binary_round prec emax s m e).
Proof.
  intros He. unfold binary_round.
  pose proof (shl_align_exponent m e
                (fexp prec emax (Zpos (digits2_pos m) + e)) He) as H.
  destruct (shl_align m e _) as [mz ez]. simpl in H.
  apply binary_round_aux_signed; [lia|]. apply H.
  unfold fexp, SpecFloat.emin, prec, emax. lia.
Qed.

Lemma shl_align_value (m : positive) (e e' : Z) :
  e' <= e -> Zpos (fst (shl_align m e e')) = Zpos m * 2 ^ (e - e').
Proof.
  intros He. unfold shl_align.
  destruct (e' - e) as [|d|d] eqn:E; simpl fst; try lia.
  - replace (e - e') with 0 by lia. rewrite Z.pow_0_r. lia.
  - replace (e - e') with (Zpos d) by lia.
    rewrite Pos.iter_swap_gen with (f := Zpos) (h := Z.mul 2)
      by (intros; apply Pos2Z.inj_xO).
    clear E He. revert m. induction d using Pos.peano_ind; intros m.
    + simpl. lia.
    + rewrite Pos.iter_succ, IHd, Pos2Z.inj_succ, Z.pow_succ_r by lia. lia.
Qed.

Lemma SFltb_zero_signed (s : bool) (x : spec_float) :
  float_signed s x -> SFltb (S754_zero false) x = negb s.
Proof.
  intros [(m & e & ->)| ->]; destruct s; reflexivity.
Qed.

Lemma ord_scaled (s : bool) (m : positive) (e ez : Z) :
  -1074 <= ez <= e ->
  float_ord (S754_finite s m e) =
  cond_Zopp s (Zpos (fst (shl_align m e ez))) * 2 ^ (ez + 1074).
Proof.
  intros He. simpl float_ord. rewrite shl_align_value by lia.
  replace (e + 1074) with ((e - ez) + (ez + 1074)) by lia.
  rewrite Z.pow_add_r by lia. destruct s; simpl; lia.
Qed.

(** The comparator's subtraction is positive exactly when its first
    operand is the greater one: the difference of two binary64 numbers is
    never rounded to zero. *)
Lemma SFsub_positive (x y : spec_float) :
  valid_binary x = true -> valid_binary y = true ->
  float_not_nan x -> float_not_nan y ->
  SFltb (S754_zero false) (SFsub prec emax x y) = (float_ord y <? float_ord x).
Proof.
  intros Vx Vy Nx Ny.
  destruct x as [sx|sx| |sx mx ex]; [| |congruence|];
  destruct y as [sy|sy| |sy my ey]; try congruence;
  simpl in Vx, Vy;
  try pose proof (ord_finite_bound sx mx ex Vx);
  try pose proof (ord_finite_bound sy my ey Vy).
  - destruct sx, sy; reflexivity.
  - destruct sx, sy; reflexivity.
  - simpl SFsub. unfold float_ord, cond_Zopp, SFltb, SFcompare.
    destruct sy; simpl negb; symmetry; [apply Z.ltb_lt|apply Z.ltb_ge]; lia.
  - destruct sx, sy; reflexivity.
  - destruct sx, sy; reflexivity.
  - simpl SFsub. unfold float_ord, cond_Zopp, SFltb, SFcompare.
    destruct sx, sy; symmetry;
      try (apply Z.ltb_lt; lia); try (apply Z.ltb_ge; lia).
  - simpl SFsub. unfold float_ord, cond_Zopp, SFltb, SFcompare.
    destruct sx; symmetry; [apply Z.ltb_ge|apply Z.ltb_lt]; lia.
  - simpl SFsub. unfold float_ord, cond_Zopp, SFltb, SFcompare.
    destruct sx, sy; simpl negb; symmetry;
      try (apply Z.ltb_lt; lia); try (apply Z.ltb_ge; lia).
  - pose proof (bounded_inv _ _ Vx) as (Hex & _).
    pose proof (bounded_inv _ _ Vy) as (Hey & _).
    unfold SFsub.
    set (ez := Z.min ex ey).
    rewrite (ord_scaled sx mx ex ez), (ord_scaled sy my ey ez) by lia.
    set (X := cond_Zopp sx (Zpos (fst (shl_align mx ex ez)))).
    set (Y := cond_Zopp sy (Zpos (fst (shl_align my ey ez)))).
    assert (HP : 0 < 2 ^ (ez + 1074)) by (apply Z.pow_pos_nonneg; lia).
    assert (HD : (Y * 2 ^ (ez + 1074) <? X * 2 ^ (ez + 1074)) = (0 <? X - Y)).
    { destruct (Z.ltb_spec 0 (X - Y)); [apply Z.ltb_lt|apply Z.ltb_ge]; nia. }
    rewrite HD. unfold binary_normalize.
    destruct (X - Y) as [|p|p].
    + reflexivity.
    + rewrite (SFltb_zero_signed false) by (apply binary_round_signed; lia).
      reflexivity.
    + rewrite (SFltb_zero_signed true) by (apply binary_round_signed; lia).
      reflexivity.
Qed.

(** *** On the primitive numbers *)

Lemma is_nan_false (x : float) :
  PrimFloat.is_nan x = false -> float_not_nan (Prim2SF x).
Proof.
  unfold PrimFloat.is_nan, float_not_nan. rewrite FloatAxioms.eqb_spec.
  intros H E. rewrite E in H. discriminate.
Qed.

Lemma ltb_key (x y : float) :
  PrimFloat.is_nan x = false -> PrimFloat.is_nan y = false ->
  PrimFloat.ltb x y = (float_key x <? float_key y).
Proof.
  intros Nx Ny. rewrite FloatAxioms.ltb_spec. unfold SFltb, float_key.
  rewrite SFcompare_ord
    by auto using FloatAxioms.Prim2SF_valid, is_nan_false.
  unfold Z.ltb. destruct (_ ?= _); reflexivity.
Qed.

Lemma leb_key (x y : float) :
  PrimFloat.is_nan x = false -> PrimFloat.is_nan y = false ->
  PrimFloat.leb x y = (float_key x <=? float_key y).
Proof.
  intros Nx Ny. rewrite FloatAxioms.leb_spec. unfold SFleb, float_key.
  rewrite SFcompare_ord
    by auto using FloatAxioms.Prim2SF_valid, is_nan_false.
  unfold Z.leb. destruct (_ ?= _); reflexivity.
Qed.

Lemma eqb_key (x y : float) :
  PrimFloat.is_nan x = false -> PrimFloat.is_nan y = false ->
  PrimFloat.eqb x y = (float_key x =? float_key y).
Proof.
  intros Nx Ny. rewrite FloatAxioms.eqb_spec. unfold SFeqb, float_key.
  rewrite SFcompare_ord
    by auto using FloatAxioms.Prim2SF_valid, is_nan_false.
  rewrite Z.eqb_compare. destruct (_ ?= _); reflexivity.
Qed.

Lemma is_nan_true (x : float) :
  PrimFloat.is_nan x = true -> Prim2SF x = S754_nan.
Proof.
  unfold PrimFloat.is_nan. rewrite FloatAxioms.eqb_spec. unfold SFeqb.
  intros H. destruct (Prim2SF x) as [s|s| |s m e] eqn:E; [| |reflexivity|];
    rewrite <- E, SFcompare_ord, Z.compare_refl in H;
    try discriminate H; try apply FloatAxioms.Prim2SF_valid;
    rewrite E; discriminate.
Qed.

Lemma eqb_nan_r (x y : float) :
  PrimFloat.is_nan y = true -> PrimFloat.eqb x y = false.
Proof.
  intros H. rewrite FloatAxioms.eqb_spec, (is_nan_true y H).
  unfold SFeqb. destruct (Prim2SF x) as [?|?| |? ? ?]; reflexivity.
Qed.

(** [0 < x - y] exactly when [y] is below [x], for numbers. *)
Lemma sub_positive_key (x y : float) :
  PrimFloat.is_nan x = false -> PrimFloat.is_nan y = false ->
  PrimFloat.ltb 0 (x - y) = (float_key y <? float_key x).
Proof.
  intros Nx Ny. rewrite FloatAxioms.ltb_spec, FloatAxioms.sub_spec.
  change (Prim2SF 0) with (S754_zero false).
  apply SFsub_positive;
    auto using FloatAxioms.Prim2SF_valid, is_nan_false.
Qed.
End FloatOrder.

(** ** The sort orders, and keeps ties in place *)

Section Sorting.
Context {A : Type} (comparefn : A -> A -> float) (k : A -> Z)
  (good : A -> Prop).

(** The comparator says "after" exactly for a greater key. *)
Hypothesis comparefn_key :
  forall x y, good x -> good y ->
    PrimFloat.ltb 0 (sortCompare comparefn x y) = (k y <? k x)%Z.

Lemma sort_insert_good (x : A) (l : list A) :
  good x -> Forall good l -> Forall good (sort_insert comparefn x l).
Proof.
  intros Hx Hl.
  apply (Permutation_Forall (Permutation_sym (sort_insert_Permutation _ x l))).
  constructor; assumption.
Qed.

Lemma sort_good (l : list A) : Forall good l -> Forall good (sort comparefn l).
Proof.
  apply Permutation_Forall, Permutation_sym, sort_Permutation.
Qed.

Lemma sort_insert_ascending (x : A) (l : list A) :
  good x -> Forall good l -> ascending k l ->
  ascending k (sort_insert comparefn x l).
Proof.
  intros Hx Hl Hs. induction Hs as [|y l Hs IH Hy]; simpl.
  - repeat constructor.
  - apply Forall_cons in Hl as [Hgy Hl].
    rewrite (comparefn_key x y Hx Hgy).
    destruct (Z.ltb_spec (k y) (k x)) as [Hlt|Hge].
    + constructor; [apply IH; assumption|].
      apply (Permutation_Forall
               (Permutation_sym (sort_insert_Permutation _ x l))).
      constructor; [lia | assumption].
    + constructor; [constructor; assumption|].
      constructor; [assumption|].
      apply (Forall_impl _ _ _ Hy). intros z Hz. lia.
Qed.

Lemma sort_ascending (l : list A) :
  Forall good l -> ascending k (sort comparefn l).
Proof.
  induction 1 as [|x l Hx Hl IH]; simpl.
  - constructor.
  - apply sort_insert_ascending; auto using sort_good.
Qed.

Lemma sort_insert_stable (c : Z) (x : A) (l : list A) :
  good x -> Forall good l ->
  List.filter (fun z => (k z =? c)%Z) (sort_insert comparefn x l) =
  List.filter (fun z => (k z =? c)%Z) (x :: l).
Proof.
  intros Hx Hl. induction Hl as [|y l Hy Hl IH]; [reflexivity|].
  simpl sort_insert. rewrite (comparefn_key x y Hx Hy).
  destruct (Z.ltb_spec (k y) (k x)) as [Hlt|Hge]; [|reflexivity].
  simpl List.filter in *. rewrite IH.
  destruct (Z.eqb_spec (k x) c), (Z.eqb_spec (k y) c); try reflexivity. lia.
Qed.

Lemma sort_stable (c : Z) (l : list A) :
  Forall good l ->
  List.filter (fun z => (k z =? c)%Z) (sort comparefn l) =
  List.filter (fun z => (k z =? c)%Z) l.
Proof.
  induction 1 as [|x l Hx Hl IH]; [reflexivity|].
  simpl sort. rewrite sort_insert_stable by auto using sort_good.
  simpl. rewrite IH. reflexivity.
Qed.

Lemma ascending_lookup (l : list A) (i j : nat) (x y : A) :
  ascending k l -> l !! i = Some x -> l !! j = Some y -> (i < j)%nat ->
  (k x <= k y)%Z.
Proof.
  intros Hs. revert i j. induction Hs as [|z l Hs IH Hz]; intros i j Hi Hj Hij.
  - rewrite lookup_nil in Hi. discriminate.
  - destruct j as [|j]; [lia|]. simpl in Hj. destruct i as [|i].
    + simpl in Hi. injection Hi as ->.
      rewrite Forall_forall in Hz. apply Hz.
      eapply list_elem_of_lookup_2. exact Hj.
    + simpl in Hi. apply (IH i j); [assumption|assumption|lia].
Qed.
End Sorting.

Lemma byScore_key (x y : Opt.t) :
  has_score x -> has_score y ->
  PrimFloat.ltb 0 (sortCompare byScore x y) =
  (float_key (score_of y) <? float_key (score_of x))%Z.
Proof.
  intros Hx Hy. unfold sortCompare, byScore. fold (score_of x) (score_of y).
  rewrite <- (sub_positive_key _ _ Hx Hy).
  destruct (PrimFloat.is_nan (score_of x - score_of y)) eqn:E;
    [|reflexivity].
  rewrite (FloatAxioms.ltb_spec 0 (score_of x - score_of y)).
  rewrite (is_nan_true _ E). reflexivity.
Qed.

Lemma filter_none {A : Type} (l : list A) :
  List.filter (fun _ => false) l = [].
Proof. induction l; simpl; auto. Qed.

(** C5 as stated fails: a leg whose time is NaN gives a result whose
    score is NaN, and NaN is neither below nor above any score.  On
    [three_minutes] and [no_time] the comparison function returns NaN, the
    two results stay as they were generated, the score 3 before the score
    NaN, and [3 <= NaN] is false; so would [NaN <= 3] be, had they come
    the other way round. *)
Lemma processOptions_sorted_counterexample :
  ~ (forall options results i j x y,
       processOptions default_heap default_scorer options = Ok results ->
       results !! i = Some x -> results !! j = Some y -> (i < j)%nat ->
       PrimFloat.leb (score_of x) (score_of y) = true).
Proof.
  intros H.
  destruct (returns_with
    (processOptions default_heap default_scorer [three_minutes; no_time])
    (fun results =>
       match results with
       | [x; y] =>
         score_of x = 3%float /\ PrimFloat.is_nan (score_of y) = true /\
         PrimFloat.leb (score_of x) (score_of y) = false /\
         PrimFloat.leb (score_of y) (score_of x) = false
       | _ => False
       end))
    as (results & Hres & Hbad).
  { vm_compute. auto. }
  destruct results as [|x [|y [|z rest]]]; try contradiction.
  destruct Hbad as (_ & _ & Hbad & _).
  rewrite (H _ _ 0%nat 1%nat x y Hres eq_refl eq_refl) in Hbad by lia.
  discriminate Hbad.
Qed.

(** C5, amended: when no score is NaN, the results of [processOptions]
    are in ascending order of score, they are the processed branches
    rearranged, and the results of any one score are in the order in
    which their branches were generated. *)
Theorem processOptions_sorted_stable (h : Heap) (this : ProfileScore)
  (options results : list Opt.t) :
  processOptions h this options = Ok results ->
  Forall has_score results ->
  exists processed,
    mapM (processOption h this) (flat_map expand options) = Ok processed /\
    Permutation results processed /\
    (forall i j x y,
       results !! i = Some x -> results !! j = Some y -> (i < j)%nat ->
       PrimFloat.leb (score_of x) (score_of y) = true) /\
    (forall s,
       List.filter (fun r => PrimFloat.eqb (score_of r) s) results =
       List.filter (fun r => PrimFloat.eqb (score_of r) s) processed).
Proof.
  rewrite processOptions_expand. intros H Hgood.
  inv_bind H. rename o into processed. apply Ok_inj in H as <-.
  exists processed. split; [assumption|].
  pose proof (sort_Permutation byScore processed) as Hperm.
  assert (Hgood' : Forall has_score processed)
    by (apply (Permutation_Forall Hperm); assumption).
  split; [assumption|]. split.
  - intros i j x y Hi Hj Hij.
    assert (Hx : has_score x).
    { rewrite Forall_forall in Hgood. apply Hgood.
      eapply list_elem_of_lookup_2. exact Hi. }
    assert (Hy : has_score y).
    { rewrite Forall_forall in Hgood. apply Hgood.
      eapply list_elem_of_lookup_2. exact Hj. }
    rewrite (leb_key _ _ Hx Hy). apply Z.leb_le.
    apply (ascending_lookup (fun r => float_key (score_of r))
             (sort byScore processed) i j x y); try assumption.
    apply (sort_ascending byScore _ has_score byScore_key). assumption.
  - intros s. destruct (PrimFloat.is_nan s) eqn:Es.
    + assert (E : forall r : Opt.t,
                PrimFloat.eqb (score_of r) s = false)
        by (intros r; apply eqb_nan_r; assumption).
      rewrite (List.filter_ext _ (fun _ => false) E (sort byScore processed)).
      rewrite (List.filter_ext _ (fun _ => false) E processed).
      rewrite !filter_none. reflexivity.
    + rewrite (List.filter_ext_in _
                 (fun r => (float_key (score_of r)
                            =? float_key s)%Z) (sort byScore processed)).
      * rewrite (List.filter_ext_in _
                   (fun r => (float_key (score_of r)
                              =? float_key s)%Z) processed).
        -- apply (sort_stable byScore _ has_score byScore_key). assumption.
        -- intros r Hr. apply eqb_key; [|assumption].
           rewrite Forall_forall in Hgood'. apply Hgood'.
           apply list_elem_of_In. exact Hr.
      * intros r Hr. apply eqb_key; [|assumption].
        rewrite Forall_forall in Hgood. apply Hgood.
        apply list_elem_of_In. exact Hr.
Qed.

Lemma processOptions_sorted_stable_witness :
  exists r1 r2 r3,
    processOptions default_heap default_scorer
      [scenario_A; one_minute; scenario_A_caps] = Ok [r1; r2; r3] /\
    Opt.access r1 = Opt.access one_minute /\
    Opt.access r2 = Opt.access scenario_A /\
    Opt.access r3 = Opt.access scenario_A_caps /\
    PrimFloat.leb (score_of r1) (score_of r2) = true /\
    PrimFloat.leb (score_of r2) (score_of r3) = true /\
    List.filter (fun r => PrimFloat.eqb (score_of r) (score_of r2))
      [r1; r2; r3] = [r2; r3].
Proof.
  destruct (returns_with
    (processOptions default_heap default_scorer
       [scenario_A; one_minute; scenario_A_caps])
    (fun results =>
       forallb (fun r => negb (PrimFloat.is_nan (score_of r))) results = true
       /\ map Opt.access results =
          [Opt.access one_minute; Opt.access scenario_A;
           Opt.access scenario_A_caps]))
    as (results & Hres & Hgood & Hacc).
  { vm_compute. split; reflexivity. }
  destruct results as [|r1 [|r2 [|r3 [|r4 rest]]]]; try discriminate Hacc.
  exists r1, r2, r3. split; [exact Hres|].
  injection Hacc as H1 H2 H3.
  destruct (processOptions_sorted_stable default_heap default_scorer
              [scenario_A; one_minute; scenario_A_caps] [r1; r2; r3] Hres)
    as (processed & Hproc & _ & Hasc & Hstable).
  { pose proof (proj1 (forallb_forall _ _) Hgood) as Hg.
    apply Forall_forall. intros r Hr.
    apply negb_true_iff, Hg, list_elem_of_In, Hr. }
  split; [exact H1|]. split; [exact H2|]. split; [exact H3|].
  split; [apply (Hasc 0%nat 1%nat); [reflexivity|reflexivity|lia]|].
  split; [apply (Hasc 1%nat 2%nat); [reflexivity|reflexivity|lia]|].
  revert Hres. vm_compute. intros Hres. apply Ok_inj in Hres.
  injection Hres as <- <- <-. reflexivity.
Defined.

Lemma processOptions_count_witness :
  Forall transit_ok [scenario_B; one_minute; Opt.raw None None None None] /\
  exists results,
    processOptions default_heap default_scorer
      [scenario_B; one_minute; Opt.raw None None None None] = Ok results /\
    length results = 3.
Proof.
  assert (Hok : Forall transit_ok
                  [scenario_B; one_minute; Opt.raw None None None None]).
  { unfold transit_ok. repeat constructor. simpl. discriminate. }
  split; [exact Hok|].
  destruct (processOptions_count default_heap default_scorer
              [scenario_B; one_minute; Opt.raw None None None None])
    as (Hlen & Hret & _).
  destruct (Hret Hok) as [results Hres].
  exists results. split; [exact Hres|].
  rewrite (Hlen results Hres). reflexivity.
Defined.

(** Scenario B on its own: two access alternatives and one egress
    alternative give two results, the cycled one first. *)
Example scenario_B_two_results :
  exists r1 r2,
    processOptions default_heap default_scorer [scenario_B] = Ok [r1; r2] /\
    Opt.modes r1 = Some ["bicycle"; "walk"; "bus"] /\
    Opt.modes r2 = Some ["walk"; "bus"].
Proof.
  destruct (returns_with
    (processOptions default_heap default_scorer [scenario_B])
    (fun results =>
       map Opt.modes results =
       [Some ["bicycle"; "walk"; "bus"]; Some ["walk"; "bus"]]))
    as (results & Hres & Hm).
  { vm_compute. reflexivity. }
  destruct results as [|r1 [|r2 [|r3 rest]]]; try discriminate Hm.
  injection Hm as H1 H2. exists r1, r2. auto.
Qed.

(** * Further properties

    The stages of [tally] taken one by one, then what the whole of
    [tally], [score], [processOption] and [processOptions] guarantee. *)

(** ** The stages of [tally], one by one *)

Lemma tally_stages (rates : gmap string value) (o o' : Opt.t) :
  tally rates o = Ok o' ->
  exists o1 o2 o3 o4 o5 o6,
    tally_access (tally_defaults o) = Ok o1 /\
    tally_egress o1 = Ok o2 /\
    tally_transit rates o2 = Ok o3 /\
    tally_walkCalories rates o3 = Ok o4 /\
    tally_bikeCalories rates o4 = Ok o5 /\
    tally_car rates o5 = Ok o6 /\
    tally_finish o6 = Ok o'.
Proof.
  unfold tally, tally_body. intros H. inv_bind H. revert H0.
  destruct (tally_access (tally_defaults o)) as [o1|] eqn:E1; [|discriminate].
  simpl. destruct (tally_egress o1) as [o2|] eqn:E2; [|discriminate].
  simpl. destruct (tally_transit rates o2) as [o3|] eqn:E3; [|discriminate].
  simpl. destruct (tally_walkCalories rates o3) as [o4|] eqn:E4;
    [|discriminate].
  simpl. destruct (tally_bikeCalories rates o4) as [o5|] eqn:E5;
    [|discriminate].
  simpl. intros H0. exists o1, o2, o3, o4, o5, o0.
  repeat (split; [reflexivity || assumption|]). assumption.
Qed.

Lemma push_mode_Ok (m : string) (o o' : Opt.t) :
  push_mode m o = Ok o' ->
  exists ms, Opt.modes o = Some ms /\
             o' = Opt.set_modes (Some (ms ++ [m])) o.
Proof.
  unfold push_mode. destruct (Opt.modes o) as [ms|]; [|discriminate].
  intros H. apply Ok_inj in H. eauto.
Qed.

(** A street leg writes [modes] and the three distances, nothing else;
    it pushes its mode, and ['walk'] after ['bicycle_rent']. *)
Lemma addStreetEdges_Ok (o o' : Opt.t) (mode : string)
  (se : option (list StreetEdge.t)) :
  addStreetEdges o mode se = Ok o' ->
  erase_leg o' = erase_leg o /\ Opt.time o' = Opt.time o /\
  (forall ms, Opt.modes o = Some ms ->
     Opt.modes o' =
     Some (ms ++ match se with
                 | Some _ =>
                   if String.eqb mode "bicycle_rent" then [mode; "walk"]
                   else [mode]
                 | None => []
                 end)).
Proof.
  unfold addStreetEdges, push_mode. destruct se as [edges|].
  - destruct (Opt.modes o) as [ms0|]; [|discriminate]. simpl.
    destruct (String.eqb_spec mode "car") as [->|_];
      [|destruct (String.eqb_spec mode "bicycle") as [->|_];
        [|destruct (String.eqb_spec mode "bicycle_rent") as [->|_];
          [|destruct (String.eqb mode "walk")]]];
      simpl; intros H; apply Ok_inj in H as <-;
      (split; [reflexivity|]); (split; [reflexivity|]);
      intros ms [= <-]; simpl; rewrite <- ?app_assoc; reflexivity.
  - intros H; apply Ok_inj in H as <-. split; [reflexivity|].
    split; [reflexivity|]. intros ms ->. rewrite app_nil_r. reflexivity.
Qed.

Lemma tally_access_Ok (o o' : Opt.t) :
  tally_access o = Ok o' ->
  erase_leg o' = erase_leg o /\
  (forall ms, Opt.modes o = Some ms ->
              Opt.modes o' = Some (ms ++ leg_modes (Opt.access o))).
Proof.
  unfold tally_access, leg_modes.
  destruct (Opt.access o) as [[|leg rest]|].
  - intros H; apply Ok_inj in H as <-. split; [reflexivity|].
    intros ms ->. rewrite app_nil_r. reflexivity.
  - intros H. inv_bind H. apply Ok_inj in H as <-.
    apply addStreetEdges_Ok in H0 as (He & _ & Hm).
    split; [exact He | exact Hm].
  - intros H; apply Ok_inj in H as <-. split; [reflexivity|].
    intros ms ->. rewrite app_nil_r. reflexivity.
Qed.

Lemma tally_egress_Ok (o o' : Opt.t) :
  tally_egress o = Ok o' ->
  erase_leg o' = erase_leg o /\
  (forall ms, Opt.modes o = Some ms ->
              Opt.modes o' = Some (ms ++ leg_modes (Opt.egress o))).
Proof.
  unfold tally_egress, leg_modes.
  destruct (Opt.egress o) as [[|leg rest]|].
  - intros H; apply Ok_inj in H as <-. split; [reflexivity|].
    intros ms ->. rewrite app_nil_r. reflexivity.
  - intros H. inv_bind H. apply Ok_inj in H as <-.
    apply addStreetEdges_Ok in H0 as (He & _ & Hm).
    split; [exact He | exact Hm].
  - intros H; apply Ok_inj in H as <-. split; [reflexivity|].
    intros ms ->. rewrite app_nil_r. reflexivity.
Qed.

(** ** The transit block *)

Lemma add_times_succ_r (n : nat) (d x : float) :
  add_times n d (x + d)%float = add_times (S n) d x.
Proof. unfold add_times. rewrite Nat.iter_succ_r. reflexivity. Qed.

(** One transit leg: it needs a readable [segmentPatterns], pushes its
    mode and adds the flat emissions; transfers and costs stay. *)
Lemma tally_segment_Ok (rates : gmap string value) (o o' : Opt.t)
  (seg : Segment.t) :
  tally_segment rates o seg = Ok o' ->
  segment_ok seg /\
  erase_transit o' = erase_transit o /\
  Opt.transfers o' = Opt.transfers o /\
  Opt.transitCost o' = Opt.transitCost o /\
  Opt.cost o' = Opt.cost o /\
  Opt.emissions o' =
    Some (num (Opt.emissions o) + numv (rates !! "co2PerTransitTrip"))%float /\
  (forall ms, Opt.modes o = Some ms ->
     Opt.modes o' = Some (ms ++ [toLowerCase (Segment.mode seg)])).
Proof.
  unfold tally_segment, push_mode, segment_ok.
  destruct (Opt.modes o) as [ms0|]; [|discriminate]. simpl.
  destruct (Segment.segmentPatterns seg) as [[|p ps]|]; [discriminate| |];
    simpl; destruct (PrimFloat.ltb _ _);
    intros H; apply Ok_inj in H as <-;
    (split; [discriminate|]); repeat (split; [reflexivity|]);
    intros ms [= <-]; reflexivity.
Qed.

Lemma tally_segments_Ok (rates : gmap string value) (segs : list Segment.t)
  (o o' : Opt.t) :
  forEachM (tally_segment rates) segs o = Ok o' ->
  Forall segment_ok segs /\
  erase_transit o' = erase_transit o /\
  Opt.transfers o' = Opt.transfers o /\
  Opt.transitCost o' = Opt.transitCost o /\
  Opt.cost o' = Opt.cost o /\
  (forall e, Opt.emissions o = Some e ->
     Opt.emissions o' =
     Some (add_times (length segs) (numv (rates !! "co2PerTransitTrip")) e)) /\
  (forall ms, Opt.modes o = Some ms ->
     Opt.modes o' =
     Some (ms ++ map (fun s => toLowerCase (Segment.mode s)) segs)).
Proof.
  revert o. induction segs as [|seg segs IH]; intros o; simpl.
  - intros H; apply Ok_inj in H as <-.
    split; [constructor|]. repeat (split; [reflexivity|]).
    split; [auto|]. intros ms ->. rewrite app_nil_r. reflexivity.
  - intros H. inv_bind H.
    apply tally_segment_Ok in H0 as (Hok & He & Htr & Htc & Hc & Hem & Hm).
    apply IH in H as (Hoks & He' & Htr' & Htc' & Hc' & Hem' & Hm').
    split; [constructor; assumption|].
    split; [congruence|]. split; [congruence|]. split; [congruence|].
    split; [congruence|]. split.
    + intros e Hemo. rewrite (Hem' _ Hem), Hemo. simpl num.
      rewrite add_times_succ_r. reflexivity.
    + intros ms Hms. rewrite (Hm' _ (Hm _ Hms)), <- app_assoc. reflexivity.
Qed.

(** The fares loop writes [transitCost] only: it adds the peaks that
    count. *)
Lemma tally_fares_fold (fares : list (option Fare.t)) (o : Opt.t) :
  Opt.set_transitCost None (fold_left tally_fare fares o) =
    Opt.set_transitCost None o /\
  (forall c, Opt.transitCost o = Some c ->
     Opt.transitCost (fold_left tally_fare fares o) =
     Some (sum_from c (counted_peaks fares))).
Proof.
  revert o. induction fares as [|f fares IH]; intros o; simpl.
  - auto.
  - destruct f as [f|]; simpl; [|apply IH].
    destruct (Fare.peak f) as [p|]; [|apply IH].
    destruct (truthy_num p); [|apply IH].
    destruct (IH (Opt.set_transitCost
                    (Some (num (Opt.transitCost o) + p)%float) o))
      as [He Hc].
    split; [exact He|]. intros c Hco. rewrite (Hc _ eq_refl), Hco.
    reflexivity.
Qed.

(** The transit block as a whole. *)
Lemma tally_transit_Ok (rates : gmap string value) (o o' : Opt.t) :
  tally_transit rates o = Ok o' ->
  transit_ok o /\
  erase_transit o' = erase_transit o /\
  if has_transit o then
    Opt.transfers o' =
      Some (float_of_nat (length (transit_legs o)) - 1)%float /\
    Opt.transitCost o' =
      Some (sum_from 0 (counted_peaks (default [] (Opt.fares o)))) /\
    Opt.cost o' = Some (num (Opt.cost o) + num (Opt.transitCost o'))%float /\
    (forall e, Opt.emissions o = Some e ->
       Opt.emissions o' =
       Some (add_times (length (transit_legs o))
               (numv (rates !! "co2PerTransitTrip")) e)) /\
    (forall ms, Opt.modes o = Some ms ->
       Opt.modes o' = Some (ms ++ transit_modes o))
  else o' = o.
Proof.
  unfold tally_transit, transit_ok, has_transit, transit_modes, transit_legs.
  destruct (Opt.transit o) as [[|seg segs]|] eqn:Ht; simpl default.
  - intros H; apply Ok_inj in H as <-. split; [constructor|]. auto.
  - cbv zeta. intros H. inv_bind H. apply Ok_inj in H as <-.
    apply tally_segments_Ok in H0 as (Hok & He & Htr & Htc & Hc & Hem & Hm).
    assert (Hf : Opt.fares o0 = Opt.fares o)
      by exact (f_equal Opt.fares He).
    split; [exact Hok|].
    set (o1 := match Opt.fares o0 with
               | Some fares => fold_left tally_fare fares o0
               | None => o0
               end).
    assert (H1 : Opt.set_transitCost None o1 = Opt.set_transitCost None o0 /\
                 Opt.transitCost o1 =
                 Some (sum_from 0 (counted_peaks (default [] (Opt.fares o))))).
    { subst o1. rewrite <- Hf. destruct (Opt.fares o0) as [fares|]; simpl.
      - destruct (tally_fares_fold fares o0) as [E1 E2].
        split; [exact E1|]. apply E2. rewrite Htc. reflexivity.
      - split; [reflexivity|]. rewrite Htc. reflexivity. }
    destruct H1 as [E1 E2].
    split.
    { transitivity (erase_transit o0); [|exact He].
      exact (f_equal erase_transit E1). }
    assert (Etr : Opt.transfers o1 = Opt.transfers o0)
      by exact (f_equal Opt.transfers E1).
    assert (Eco : Opt.cost o1 = Opt.cost o0)
      by exact (f_equal Opt.cost E1).
    assert (Eem : Opt.emissions o1 = Opt.emissions o0)
      by exact (f_equal Opt.emissions E1).
    assert (Emo : Opt.modes o1 = Opt.modes o0)
      by exact (f_equal Opt.modes E1).
    split; [simpl; rewrite Etr, Htr; reflexivity|].
    split; [simpl; exact E2|].
    split; [simpl; rewrite E2, Eco, Hc; reflexivity|].
    split.
    { intros e Hemo. simpl. rewrite Eem. apply Hem. exact Hemo. }
    intros ms Hms. simpl. rewrite Emo. apply Hm. exact Hms.
  - intros H; apply Ok_inj in H as <-. split; [constructor|]. auto.
Qed.

(** ** The calorie, car and closing blocks *)

Lemma tally_walkCalories_Ok (rates : gmap string value) (o o' : Opt.t) :
  tally_walkCalories rates o = Ok o' ->
  exists ms,
    Opt.modes o = Some ms /\
    Opt.set_walkCalories None o' = Opt.set_walkCalories None o /\
    Opt.walkCalories o' =
      if negb (indexOf ms "walk" =? -1)%Z then
        Some (caloriesBurned WALKING_MET (numv (rates !! "weight"))
                (num (Opt.walkDistance o) / numv (rates !! "walkSpeed")
                 * SECONDS_TO_HOURS)%float)
      else Opt.walkCalories o.
Proof.
  unfold tally_walkCalories. destruct (Opt.modes o) as [ms|]; [|discriminate].
  intros H. exists ms. split; [reflexivity|]. revert H.
  destruct (negb _); intros H; apply Ok_inj in H as <-; auto.
Qed.

Lemma tally_bikeCalories_Ok (rates : gmap string value) (o o' : Opt.t) :
  tally_bikeCalories rates o = Ok o' ->
  exists ms,
    Opt.modes o = Some ms /\
    Opt.set_bikeCalories None o' = Opt.set_bikeCalories None o /\
    Opt.bikeCalories o' =
      if negb (indexOf ms "bicycle" =? -1)%Z
         || negb (indexOf ms "bicycle_rent" =? -1)%Z then
        Some (caloriesBurned CYCLING_MET (numv (rates !! "weight"))
                (num (Opt.bikeDistance o) / numv (rates !! "bikeSpeed")
                 * SECONDS_TO_HOURS)%float)
      else Opt.bikeCalories o.
Proof.
  unfold tally_bikeCalories. destruct (Opt.modes o) as [ms|]; [|discriminate].
  intros H. exists ms. split; [reflexivity|]. revert H.
  destruct (_ || _); intros H; apply Ok_inj in H as <-; auto.
Qed.

Lemma tally_car_wrote (rates : gmap string value) (o o' : Opt.t) :
  tally_car rates o = Ok o' ->
  exists ms,
    Opt.modes o = Some ms /\
    erase_car o' = erase_car o /\
    if negb (indexOf ms "car" =? -1)%Z then
      Opt.carCost o' =
        Some (numv (rates !! "mileageRate")
              * (num (Opt.driveDistance o) * METERS_TO_MILES)
              + numv (rates !! "carParkingCost"))%float /\
      Opt.cost o' = Some (num (Opt.cost o) + num (Opt.carCost o'))%float /\
      Opt.emissions o' =
        Some (num (Opt.driveDistance o) / numv (rates !! "mpg")
              * CO2_PER_GALLON)%float
    else o' = o.
Proof.
  unfold tally_car. destruct (Opt.modes o) as [ms|]; [|discriminate].
  intros H. exists ms. split; [reflexivity|]. revert H.
  destruct (negb _); intros H; apply Ok_inj in H as <-; auto.
Qed.

Lemma tally_finish_wrote (o o' : Opt.t) :
  tally_finish o = Ok o' ->
  exists ms,
    Opt.modes o = Some ms /\
    erase_finish o' = erase_finish o /\
    Opt.modes o' = Some (unique ms) /\
    Opt.calories o' =
      Some (num (Opt.bikeCalories o) + num (Opt.walkCalories o))%float.
Proof.
  unfold tally_finish. destruct (Opt.modes o) as [ms|]; [|discriminate].
  intros H; apply Ok_inj in H as <-. exists ms. auto.
Qed.

(** ** What [tally] leaves in each field *)

(** A field that none of the stages in between writes. *)
Ltac frame :=
  match goal with
  | |- ?f ?a = ?f ?b =>
    first
      [ reflexivity
      | match goal with
        | E : ?er a = ?er ?c |- _ =>
          transitivity (f c); [exact (f_equal f E) | frame]
        end ]
  end.

Lemma tally_summary (rates : gmap string value) (o o' : Opt.t) :
  tally rates o = Ok o' ->
  let pushed := pushed_modes o in
  let legs := length (transit_legs o) in
  let transit_cost :=
    if has_transit o
    then sum_from 0 (counted_peaks (default [] (Opt.fares o)))
    else 0%float in
  let base_cost :=
    if has_transit o then (0 + transit_cost)%float else 0%float in
  transit_ok o /\
  raw_of o' = raw_of o /\
  Opt.score o' = Opt.score o /\
  Opt.modes o' = Some (unique pushed) /\
  Opt.transfers o' =
    Some (if has_transit o then (float_of_nat legs - 1)%float else 0%float) /\
  Opt.transitCost o' = Some transit_cost /\
  Opt.emissions o' =
    Some (if in_modes "car" pushed
          then (num (Opt.driveDistance o') / numv (rates !! "mpg")
                * CO2_PER_GALLON)%float
          else add_times legs (numv (rates !! "co2PerTransitTrip")) 0) /\
  Opt.carCost o' =
    (if in_modes "car" pushed
     then Some (numv (rates !! "mileageRate")
                * (num (Opt.driveDistance o') * METERS_TO_MILES)
                + numv (rates !! "carParkingCost"))%float
     else Opt.carCost o) /\
  Opt.cost o' =
    Some (if in_modes "car" pushed
          then (base_cost + num (Opt.carCost o'))%float
          else base_cost) /\
  Opt.walkCalories o' =
    Some (if in_modes "walk" pushed
          then caloriesBurned WALKING_MET (numv (rates !! "weight"))
                 (num (Opt.walkDistance o') / numv (rates !! "walkSpeed")
                  * SECONDS_TO_HOURS)%float
          else 0%float) /\
  Opt.bikeCalories o' =
    Some (if in_modes "bicycle" pushed || in_modes "bicycle_rent" pushed
          then caloriesBurned CYCLING_MET (numv (rates !! "weight"))
                 (num (Opt.bikeDistance o') / numv (rates !! "bikeSpeed")
                  * SECONDS_TO_HOURS)%float
          else 0%float) /\
  Opt.calories o' =
    Some (num (Opt.bikeCalories o') + num (Opt.walkCalories o'))%float.
Proof.
  intros H pushed legs transit_cost base_cost.
  apply tally_stages in H
    as (o1 & o2 & o3 & o4 & o5 & o6 & H1 & H2 & H3 & H4 & H5 & H6 & H7).
  apply tally_access_Ok in H1 as [E1 M1].
  apply tally_egress_Ok in H2 as [E2 M2].
  apply tally_transit_Ok in H3 as (Hok & E3 & T3).
  apply tally_walkCalories_Ok in H4 as (ms4 & Hm4 & E4 & W4).
  apply tally_bikeCalories_Ok in H5 as (ms5 & Hm5 & E5 & B5).
  apply tally_car_wrote in H6 as (ms6 & Hm6 & E6 & C6).
  apply tally_finish_wrote in H7 as (ms7 & Hm7 & E7 & M7 & K7).
  (* the profiler's data and the score pass through every stage *)
  assert (R2 : raw_of o2 = raw_of o /\ Opt.score o2 = Opt.score o).
  { split.
    - transitivity (raw_of o1);
        [exact (f_equal raw_of E2) | exact (f_equal raw_of E1)].
    - transitivity (Opt.score o1);
        [exact (f_equal Opt.score E2) | exact (f_equal Opt.score E1)]. }
  destruct R2 as [R2 S2].
  assert (Ht2 : Opt.transit o2 = Opt.transit o).
  { unfold raw_of in R2. congruence. }
  assert (Hf2 : Opt.fares o2 = Opt.fares o).
  { unfold raw_of in R2. congruence. }
  assert (Ha1 : Opt.egress o1 = Opt.egress o)
    by exact (f_equal Opt.egress E1).
  (* the modes *)
  specialize (M1 [] eq_refl). simpl in M1.
  specialize (M2 _ M1). rewrite Ha1 in M2.
  assert (Hh : has_transit o2 = has_transit o)
    by (unfold has_transit; rewrite Ht2; reflexivity).
  assert (Hl : transit_legs o2 = transit_legs o)
    by (unfold transit_legs; rewrite Ht2; reflexivity).
  assert (Hmod : transit_modes o2 = transit_modes o)
    by (unfold transit_modes; rewrite Hl; reflexivity).
  assert (Hok' : transit_ok o)
    by (unfold transit_ok in *; rewrite <- Ht2; exact Hok).
  clear Hok. rename Hok' into Hok.
  rewrite Hh, Hl, Hmod, Hf2 in T3.
  assert (M3 : Opt.modes o3 = Some pushed).
  { unfold pushed, pushed_modes.
    destruct (has_transit o) eqn:Eh.
    - destruct T3 as (_ & _ & _ & _ & T3). rewrite (T3 _ M2), <- app_assoc.
      reflexivity.
    - subst o3. rewrite M2.
      assert (transit_modes o = []) as ->.
      { unfold transit_modes, transit_legs, has_transit in *.
        destruct (Opt.transit o) as [[|? ?]|]; try discriminate; reflexivity. }
      rewrite app_nil_r. reflexivity. }
  rewrite M3 in Hm4. injection Hm4 as <-.
  assert (M4 : Opt.modes o4 = Some pushed).
  { rewrite <- M3. exact (f_equal Opt.modes E4). }
  rewrite M4 in Hm5. injection Hm5 as <-.
  assert (M5 : Opt.modes o5 = Some pushed).
  { rewrite <- M4. exact (f_equal Opt.modes E5). }
  rewrite M5 in Hm6. injection Hm6 as <-.
  assert (M6 : Opt.modes o6 = Some pushed).
  { rewrite <- M5. exact (f_equal Opt.modes E6). }
  rewrite M6 in Hm7. injection Hm7 as <-.
  fold (in_modes "walk" pushed) in W4.
  fold (in_modes "bicycle" pushed) (in_modes "bicycle_rent" pushed) in B5.
  fold (in_modes "car" pushed) in C6.
  split; [exact Hok|].
  split.
  { rewrite <- R2.
    transitivity (raw_of o6); [exact (f_equal raw_of E7)|].
    transitivity (raw_of o5); [exact (f_equal raw_of E6)|].
    transitivity (raw_of o4); [exact (f_equal raw_of E5)|].
    transitivity (raw_of o3); [exact (f_equal raw_of E4)|].
    exact (f_equal raw_of E3). }
  split.
  { rewrite <- S2.
    transitivity (Opt.score o6); [exact (f_equal Opt.score E7)|].
    transitivity (Opt.score o5); [exact (f_equal Opt.score E6)|].
    transitivity (Opt.score o4); [exact (f_equal Opt.score E5)|].
    transitivity (Opt.score o3); [exact (f_equal Opt.score E4)|].
    exact (f_equal Opt.score E3). }
  split; [exact M7|].
  (* the distances are final after the transit block *)
  assert (D3 : Opt.driveDistance o' = Opt.driveDistance o5 /\
               Opt.walkDistance o' = Opt.walkDistance o3 /\
               Opt.bikeDistance o' = Opt.bikeDistance o4).
  { split; [|split].
    - transitivity (Opt.driveDistance o6);
        [exact (f_equal Opt.driveDistance E7)
        |exact (f_equal Opt.driveDistance E6)].
    - transitivity (Opt.walkDistance o6);
        [exact (f_equal Opt.walkDistance E7)|].
      transitivity (Opt.walkDistance o5);
        [exact (f_equal Opt.walkDistance E6)|].
      transitivity (Opt.walkDistance o4);
        [exact (f_equal Opt.walkDistance E5)
        |exact (f_equal Opt.walkDistance E4)].
    - transitivity (Opt.bikeDistance o6);
        [exact (f_equal Opt.bikeDistance E7)|].
      transitivity (Opt.bikeDistance o5);
        [exact (f_equal Opt.bikeDistance E6)
        |exact (f_equal Opt.bikeDistance E5)]. }
  destruct D3 as (Dd & Dw & Db).
  (* what the transit block left *)
  assert (T2 : Opt.transfers o2 = Some 0%float /\
               Opt.transitCost o2 = Some 0%float /\
               Opt.cost o2 = Some 0%float /\
               Opt.emissions o2 = Some 0%float /\
               Opt.walkCalories o2 = Some 0%float /\
               Opt.bikeCalories o2 = Some 0%float /\
               Opt.carCost o2 = Opt.carCost o /\
               Opt.trips o2 = Opt.trips o).
  { repeat split.
    - transitivity (Opt.transfers o1);
        [exact (f_equal Opt.transfers E2) | exact (f_equal Opt.transfers E1)].
    - transitivity (Opt.transitCost o1);
        [exact (f_equal Opt.transitCost E2)
        |exact (f_equal Opt.transitCost E1)].
    - transitivity (Opt.cost o1);
        [exact (f_equal Opt.cost E2) | exact (f_equal Opt.cost E1)].
    - transitivity (Opt.emissions o1);
        [exact (f_equal Opt.emissions E2) | exact (f_equal Opt.emissions E1)].
    - transitivity (Opt.walkCalories o1);
        [exact (f_equal Opt.walkCalories E2)
        |exact (f_equal Opt.walkCalories E1)].
    - transitivity (Opt.bikeCalories o1);
        [exact (f_equal Opt.bikeCalories E2)
        |exact (f_equal Opt.bikeCalories E1)].
    - transitivity (Opt.carCost o1);
        [exact (f_equal Opt.carCost E2) | exact (f_equal Opt.carCost E1)].
    - transitivity (Opt.trips o1);
        [exact (f_equal Opt.trips E2) | exact (f_equal Opt.trips E1)]. }
  destruct T2 as (Tr2 & Tc2 & Co2 & Em2 & Wc2 & Bc2 & Cc2 & Tp2).
  assert (T3' : Opt.transfers o3 =
                  Some (if has_transit o then (float_of_nat legs - 1)%float
                        else 0%float) /\
                Opt.transitCost o3 = Some transit_cost /\
                Opt.cost o3 = Some base_cost /\
                Opt.emissions o3 =
                  Some (add_times legs (numv (rates !! "co2PerTransitTrip"))
                          0)).
  { unfold transit_cost, base_cost, legs. destruct (has_transit o) eqn:Eh.
    - destruct T3 as (Ta & Tb & Tc & Td & _).
      rewrite Ta, Tb, Tc, (Td _ Em2), Co2, Tb. auto.
    - subst o3. rewrite Tr2, Tc2, Co2, Em2.
      assert (transit_legs o = []) as ->.
      { unfold transit_legs, has_transit in *.
        destruct (Opt.transit o) as [[|? ?]|]; try discriminate; reflexivity. }
      auto. }
  destruct T3' as (Tr3 & Tc3 & Co3 & Em3).
  assert (Wc3 : Opt.walkCalories o3 = Some 0%float)
    by (rewrite <- Wc2; frame).
  assert (Bc4 : Opt.bikeCalories o4 = Some 0%float).
  { rewrite <- Bc2. transitivity (Opt.bikeCalories o3); frame. }
  assert (Cc5 : Opt.carCost o5 = Opt.carCost o).
  { rewrite <- Cc2. transitivity (Opt.carCost o3); [|frame].
    transitivity (Opt.carCost o4); frame. }
  assert (Co5 : Opt.cost o5 = Some base_cost).
  { rewrite <- Co3. transitivity (Opt.cost o4); frame. }
  assert (Em5 : Opt.emissions o5 =
                Some (add_times legs (numv (rates !! "co2PerTransitTrip")) 0)).
  { rewrite <- Em3. transitivity (Opt.emissions o4); frame. }
  assert (W' : Opt.walkCalories o' = Opt.walkCalories o4).
  { transitivity (Opt.walkCalories o6); [frame|].
    transitivity (Opt.walkCalories o5); frame. }
  assert (B' : Opt.bikeCalories o' = Opt.bikeCalories o5).
  { transitivity (Opt.bikeCalories o6); frame. }
  split.
  { rewrite <- Tr3. transitivity (Opt.transfers o6); [frame|].
    transitivity (Opt.transfers o5); [frame|].
    transitivity (Opt.transfers o4); frame. }
  split.
  { rewrite <- Tc3. transitivity (Opt.transitCost o6); [frame|].
    transitivity (Opt.transitCost o5); [frame|].
    transitivity (Opt.transitCost o4); frame. }
  assert (C' : Opt.emissions o' = Opt.emissions o6 /\
               Opt.carCost o' = Opt.carCost o6 /\
               Opt.cost o' = Opt.cost o6).
  { repeat split; frame. }
  destruct C' as (Ce & Cc & Cco).
  assert (Wf : Opt.walkCalories o4 =
               Some (if in_modes "walk" pushed
                     then caloriesBurned WALKING_MET (numv (rates !! "weight"))
                            (num (Opt.walkDistance o3)
                             / numv (rates !! "walkSpeed")
                             * SECONDS_TO_HOURS)%float
                     else 0%float)).
  { rewrite W4. destruct (in_modes "walk" pushed); [reflexivity|exact Wc3]. }
  assert (Bf : Opt.bikeCalories o5 =
               Some (if in_modes "bicycle" pushed
                        || in_modes "bicycle_rent" pushed
                     then caloriesBurned CYCLING_MET (numv (rates !! "weight"))
                            (num (Opt.bikeDistance o4)
                             / numv (rates !! "bikeSpeed")
                             * SECONDS_TO_HOURS)%float
                     else 0%float)).
  { rewrite B5. destruct (_ || _); [reflexivity|exact Bc4]. }
  assert (W6 : Opt.walkCalories o6 = Opt.walkCalories o4) by frame.
  assert (B6 : Opt.bikeCalories o6 = Opt.bikeCalories o5) by frame.
  rewrite Ce, Cc, Cco, Dd, Dw, Db, W', B', K7, W6, B6.
  destruct (in_modes "car" pushed).
  - destruct C6 as (C6a & C6b & C6c). rewrite C6a, C6b, C6c, Co5, C6a.
    auto 10.
  - subst o6. rewrite Em5, Cc5, Co5. auto 10.
Qed.

(** ** Stale annotations *)

Lemma forEachM_commute {A S : Type} (g : S -> S) (f : S -> A -> result S)
  (l : list A) (s : S) :
  (forall s a, f (g s) a = result_map g (f s a)) ->
  forEachM f l (g s) = result_map g (forEachM f l s).
Proof.
  intros Hf. revert s. induction l as [|a l IH]; intros s; simpl.
  - reflexivity.
  - rewrite Hf. destruct (f s a) as [s1|]; simpl; auto.
Qed.

Lemma fold_left_commute {A S : Type} (g : S -> S) (f : S -> A -> S)
  (l : list A) (s : S) :
  (forall s a, f (g s) a = g (f s a)) ->
  fold_left f l (g s) = g (fold_left f l s).
Proof.
  intros Hf. revert s. induction l as [|a l IH]; intros s; simpl.
  - reflexivity.
  - rewrite Hf. apply IH.
Qed.

Lemma addStreetEdges_stamp (c t v : option float) (o : Opt.t)
  (mode : string) (se : option (list StreetEdge.t)) :
  addStreetEdges (stamp c t v o) mode se =
  result_map (stamp c t v) (addStreetEdges o mode se).
Proof.
  unfold addStreetEdges, push_mode. destruct se as [edges|]; [|reflexivity].
  simpl. destruct (Opt.modes o) as [ms|]; [|reflexivity]. simpl.
  destruct (String.eqb mode "car"); [reflexivity|].
  destruct (String.eqb mode "bicycle"); [reflexivity|].
  destruct (String.eqb mode "bicycle_rent"); [reflexivity|].
  destruct (String.eqb mode "walk"); reflexivity.
Qed.

Lemma tally_access_stamp (c t v : option float) (o : Opt.t) :
  tally_access (stamp c t v o) = result_map (stamp c t v) (tally_access o).
Proof.
  unfold tally_access. simpl.
  destruct (Opt.access o) as [[|leg rest]|]; try reflexivity.
  rewrite addStreetEdges_stamp.
  destruct (addStreetEdges o _ _); reflexivity.
Qed.

Lemma tally_egress_stamp (c t v : option float) (o : Opt.t) :
  tally_egress (stamp c t v o) = result_map (stamp c t v) (tally_egress o).
Proof.
  unfold tally_egress. simpl.
  destruct (Opt.egress o) as [[|leg rest]|]; try reflexivity.
  rewrite addStreetEdges_stamp.
  destruct (addStreetEdges o _ _); reflexivity.
Qed.

(** The transit legs read [trips], so only the other two pass through. *)
Lemma tally_segment_stamp (rates : gmap string value) (c v : option float)
  (o : Opt.t) (seg : Segment.t) :
  tally_segment rates (Opt.set_carCost c (Opt.set_score v o)) seg =
  result_map (fun r => Opt.set_carCost c (Opt.set_score v r))
    (tally_segment rates o seg).
Proof.
  unfold tally_segment, push_mode. simpl.
  destruct (Opt.modes o) as [ms|]; [|reflexivity]. simpl.
  destruct (Segment.segmentPatterns seg) as [[|p ps]|]; try reflexivity;
    simpl; destruct (PrimFloat.ltb _ _); reflexivity.
Qed.

Lemma tally_fare_stamp (c v : option float) (o : Opt.t)
  (fare : option Fare.t) :
  tally_fare (Opt.set_carCost c (Opt.set_score v o)) fare =
  Opt.set_carCost c (Opt.set_score v (tally_fare o fare)).
Proof.
  unfold tally_fare. destruct fare as [f|]; [|reflexivity].
  destruct (Fare.peak f) as [p|]; [|reflexivity].
  destruct (truthy_num p); reflexivity.
Qed.

(** With a transit leg the block starts [trips] afresh; without one it
    leaves it alone. *)
Lemma tally_transit_stamp (rates : gmap string value) (c t v : option float)
  (o : Opt.t) :
  tally_transit rates (stamp c t v o) =
  result_map
    (fun r => stamp c (if has_transit o then Opt.trips r else t) v r)
    (tally_transit rates o).
Proof.
  unfold tally_transit, has_transit. simpl.
  destruct (Opt.transit o) as [[|seg segs]|]; try reflexivity.
  cbv zeta.
  set (g := fun r => Opt.set_carCost c (Opt.set_score v r)).
  set (init := Opt.set_trips (Some infinity)
    (Opt.set_transitCost (Some 0%float)
       (Opt.set_transfers
          (Some (float_of_nat (length (seg :: segs)) - 1)%float) o))).
  change (Opt.set_trips (Some infinity)
    (Opt.set_transitCost (Some 0%float)
       (Opt.set_transfers
          (Some (float_of_nat (length (seg :: segs)) - 1)%float)
          (stamp c t v o)))) with (g init).
  rewrite (forEachM_commute g (tally_segment rates) (seg :: segs) init)
    by (intros; apply tally_segment_stamp).
  destruct (forEachM (tally_segment rates) (seg :: segs) init) as [o1|];
    [|reflexivity].
  simpl. unfold g at 1 2 3 4. simpl.
  destruct (Opt.fares o1) as [fares|]; [|reflexivity].
  change (Opt.set_carCost c (Opt.set_score v o1)) with (g o1).
  rewrite (fold_left_commute g tally_fare fares o1)
    by (intros; apply tally_fare_stamp).
  reflexivity.
Qed.

Lemma tally_walkCalories_stamp (rates : gmap string value)
  (c t v : option float) (o : Opt.t) :
  tally_walkCalories rates (stamp c t v o) =
  result_map (stamp c t v) (tally_walkCalories rates o).
Proof.
  unfold tally_walkCalories. simpl.
  destruct (Opt.modes o) as [ms|]; [|reflexivity].
  destruct (negb _); reflexivity.
Qed.

Lemma tally_bikeCalories_stamp (rates : gmap string value)
  (c t v : option float) (o : Opt.t) :
  tally_bikeCalories rates (stamp c t v o) =
  result_map (stamp c t v) (tally_bikeCalories rates o).
Proof.
  unfold tally_bikeCalories. simpl.
  destruct (Opt.modes o) as [ms|]; [|reflexivity].
  destruct (_ || _); reflexivity.
Qed.

(** The car block overwrites [carCost] when there is a car and leaves it
    alone otherwise. *)
Lemma tally_car_stamp (rates : gmap string value) (c t v : option float)
  (o : Opt.t) :
  tally_car rates (stamp c t v o) =
  result_map (fun r => stamp (if has_car r then Opt.carCost r else c) t v r)
    (tally_car rates o).
Proof.
  unfold tally_car, has_car, in_modes. simpl.
  destruct (Opt.modes o) as [ms|] eqn:Hm; [|reflexivity].
  destruct (negb (indexOf ms "car" =? -1)%Z) eqn:E; simpl.
  - rewrite Hm. simpl. rewrite E. reflexivity.
  - rewrite Hm. simpl. rewrite E. reflexivity.
Qed.

Lemma in_modes_unique (m : string) (ms : list string) :
  in_modes m (unique ms) = in_modes m ms.
Proof.
  unfold in_modes. apply eq_true_iff_eq.
  rewrite !indexOf_present. apply unique_elem_of.
Qed.

Lemma tally_finish_stamp (c t v : option float) (o : Opt.t) :
  tally_finish (stamp c t v o) = result_map (stamp c t v) (tally_finish o).
Proof.
  unfold tally_finish. simpl.
  destruct (Opt.modes o) as [ms|]; reflexivity.
Qed.

Lemma tally_finish_has_car (o o' : Opt.t) :
  tally_finish o = Ok o' ->
  has_car o' = has_car o /\ Opt.carCost o' = Opt.carCost o /\
  Opt.trips o' = Opt.trips o.
Proof.
  unfold tally_finish, has_car.
  destruct (Opt.modes o) as [ms|]; [|discriminate].
  intros H; apply Ok_inj in H as <-. simpl.
  rewrite in_modes_unique. auto.
Qed.

(** [tally] on an option whose three unreset annotations are overwritten:
    the same outcome, with [carCost] kept unless there is a car, [trips]
    kept unless there is a transit leg, and [score] kept. *)
Lemma tally_stamp (rates : gmap string value) (c t v : option float)
  (o : Opt.t) :
  tally rates (stamp c t v o) =
  result_map
    (fun r => stamp (if has_car r then Opt.carCost r else c)
                    (if has_transit o then Opt.trips r else t) v r)
    (tally rates o).
Proof.
  unfold tally, tally_body.
  change (tally_defaults (stamp c t v o))
    with (stamp c t v (tally_defaults o)).
  rewrite tally_access_stamp.
  destruct (tally_access (tally_defaults o)) as [o1|] eqn:E1; [|reflexivity].
  cbn [result_map bind]. rewrite tally_egress_stamp.
  destruct (tally_egress o1) as [o2|] eqn:E2; [|reflexivity].
  cbn [result_map bind]. rewrite tally_transit_stamp.
  assert (Hh : has_transit o2 = has_transit o).
  { apply tally_access_Ok in E1 as [E1 _].
    apply tally_egress_Ok in E2 as [E2 _].
    unfold has_transit.
    replace (Opt.transit o2) with (Opt.transit o); [reflexivity|].
    symmetry. transitivity (Opt.transit o1);
      [exact (f_equal Opt.transit E2) | exact (f_equal Opt.transit E1)]. }
  rewrite Hh.
  destruct (tally_transit rates o2) as [o3|] eqn:E3; [|reflexivity].
  cbn [result_map bind]. rewrite tally_walkCalories_stamp.
  destruct (tally_walkCalories rates o3) as [o4|] eqn:E4; [|reflexivity].
  cbn [result_map bind]. rewrite tally_bikeCalories_stamp.
  destruct (tally_bikeCalories rates o4) as [o5|] eqn:E5; [|reflexivity].
  cbn [result_map bind]. rewrite tally_car_stamp.
  destruct (tally_car rates o5) as [o6|] eqn:E6; [|reflexivity].
  cbn [result_map bind]. rewrite tally_finish_stamp.
  destruct (tally_finish o6) as [o7|] eqn:E7; [|reflexivity].
  cbn [result_map bind]. f_equal.
  apply tally_finish_has_car in E7 as (-> & -> & E7).
  apply tally_car_wrote in E6 as (_ & _ & E6 & _).
  apply tally_bikeCalories_Ok in E5 as (_ & _ & E5 & _).
  apply tally_walkCalories_Ok in E4 as (_ & _ & E4 & _).
  assert (Ht : Opt.trips o7 = Opt.trips o3).
  { rewrite E7. transitivity (Opt.trips o5);
      [exact (f_equal Opt.trips E6)|].
    transitivity (Opt.trips o4);
      [exact (f_equal Opt.trips E5) | exact (f_equal Opt.trips E4)]. }
  rewrite Ht. reflexivity.
Qed.

(** ** Times, distances and trips *)

Lemma sum_from_app (x : float) (l1 l2 : list float) :
  sum_from x (l1 ++ l2) = sum_from (sum_from x l1) l2.
Proof. apply fold_left_app. Qed.

Lemma addStreetEdges_distances (o o' : Opt.t) (mode : string)
  (se : option (list StreetEdge.t)) :
  addStreetEdges o mode se = Ok o' ->
  (forall d, Opt.driveDistance o = Some d ->
     Opt.driveDistance o' = Some (sum_from d (edge_adds "car" mode se))) /\
  (forall d, Opt.bikeDistance o = Some d ->
     Opt.bikeDistance o' = Some (sum_from d (edge_adds "bicycle" mode se))) /\
  (forall d, Opt.walkDistance o = Some d ->
     Opt.walkDistance o' = Some (sum_from d (edge_adds "walk" mode se))).
Proof.
  unfold addStreetEdges, push_mode, edge_adds. destruct se as [edges|].
  - destruct (Opt.modes o) as [ms0|]; [|discriminate]. simpl.
    destruct (String.eqb_spec mode "car") as [->|_];
      [|destruct (String.eqb_spec mode "bicycle") as [->|_];
        [|destruct (String.eqb_spec mode "bicycle_rent") as [->|_];
          [|destruct (String.eqb mode "walk")]]];
      simpl; intros H; apply Ok_inj in H as <-; simpl;
      (split; [|split]); intros d ->; reflexivity.
  - intros H; apply Ok_inj in H as <-.
    split; [|split]; intros d ->; reflexivity.
Qed.

Lemma tally_leg_totals (legs : option (list Leg.t)) (o o' : Opt.t) :
  match legs with
  | Some (leg :: _) =>
    let* o := addStreetEdges o (toLowerCase (Leg.mode leg))
                (Leg.streetEdges leg) in
    Ok (o ;> add_time (Leg.time leg))
  | _ => Ok o
  end = Ok o' ->
  (forall t, Opt.time o = Some t ->
     Opt.time o' = Some (sum_from t (leg_times legs))) /\
  (forall d, Opt.driveDistance o = Some d ->
     Opt.driveDistance o' = Some (sum_from d (leg_adds "car" legs))) /\
  (forall d, Opt.bikeDistance o = Some d ->
     Opt.bikeDistance o' = Some (sum_from d (leg_adds "bicycle" legs))) /\
  (forall d, Opt.walkDistance o = Some d ->
     Opt.walkDistance o' = Some (sum_from d (leg_adds "walk" legs))).
Proof.
  unfold leg_times, leg_adds. destruct legs as [[|leg rest]|].
  - intros H; apply Ok_inj in H as <-. repeat split; auto.
  - intros H. inv_bind H. apply Ok_inj in H as <-.
    pose proof (addStreetEdges_distances _ _ _ _ H0) as (Hd & Hb & Hw).
    apply addStreetEdges_Ok in H0 as (_ & Ht & _).
    split; [|split; [|split]].
    + intros t Hto. simpl. rewrite Ht, Hto. reflexivity.
    + exact Hd.
    + exact Hb.
    + exact Hw.
  - intros H; apply Ok_inj in H as <-. repeat split; auto.
Qed.

Lemma tally_segment_totals (rates : gmap string value) (o o' : Opt.t)
  (seg : Segment.t) :
  tally_segment rates o seg = Ok o' ->
  Opt.time o' = Some (num (Opt.time o) + segment_time seg)%float /\
  Opt.timeInTransit o' =
    Some (num (Opt.timeInTransit o) + segment_timeInTransit seg)%float /\
  Opt.walkDistance o' =
    Some (num (Opt.walkDistance o) + Segment.walkDistance seg)%float /\
  (forall t, Opt.trips o = Some t ->
     Opt.trips o' = Some (fewer_trips t seg)).
Proof.
  unfold tally_segment, push_mode, fewer_trips, segment_trips.
  destruct (Opt.modes o) as [ms0|]; [|discriminate]. simpl.
  destruct (Segment.segmentPatterns seg) as [[|p ps]|]; [discriminate| |];
    simpl; destruct (PrimFloat.ltb _ _) eqn:E;
    intros H; apply Ok_inj in H as <-;
    repeat (split; [reflexivity|]);
    intros t Ht; simpl; rewrite Ht in E; simpl in E; rewrite ?E;
    auto.
Qed.

Lemma tally_segments_totals (rates : gmap string value)
  (segs : list Segment.t) (o o' : Opt.t) :
  forEachM (tally_segment rates) segs o = Ok o' ->
  (forall t, Opt.time o = Some t ->
     Opt.time o' = Some (sum_from t (map segment_time segs))) /\
  (forall t, Opt.timeInTransit o = Some t ->
     Opt.timeInTransit o' =
     Some (sum_from t (map segment_timeInTransit segs))) /\
  (forall d, Opt.walkDistance o = Some d ->
     Opt.walkDistance o' =
     Some (sum_from d (map Segment.walkDistance segs))) /\
  (forall t, Opt.trips o = Some t ->
     Opt.trips o' = Some (fold_left fewer_trips segs t)).
Proof.
  revert o. induction segs as [|seg segs IH]; intros o; simpl.
  - intros H; apply Ok_inj in H as <-. repeat split; auto.
  - intros H. inv_bind H.
    apply tally_segment_totals in H0 as (Ht & Hi & Hw & Hp).
    apply IH in H as (Ht' & Hi' & Hw' & Hp').
    split; [|split; [|split]].
    + intros t E. rewrite (Ht' _ Ht), E. reflexivity.
    + intros t E. rewrite (Hi' _ Hi), E. reflexivity.
    + intros d E. rewrite (Hw' _ Hw), E. reflexivity.
    + intros t E. rewrite (Hp' _ (Hp _ E)). reflexivity.
Qed.

Lemma tally_fares_frame (fares : list (option Fare.t)) (o : Opt.t) :
  let o' := match Opt.fares o with
            | Some fares => fold_left tally_fare fares o
            | None => o
            end in
  Opt.set_transitCost None o' = Opt.set_transitCost None o.
Proof.
  simpl. destruct (Opt.fares o) as [fs|]; [|reflexivity].
  apply tally_fares_fold.
Qed.

Lemma tally_transit_totals (rates : gmap string value) (o o' : Opt.t) :
  tally_transit rates o = Ok o' ->
  (forall t, Opt.time o = Some t ->
     Opt.time o' = Some (sum_from t (map segment_time (transit_legs o)))) /\
  (forall t, Opt.timeInTransit o = Some t ->
     Opt.timeInTransit o' =
     Some (sum_from t (map segment_timeInTransit (transit_legs o)))) /\
  (forall d, Opt.walkDistance o = Some d ->
     Opt.walkDistance o' =
     Some (sum_from d (map Segment.walkDistance (transit_legs o)))) /\
  Opt.trips o' =
    (if has_transit o
     then Some (fold_left fewer_trips (transit_legs o) infinity)
     else Opt.trips o).
Proof.
  unfold tally_transit, transit_legs, has_transit.
  destruct (Opt.transit o) as [[|seg segs]|].
  - intros H; apply Ok_inj in H as <-. repeat split; auto.
  - cbv zeta. intros H. inv_bind H. rename o0 into o1.
    apply Ok_inj in H as <-.
    apply tally_segments_totals in H0 as (Ht & Hi & Hw & Hp).
    pose proof (tally_fares_frame [] o1) as F. cbv zeta in F.
    set (o2 := match Opt.fares o1 with
               | Some fares => fold_left tally_fare fares o1
               | None => o1
               end) in *.
    simpl default.
    split; [|split; [|split]].
    + intros t E. rewrite <- (Ht t E). exact (f_equal Opt.time F).
    + intros t E. rewrite <- (Hi t E). exact (f_equal Opt.timeInTransit F).
    + intros d E. rewrite <- (Hw d E). exact (f_equal Opt.walkDistance F).
    + rewrite <- (Hp infinity eq_refl). exact (f_equal Opt.trips F).
  - intros H; apply Ok_inj in H as <-. repeat split; auto.
Qed.

(** The totals [tally] leaves: the first access and the first egress
    alternative, then the transit legs in order. *)
Lemma tally_totals (rates : gmap string value) (o o' : Opt.t) :
  tally rates o = Ok o' ->
  let legs := transit_legs o in
  Opt.time o' =
    Some (sum_from 0 (leg_times (Opt.access o) ++ leg_times (Opt.egress o)
                      ++ map segment_time legs)) /\
  Opt.timeInTransit o' = Some (sum_from 0 (map segment_timeInTransit legs)) /\
  Opt.driveDistance o' =
    Some (sum_from 0 (leg_adds "car" (Opt.access o)
                      ++ leg_adds "car" (Opt.egress o))) /\
  Opt.bikeDistance o' =
    Some (sum_from 0 (leg_adds "bicycle" (Opt.access o)
                      ++ leg_adds "bicycle" (Opt.egress o))) /\
  Opt.walkDistance o' =
    Some (sum_from 0 (leg_adds "walk" (Opt.access o)
                      ++ leg_adds "walk" (Opt.egress o)
                      ++ map Segment.walkDistance legs)) /\
  Opt.trips o' =
    (if has_transit o then Some (fold_left fewer_trips legs infinity)
     else Opt.trips o).
Proof.
  intros H legs.
  apply tally_stages in H
    as (o1 & o2 & o3 & o4 & o5 & o6 & H1 & H2 & H3 & H4 & H5 & H6 & H7).
  pose proof (tally_leg_totals (Opt.access o) (tally_defaults o) o1 H1)
    as (At & Ad & Ab & Aw).
  pose proof (tally_access_Ok _ _ H1) as [E1 _].
  assert (He1 : Opt.egress o1 = Opt.egress o)
    by exact (f_equal Opt.egress E1).
  unfold tally_egress in H2.
  pose proof (tally_leg_totals (Opt.egress o1) o1 o2 H2)
    as (Bt & Bd & Bb & Bw).
  fold (tally_egress o1) in H2.
  pose proof (tally_egress_Ok _ _ H2) as [E2 _].
  rewrite He1 in Bt, Bd, Bb, Bw.
  assert (Ht2 : Opt.transit o2 = Opt.transit o).
  { transitivity (Opt.transit o1);
      [exact (f_equal Opt.transit E2) | exact (f_equal Opt.transit E1)]. }
  pose proof (tally_transit_totals _ _ _ H3) as (Tt & Ti & Tw & Tp).
  unfold has_transit, transit_legs in Tt, Ti, Tw, Tp. rewrite Ht2 in *.
  fold (transit_legs o) in Tt, Ti, Tw, Tp. fold (has_transit o) in Tp.
  fold legs in Tt, Ti, Tw, Tp.
  apply tally_transit_Ok in H3 as (_ & E3 & _).
  apply tally_walkCalories_Ok in H4 as (_ & _ & E4 & _).
  apply tally_bikeCalories_Ok in H5 as (_ & _ & E5 & _).
  apply tally_car_wrote in H6 as (_ & _ & E6 & _).
  apply tally_finish_wrote in H7 as (_ & _ & E7 & _).
  assert (F : Opt.time o' = Opt.time o3 /\
              Opt.timeInTransit o' = Opt.timeInTransit o3 /\
              Opt.driveDistance o' = Opt.driveDistance o3 /\
              Opt.bikeDistance o' = Opt.bikeDistance o3 /\
              Opt.walkDistance o' = Opt.walkDistance o3 /\
              Opt.trips o' = Opt.trips o3).
  { repeat split; frame. }
  destruct F as (-> & -> & -> & -> & -> & ->).
  assert (G : Opt.timeInTransit o2 = Some 0%float /\
              Opt.driveDistance o3 = Opt.driveDistance o2 /\
              Opt.bikeDistance o3 = Opt.bikeDistance o2 /\
              Opt.trips o2 = Opt.trips o).
  { split; [|split; [|split]].
    - transitivity (Opt.timeInTransit o1);
        [exact (f_equal Opt.timeInTransit E2)
        |exact (f_equal Opt.timeInTransit E1)].
    - exact (f_equal Opt.driveDistance E3).
    - exact (f_equal Opt.bikeDistance E3).
    - transitivity (Opt.trips o1);
        [exact (f_equal Opt.trips E2) | exact (f_equal Opt.trips E1)]. }
  destruct G as (Gi & -> & -> & Gp).
  rewrite (Tt _ (Bt _ (At _ eq_refl))), (Ti _ Gi),
    (Bd _ (Ad _ eq_refl)), (Bb _ (Ab _ eq_refl)),
    (Tw _ (Bw _ (Aw _ eq_refl))), Tp, Gp.
  rewrite !sum_from_app. auto 10.
Qed.

(** ** [tally] as a whole *)

Lemma has_transit_false_legs (o : Opt.t) :
  has_transit o = false -> transit_legs o = [].
Proof.
  unfold has_transit, transit_legs.
  destruct (Opt.transit o) as [[|? ?]|]; try discriminate; reflexivity.
Qed.

Lemma in_modes_elem_of (m : string) (ms : list string) :
  in_modes m ms = true <-> m ∈ ms.
Proof. apply indexOf_present. Qed.

Lemma in_modes_false (m : string) (ms : list string) :
  m ∉ ms -> in_modes m ms = false.
Proof.
  intros H. destruct (in_modes m ms) eqn:E; [|reflexivity].
  apply in_modes_elem_of in E. contradiction.
Qed.

Lemma not_in_modes (m : string) (ms : list string) :
  in_modes m ms = false -> m ∉ ms.
Proof.
  intros H Hin. apply in_modes_elem_of in Hin. congruence.
Qed.

Lemma unreadable_leg_not_ok (o : Opt.t) :
  Exists (fun s => Segment.segmentPatterns s = Some []) (transit_legs o) ->
  ~ transit_ok o.
Proof.
  intros Hex Hok. apply Exists_exists in Hex as (s & Hs & Hbad).
  unfold transit_ok in Hok. fold (transit_legs o) in Hok.
  rewrite Forall_forall in Hok. exact (Hok s Hs Hbad).
Qed.

(** X1: [tally] throws when one of the transit legs has a
    [segmentPatterns] array that is there and empty: the first pattern
    of that leg cannot be read.  Where the leg stands among the transit
    legs and what else the option holds make no difference. *)
Theorem tally_throws_on_empty_patterns (rates : gmap string value)
  (o : Opt.t) :
  Exists (fun s => Segment.segmentPatterns s = Some []) (transit_legs o) ->
  tally rates o = TypeError.
Proof.
  intros Hex. destruct (tally rates o) as [o'|] eqn:Ho; [|reflexivity].
  exfalso. apply tally_summary in Ho as (Hok & _).
  exact (unreadable_leg_not_ok o Hex Hok).
Qed.

Lemma tally_throws_on_empty_patterns_witness :
  tally DEFAULT_RATES_init unreadable_option = TypeError.
Proof.
  apply (tally_throws_on_empty_patterns DEFAULT_RATES_init unreadable_option).
  apply Exists_cons_hd. reflexivity.
Defined.

(** X2: the modes [tally] leaves are the de-duplicated list of: what the
    first access alternative pushes (its lower-cased mode when it has
    street edges, and ['walk'] after ['bicycle_rent']), then the same for
    the first egress alternative, then the lower-cased mode of every
    transit leg. *)
Theorem tally_modes_pushed (rates : gmap string value) (o o' : Opt.t) :
  tally rates o = Ok o' ->
  Opt.modes o' =
    Some (unique (leg_modes (Opt.access o) ++ leg_modes (Opt.egress o)
                  ++ transit_modes o)).
Proof. intros H. apply tally_summary in H. apply H. Qed.

Lemma tally_modes_pushed_witness :
  exists o',
    tally DEFAULT_RATES_init car_and_transit = Ok o' /\
    Opt.modes o' = Some ["car"; "walk"; "subway"; "bus"].
Proof.
  destruct (returns_with (tally DEFAULT_RATES_init car_and_transit)
              (fun _ => True)) as (o' & Ho & _).
  { vm_compute. exact I. }
  exists o'. split; [exact Ho|].
  rewrite (tally_modes_pushed DEFAULT_RATES_init car_and_transit o' Ho).
  reflexivity.
Defined.

(** X3: without a transit leg (the [transit] array absent or empty) the
    transit block is skipped: no transfers, no transit cost whatever
    [fares] holds, no time in transit, [trips] as it came in; and unless
    a street leg brought a car, no cost and no emissions. *)
Theorem tally_without_transit (rates : gmap string value) (o o' : Opt.t) :
  tally rates o = Ok o' ->
  Opt.transit o = None \/ Opt.transit o = Some [] ->
  Opt.transfers o' = Some 0%float /\
  Opt.transitCost o' = Some 0%float /\
  Opt.timeInTransit o' = Some 0%float /\
  Opt.trips o' = Opt.trips o /\
  ("car" ∉ leg_modes (Opt.access o) ++ leg_modes (Opt.egress o) ->
   Opt.cost o' = Some 0%float /\ Opt.emissions o' = Some 0%float).
Proof.
  intros H Hno.
  assert (Hh : has_transit o = false)
    by (unfold has_transit; destruct Hno as [-> | ->]; reflexivity).
  pose proof (has_transit_false_legs o Hh) as Hl.
  pose proof (tally_totals _ _ _ H) as (_ & Ti & _ & _ & _ & Tp).
  apply tally_summary in H
    as (_ & _ & _ & _ & Tr & Tc & Em & _ & Co & _).
  rewrite Hh in *. rewrite Hl in *.
  repeat (split; [assumption|]).
  intros Hcar.
  assert (Hc : in_modes "car" (pushed_modes o) = false).
  { apply in_modes_false. unfold pushed_modes, transit_modes.
    rewrite Hl, app_assoc, app_nil_r. exact Hcar. }
  rewrite Hc in *. split; assumption.
Qed.

Lemma tally_without_transit_witness :
  exists o',
    tally DEFAULT_RATES_init fares_without_transit = Ok o' /\
    Opt.transitCost o' = Some 0%float /\ Opt.cost o' = Some 0%float.
Proof.
  destruct (returns_with (tally DEFAULT_RATES_init fares_without_transit)
              (fun _ => True)) as (o' & Ho & _).
  { vm_compute. exact I. }
  exists o'. split; [exact Ho|].
  destruct (tally_without_transit DEFAULT_RATES_init fares_without_transit
              o' Ho) as (_ & Hc & _ & _ & Hcar).
  { right. reflexivity. }
  split; [exact Hc|]. apply Hcar.
  apply not_in_modes. reflexivity.
Defined.

(** X4: the transit cost is the sum, in order and from 0, of the peak
    fares that are there and truthy, counted only when there is a transit
    leg; and the cost is that transit cost added to 0, plus the car cost
    when a car is among the modes pushed. *)
Theorem tally_costs (rates : gmap string value) (o o' : Opt.t) :
  tally rates o = Ok o' ->
  Opt.transitCost o' =
    Some (if has_transit o
          then sum_from 0 (counted_peaks (default [] (Opt.fares o)))
          else 0%float) /\
  Opt.cost o' =
    Some (let fares :=
            if has_transit o then (0 + num (Opt.transitCost o'))%float
            else 0%float in
          if in_modes "car" (pushed_modes o)
          then (fares + num (Opt.carCost o'))%float
          else fares).
Proof.
  intros H. apply tally_summary in H
    as (_ & _ & _ & _ & _ & Tc & _ & _ & Co & _).
  split; [exact Tc|]. rewrite Co, Tc. cbv zeta. simpl num.
  destruct (has_transit o); reflexivity.
Qed.

Lemma tally_costs_witness :
  exists o',
    tally DEFAULT_RATES_init car_and_transit = Ok o' /\
    Opt.transitCost o' = Some 2.5%float /\
    Opt.cost o' = Some (0 + 2.5 + num (Opt.carCost o'))%float.
Proof.
  destruct (returns_with (tally DEFAULT_RATES_init car_and_transit)
              (fun _ => True)) as (o' & Ho & _).
  { vm_compute. exact I. }
  exists o'. split; [exact Ho|].
  destruct (tally_costs DEFAULT_RATES_init car_and_transit o' Ho)
    as [Ht Hc].
  split; [exact Ht|]. rewrite Hc, Ht. reflexivity.
Defined.

(** X5: when no car is among the modes pushed, the emissions are
    [rates.co2PerTransitTrip] added to 0 once for every transit leg. *)
Theorem tally_emissions_without_car (rates : gmap string value)
  (o o' : Opt.t) :
  tally rates o = Ok o' ->
  "car" ∉ pushed_modes o ->
  Opt.emissions o' =
    Some (add_times (length (transit_legs o))
            (numv (rates !! "co2PerTransitTrip")) 0).
Proof.
  intros H Hcar. apply tally_summary in H
    as (_ & _ & _ & _ & _ & _ & Em & _).
  rewrite (in_modes_false _ _ Hcar) in Em. exact Em.
Qed.

Lemma tally_emissions_without_car_witness :
  exists o',
    tally DEFAULT_RATES_init walk_bus_subway_bus = Ok o' /\
    Opt.emissions o' =
      Some (0 + CO2_PER_TRANSIT_TRIP + CO2_PER_TRANSIT_TRIP
            + CO2_PER_TRANSIT_TRIP)%float.
Proof.
  destruct (returns_with (tally DEFAULT_RATES_init walk_bus_subway_bus)
              (fun _ => True)) as (o' & Ho & _).
  { vm_compute. exact I. }
  exists o'. split; [exact Ho|].
  rewrite (tally_emissions_without_car DEFAULT_RATES_init
             walk_bus_subway_bus o' Ho).
  - vm_compute. reflexivity.
  - apply not_in_modes. reflexivity.
Defined.

(** X6: the walking calories [tally] leaves are 0 unless ['walk'] is
    among the modes, and then they are the burn of the walk distance at
    the walk speed; the cycling calories are 0 unless ['bicycle'] or
    ['bicycle_rent'] is among the modes, and then they are the burn of
    the bike distance; [calories] is cycling plus walking. *)
Theorem tally_calories (rates : gmap string value) (o o' : Opt.t) :
  tally rates o = Ok o' ->
  exists ms,
    Opt.modes o' = Some ms /\
    Opt.walkCalories o' =
      Some (if in_modes "walk" ms
            then caloriesBurned WALKING_MET (numv (rates !! "weight"))
                   (num (Opt.walkDistance o') / numv (rates !! "walkSpeed")
                    * SECONDS_TO_HOURS)%float
            else 0%float) /\
    Opt.bikeCalories o' =
      Some (if in_modes "bicycle" ms || in_modes "bicycle_rent" ms
            then caloriesBurned CYCLING_MET (numv (rates !! "weight"))
                   (num (Opt.bikeDistance o') / numv (rates !! "bikeSpeed")
                    * SECONDS_TO_HOURS)%float
            else 0%float) /\
    Opt.calories o' =
      Some (num (Opt.bikeCalories o') + num (Opt.walkCalories o'))%float.
Proof.
  intros H. apply tally_summary in H
    as (_ & _ & _ & Hm & _ & _ & _ & _ & _ & Hw & Hb & Hc).
  eexists. split; [exact Hm|]. rewrite !in_modes_unique. auto.
Qed.

Lemma tally_calories_witness :
  exists o',
    tally DEFAULT_RATES_init car_and_transit = Ok o' /\
    Opt.bikeCalories o' = Some 0%float /\
    Opt.calories o' = Some (0 + num (Opt.walkCalories o'))%float.
Proof.
  destruct (returns_with (tally DEFAULT_RATES_init car_and_transit)
              (fun _ => True)) as (o' & Ho & _).
  { vm_compute. exact I. }
  exists o'. split; [exact Ho|].
  destruct (tally_calories DEFAULT_RATES_init car_and_transit o' Ho)
    as (ms & Hm & _ & Hb & Hc).
  assert (Hms : ms = ["car"; "walk"; "subway"; "bus"]).
  { revert Hm. generalize Ho. vm_compute. intros [= <-] [= <-]. reflexivity. }
  subst ms.
  split; [exact Hb|]. rewrite Hc, Hb. reflexivity.
Defined.

(** X7: the time [tally] leaves is the sum, from 0 and in this order, of
    the time of the first access alternative, the time of the first
    egress alternative and, for every transit leg, its walk time plus its
    waiting and riding time; the time in transit is the sum of the
    waiting and riding times.  The other access and egress alternatives
    count for nothing. *)
Theorem tally_times (rates : gmap string value) (o o' : Opt.t) :
  tally rates o = Ok o' ->
  Opt.time o' =
    Some (sum_from 0 (leg_times (Opt.access o) ++ leg_times (Opt.egress o)
                      ++ map segment_time (transit_legs o))) /\
  Opt.timeInTransit o' =
    Some (sum_from 0 (map segment_timeInTransit (transit_legs o))).
Proof.
  intros H. apply tally_totals in H as (Ht & Hi & _). auto.
Qed.

Lemma tally_times_witness :
  exists o',
    tally DEFAULT_RATES_init car_and_transit = Ok o' /\
    Opt.time o' =
      Some (0 + 600 + 240 + (60 + (180 + 900)) + (120 + (300 + 600)))%float /\
    Opt.timeInTransit o' = Some (0 + (180 + 900) + (300 + 600))%float.
Proof.
  destruct (returns_with (tally DEFAULT_RATES_init car_and_transit)
              (fun _ => True)) as (o' & Ho & _).
  { vm_compute. exact I. }
  exists o'. split; [exact Ho|].
  destruct (tally_times DEFAULT_RATES_init car_and_transit o' Ho)
    as [Ht Hi].
  rewrite Ht, Hi. split; reflexivity.
Defined.

(** X8: the distances [tally] leaves, each a sum from 0: the drive
    distance is what the first access and the first egress alternative
    add when their mode is ['car']; the bike distance what they add when
    it is ['bicycle'] or ['bicycle_rent']; the walk distance what they
    add when it is ['walk'] or ['bicycle_rent'], and then the walk
    distance of every transit leg.  A street leg of any other mode adds
    no distance. *)
Theorem tally_distances (rates : gmap string value) (o o' : Opt.t) :
  tally rates o = Ok o' ->
  Opt.driveDistance o' =
    Some (sum_from 0 (leg_adds "car" (Opt.access o)
                      ++ leg_adds "car" (Opt.egress o))) /\
  Opt.bikeDistance o' =
    Some (sum_from 0 (leg_adds "bicycle" (Opt.access o)
                      ++ leg_adds "bicycle" (Opt.egress o))) /\
  Opt.walkDistance o' =
    Some (sum_from 0 (leg_adds "walk" (Opt.access o)
                      ++ leg_adds "walk" (Opt.egress o)
                      ++ map Segment.walkDistance (transit_legs o))).
Proof.
  intros H. apply tally_totals in H as (_ & _ & Hd & Hb & Hw & _). auto.
Qed.

Lemma tally_distances_witness :
  exists o',
    tally DEFAULT_RATES_init car_and_transit = Ok o' /\
    Opt.driveDistance o' = Some (0 + (0 + 8000))%float /\
    Opt.bikeDistance o' = Some 0%float /\
    Opt.walkDistance o' = Some (0 + (0 + 300) + 80 + 150)%float.
Proof.
  destruct (returns_with (tally DEFAULT_RATES_init car_and_transit)
              (fun _ => True)) as (o' & Ho & _).
  { vm_compute. exact I. }
  exists o'. split; [exact Ho|].
  destruct (tally_distances DEFAULT_RATES_init car_and_transit o' Ho)
    as (Hd & Hb & Hw).
  rewrite Hd, Hb, Hw. repeat split; reflexivity.
Defined.

(** ** Trips *)

Lemma ltb_not_nan_l (x y : float) :
  PrimFloat.ltb x y = true -> PrimFloat.is_nan x = false.
Proof.
  intros H. destruct (PrimFloat.is_nan x) eqn:E; [|reflexivity].
  apply is_nan_true in E. rewrite FloatAxioms.ltb_spec, E in H. discriminate H.
Qed.

Lemma leb_refl (x : float) :
  PrimFloat.is_nan x = false -> PrimFloat.leb x x = true.
Proof. intros H. rewrite (leb_key x x H H). apply Z.leb_refl. Qed.

Lemma leb_trans (x y z : float) :
  PrimFloat.is_nan x = false -> PrimFloat.is_nan y = false ->
  PrimFloat.is_nan z = false ->
  PrimFloat.leb x y = true -> PrimFloat.leb y z = true ->
  PrimFloat.leb x z = true.
Proof.
  intros Hx Hy Hz. rewrite (leb_key x y Hx Hy), (leb_key y z Hy Hz),
    (leb_key x z Hx Hz). rewrite !Z.leb_le. lia.
Qed.

(** One comparison: the smaller of the two stays, and a NaN never gets
    in. *)
Lemma fewer_trips_spec (t : float) (s : Segment.t) :
  PrimFloat.is_nan t = false ->
  PrimFloat.is_nan (fewer_trips t s) = false /\
  PrimFloat.leb (fewer_trips t s) t = true /\
  (PrimFloat.is_nan (segment_trips s) = false ->
   PrimFloat.leb (fewer_trips t s) (segment_trips s) = true) /\
  (fewer_trips t s = t \/ fewer_trips t s = segment_trips s).
Proof.
  intros Ht. unfold fewer_trips.
  destruct (PrimFloat.ltb (segment_trips s) t) eqn:E.
  - pose proof (ltb_not_nan_l _ _ E) as Hx.
    split; [exact Hx|]. split.
    + rewrite (ltb_key _ _ Hx Ht) in E. rewrite (leb_key _ _ Hx Ht).
      apply Z.ltb_lt in E. apply Z.leb_le. lia.
    + split; [intros _; apply leb_refl; exact Hx | right; reflexivity].
  - split; [exact Ht|]. split; [apply leb_refl; exact Ht|].
    split; [|left; reflexivity].
    intros Hx. rewrite (ltb_key _ _ Hx Ht) in E. rewrite (leb_key _ _ Ht Hx).
    apply Z.ltb_ge in E. apply Z.leb_le. exact E.
Qed.

Lemma fewer_trips_fold (legs : list Segment.t) (t : float) :
  PrimFloat.is_nan t = false ->
  let t' := fold_left fewer_trips legs t in
  PrimFloat.is_nan t' = false /\
  PrimFloat.leb t' t = true /\
  (forall s, s ∈ legs -> PrimFloat.is_nan (segment_trips s) = false ->
     PrimFloat.leb t' (segment_trips s) = true) /\
  (t' = t \/ exists s, s ∈ legs /\ t' = segment_trips s).
Proof.
  revert t. induction legs as [|s legs IH]; intros t Ht; simpl.
  - split; [exact Ht|]. split; [apply leb_refl; exact Ht|].
    split; [intros s Hs; inversion Hs | left; reflexivity].
  - destruct (fewer_trips_spec t s Ht) as (H1 & H2 & H3 & H4).
    destruct (IH _ H1) as (I1 & I2 & I3 & I4).
    split; [exact I1|]. split.
    { exact (leb_trans _ _ _ I1 H1 Ht I2 H2). }
    split.
    + intros s' Hs' Hn. apply elem_of_cons in Hs' as [->|Hs'].
      * exact (leb_trans _ _ _ I1 H1 Hn I2 (H3 Hn)).
      * exact (I3 s' Hs' Hn).
    + destruct I4 as [I4|(s' & Hs' & I4)].
      * rewrite I4. destruct H4 as [H4|H4]; [left; exact H4|].
        right. exists s. split; [apply list_elem_of_here | exact H4].
      * right. exists s'. split; [apply list_elem_of_further; exact Hs'|].
        exact I4.
Qed.

(** X9: with at least one transit leg, the transfers are the number of
    transit legs minus one, and [trips] starts from infinity whatever it
    was before and ends as a number: one that no leg's trips is below (a
    leg without patterns counting as 0 trips, a NaN never taken), and
    that is the trips of one of the legs unless it is still infinity. *)
Theorem tally_with_transit (rates : gmap string value) (o o' : Opt.t)
  (seg : Segment.t) (segs : list Segment.t) :
  tally rates o = Ok o' ->
  Opt.transit o = Some (seg :: segs) ->
  Opt.transfers o' = Some (float_of_nat (length (seg :: segs)) - 1)%float /\
  exists t,
    Opt.trips o' = Some t /\
    PrimFloat.is_nan t = false /\
    (forall s, s ∈ seg :: segs -> PrimFloat.is_nan (segment_trips s) = false ->
       PrimFloat.leb t (segment_trips s) = true) /\
    (t = infinity \/ exists s, s ∈ seg :: segs /\ t = segment_trips s).
Proof.
  intros H Htr.
  pose proof (tally_totals _ _ _ H) as (_ & _ & _ & _ & _ & Hp).
  apply tally_summary in H as (_ & _ & _ & _ & Ht & _).
  unfold has_transit, transit_legs in Hp, Ht. rewrite Htr in Hp, Ht.
  simpl default in Hp, Ht.
  split; [exact Ht|].
  destruct (fewer_trips_fold (seg :: segs) infinity eq_refl)
    as (H1 & _ & H3 & H4).
  eexists. split; [exact Hp|]. split; [exact H1|]. split; assumption.
Qed.

Lemma tally_with_transit_witness :
  exists o',
    tally DEFAULT_RATES_init scenario_B = Ok o' /\
    Opt.transfers o' = Some 0%float /\
    Opt.trips o' = Some 6%float.
Proof.
  destruct (returns_with (tally DEFAULT_RATES_init scenario_B)
              (fun _ => True)) as (o' & Ho & _).
  { vm_compute. exact I. }
  exists o'. split; [exact Ho|].
  destruct (tally_with_transit DEFAULT_RATES_init scenario_B o' _ _ Ho
              eq_refl)
    as (Htr & t & Ht & _ & _ & [Hinf|(s & Hs & Hts)]).
  - exfalso. subst t. revert Ht. generalize Ho. vm_compute.
    intros [= <-]. discriminate.
  - split; [rewrite Htr; reflexivity|].
    apply list_elem_of_singleton in Hs. subst s. rewrite Ht, Hts.
    reflexivity.
Defined.

(** ** Running [tally] again *)

Lemma tally_defaults_stamp (o1 o2 : Opt.t) :
  raw_of o1 = raw_of o2 ->
  tally_defaults o1 =
  tally_defaults (stamp (Opt.carCost o1) (Opt.trips o1) (Opt.score o1) o2).
Proof.
  unfold raw_of. intros H.
  assert (Ha : Opt.access o1 = Opt.access o2) by congruence.
  assert (He : Opt.egress o1 = Opt.egress o2) by congruence.
  assert (Ht : Opt.transit o1 = Opt.transit o2) by congruence.
  assert (Hf : Opt.fares o1 = Opt.fares o2) by congruence.
  unfold tally_defaults, stamp.
  change (Opt.mk (Opt.access o1) (Opt.egress o1) (Opt.transit o1)
            (Opt.fares o1) (Some 0%float) (Some 0%float) (Some 0%float)
            (Some 0%float) (Some []) (Some 0%float) (Some 0%float)
            (Some 0%float) (Some 0%float) (Some 0%float) (Some 0%float)
            (Some 0%float) (Some 0%float) (Opt.carCost o1) (Opt.trips o1)
            (Opt.score o1) =
          Opt.mk (Opt.access o2) (Opt.egress o2) (Opt.transit o2)
            (Opt.fares o2) (Some 0%float) (Some 0%float) (Some 0%float)
            (Some 0%float) (Some []) (Some 0%float) (Some 0%float)
            (Some 0%float) (Some 0%float) (Some 0%float) (Some 0%float)
            (Some 0%float) (Some 0%float) (Opt.carCost o1) (Opt.trips o1)
            (Opt.score o1)).
  rewrite Ha, He, Ht, Hf. reflexivity.
Qed.

Lemma tally_stamped (rates : gmap string value) (o1 o2 : Opt.t) :
  raw_of o1 = raw_of o2 ->
  tally rates o1 =
  tally rates (stamp (Opt.carCost o1) (Opt.trips o1) (Opt.score o1) o2).
Proof.
  intros H. unfold tally, tally_body. cbv zeta.
  rewrite (tally_defaults_stamp o1 o2 H). reflexivity.
Qed.

Lemma tally_again (rates : gmap string value) (o o' : Opt.t) :
  tally rates o = Ok o' -> tally rates o' = Ok o'.
Proof.
  intros H. pose proof (tally_summary _ _ _ H) as (_ & Hraw & _).
  rewrite (tally_stamped rates o' o Hraw), tally_stamp, H.
  cbn [result_map]. f_equal.
  destruct (has_car o'), (has_transit o); reflexivity.
Qed.

(** X10: what [tally] returns depends on the option's [access],
    [egress], [transit] and [fares] and on the three annotations it never
    resets ([carCost], [trips] and [score]), and on nothing else: every
    other annotation an option carries from an earlier run is
    overwritten. *)
Theorem tally_ignores_stale (rates : gmap string value) (o1 o2 : Opt.t) :
  raw_of o1 = raw_of o2 ->
  Opt.carCost o1 = Opt.carCost o2 ->
  Opt.trips o1 = Opt.trips o2 ->
  Opt.score o1 = Opt.score o2 ->
  tally rates o1 = tally rates o2.
Proof.
  intros Hraw Hc Ht Hs. rewrite (tally_stamped rates o1 o2 Hraw).
  rewrite Hc, Ht, Hs. reflexivity.
Qed.

Lemma tally_ignores_stale_witness :
  tally DEFAULT_RATES_init stale_scenario_A =
  tally DEFAULT_RATES_init scenario_A.
Proof.
  apply (tally_ignores_stale DEFAULT_RATES_init stale_scenario_A scenario_A);
    reflexivity.
Defined.

(** X11: [tally] on an option it has returned returns the same option
    again: a second run changes nothing. *)
Theorem tally_idempotent (rates : gmap string value) (o o' : Opt.t) :
  tally rates o = Ok o' -> tally rates o' = Ok o'.
Proof.
  intros H. pose proof (tally_summary _ _ _ H) as (_ & Hraw & _).
  (* [o'] is [o] with the annotations of [o'] written over it *)
  rewrite (tally_stamped rates o' o Hraw), tally_stamp, H.
  cbn [result_map]. f_equal.
  destruct (has_car o'), (has_transit o); reflexivity.
Qed.

Lemma tally_idempotent_witness :
  exists o',
    tally DEFAULT_RATES_init car_and_transit = Ok o' /\
    tally DEFAULT_RATES_init o' = Ok o'.
Proof.
  destruct (returns_with (tally DEFAULT_RATES_init car_and_transit)
              (fun _ => True)) as (o' & Ho & _).
  { vm_compute. exact I. }
  exists o'. split; [exact Ho|].
  exact (tally_idempotent DEFAULT_RATES_init car_and_transit o' Ho).
Defined.

(** ** [processOption] and [processOptions] *)

Lemma processOption_Ok (h : Heap) (this : ProfileScore) (o o' : Opt.t) :
  processOption h this o = Ok o' ->
  exists o1 s,
    tally (deref h (rates this)) o = Ok o1 /\
    score (deref h (factors this)) o1 = Ok s /\
    o' = Opt.set_score (Some s) o1.
Proof.
  unfold processOption. intros H.
  destruct (tally _ o) as [o1|] eqn:E1; [|discriminate]. simpl in H.
  destruct (score _ o1) as [s|] eqn:E2; [|discriminate]. simpl in H.
  apply Ok_inj in H. exists o1, s. auto.
Qed.

Lemma score_stamp (factors : gmap string value) (c t v : option float)
  (o : Opt.t) :
  score factors (stamp c t v o) = score factors o.
Proof. reflexivity. Qed.

Lemma processOption_again (h : Heap) (this : ProfileScore) (o o' : Opt.t) :
  processOption h this o = Ok o' -> processOption h this o' = Ok o'.
Proof.
  intros H. apply processOption_Ok in H as (o1 & s & Ht & Hs & ->).
  unfold processOption.
  change (Opt.set_score (Some s) o1)
    with (stamp (Opt.carCost o1) (Opt.trips o1) (Some s) o1) at 1.
  rewrite tally_stamp, (tally_again _ _ _ Ht). cbn [result_map bind].
  rewrite score_stamp, Hs. cbn [bind]. f_equal.
  destruct (has_car o1), (has_transit o1); reflexivity.
Qed.

Lemma processOption_raw (h : Heap) (this : ProfileScore) (o o' : Opt.t) :
  processOption h this o = Ok o' ->
  raw_of o' = raw_of o /\ is_Some (Opt.score o').
Proof.
  intros H. apply processOption_Ok in H as (o1 & s & Ht & Hs & ->).
  apply tally_summary in Ht as (_ & Hraw & _).
  split; [exact Hraw | eexists; reflexivity].
Qed.

Lemma processOption_throws (h : Heap) (this : ProfileScore) (o : Opt.t) :
  ~ transit_ok o -> processOption h this o = TypeError.
Proof.
  intros Hno. destruct (processOption h this o) as [o'|] eqn:E;
    [|reflexivity].
  exfalso. apply Hno.
  apply processOption_Ok in E as (o1 & _ & Ht & _).
  apply tally_summary in Ht. apply Ht.
Qed.

Lemma mapM_Forall2 {A B : Type} (g : A -> result B) (l : list A)
  (r : list B) :
  mapM g l = Ok r <-> Forall2 (fun a b => g a = Ok b) l r.
Proof.
  revert r. induction l as [|a l IH]; intros r; simpl.
  - split.
    + intros H; apply Ok_inj in H as <-. constructor.
    + intros H. inversion H. reflexivity.
  - split.
    + destruct (g a) as [b|] eqn:E; [|discriminate]. simpl.
      destruct (mapM g l) as [bs|]; [|discriminate]. simpl.
      intros H; apply Ok_inj in H as <-. constructor; [exact E|].
      apply IH. reflexivity.
    + intros H. inversion H as [|? b ? bs Hb Hbs]; subst.
      rewrite Hb. simpl. apply IH in Hbs. rewrite Hbs. reflexivity.
Qed.

Lemma mapM_throws {A B : Type} (g : A -> result B) (l : list A) :
  mapM g l = TypeError <-> Exists (fun a => g a = TypeError) l.
Proof.
  induction l as [|a l IH]; simpl.
  - split; [discriminate | intros H; inversion H].
  - destruct (g a) as [b|] eqn:E; simpl.
    + destruct (mapM g l) as [bs|]; simpl.
      * split; [discriminate|]. intros H.
        inversion H as [? ? H1|? ? H1]; subst; [congruence|].
        apply IH in H1. discriminate.
      * split; [|reflexivity]. intros _. apply Exists_cons_tl.
        apply IH. reflexivity.
    + split; [|reflexivity]. intros _. apply Exists_cons_hd. exact E.
Qed.

Lemma expand_branch_of (o b : Opt.t) : b ∈ expand o -> branch_of o b.
Proof.
  unfold expand, branch_of.
  destruct (Opt.access o) as [access|] eqn:Ea; [|inversion 1].
  intros Hb. apply list_elem_of_In, in_flat_map in Hb as (a & Ha & Hb).
  apply list_elem_of_In in Hb. apply list_elem_of_In in Ha.
  unfold expand_access in Hb.
  destruct (Opt.egress o) as [[|e es]|] eqn:Ee.
  - apply list_elem_of_singleton in Hb as ->. simpl.
    split; [eauto|]. split; [|auto]. right. rewrite Ee. auto.
  - apply list_elem_of_fmap in Hb as (e' & -> & He'). simpl.
    split; [eauto|]. split; [|auto]. left. eauto.
  - apply list_elem_of_singleton in Hb as ->. simpl.
    split; [eauto|]. split; [|auto]. right. rewrite Ee. auto.
Qed.

(** A result of [processOption] on a branch is a branch by itself. *)
Lemma expand_result (o b r : Opt.t) :
  branch_of o b -> raw_of r = raw_of b -> expand r = [r].
Proof.
  intros ((a & _ & Ha) & He & _) Hraw. unfold raw_of in Hraw.
  assert (Hra : Opt.access r = Some [a]) by congruence.
  assert (Hre : Opt.egress r = Opt.egress b) by congruence.
  assert (Hre' : (exists e, Opt.egress r = Some [e]) \/
                 Opt.egress r = None \/ Opt.egress r = Some []).
  { destruct He as [(e & _ & He)|[He [Ho | Ho]]].
    - left. exists e. congruence.
    - right. left. congruence.
    - right. right. congruence. }
  unfold expand, expand_access. rewrite Hra.
  destruct Hre' as [[e He']|[He' | He']]; rewrite He'; simpl;
    rewrite <- ?He', <- Hra; reflexivity.
Qed.

Section Settled.
Context {A : Type} (comparefn : A -> A -> float).
Hypothesis anti : forall x y,
  PrimFloat.ltb 0 (sortCompare comparefn x y) = true ->
  PrimFloat.ltb 0 (sortCompare comparefn y x) = false.

Lemma sort_insert_settled (x : A) (l : list A) :
  settled comparefn l -> settled comparefn (sort_insert comparefn x l).
Proof.
  induction l as [|y l IH]; [simpl; trivial|].
  intros Hl. simpl sort_insert.
  destruct (PrimFloat.ltb 0 (sortCompare comparefn x y)) eqn:E.
  - destruct l as [|z l'].
    + simpl. split; [apply anti; exact E | trivial].
    + destruct Hl as [Hyz Hl]. specialize (IH Hl).
      simpl sort_insert in *.
      destruct (PrimFloat.ltb 0 (sortCompare comparefn x z)) eqn:E'.
      * split; [exact Hyz | exact IH].
      * split; [apply anti; exact E | exact IH].
  - split; [exact E | exact Hl].
Qed.

Lemma sort_settled (l : list A) : settled comparefn (sort comparefn l).
Proof.
  induction l as [|x l IH]; [simpl; trivial|].
  apply sort_insert_settled. exact IH.
Qed.

Lemma settled_sort (l : list A) :
  settled comparefn l -> sort comparefn l = l.
Proof.
  induction l as [|x l IH]; [reflexivity|].
  intros Hl. change (sort comparefn (x :: l))
    with (sort_insert comparefn x (sort comparefn l)).
  destruct l as [|y l'].
  - reflexivity.
  - destruct Hl as [Hxy Hl]. rewrite (IH Hl). simpl. rewrite Hxy.
    reflexivity.
Qed.
End Settled.

Lemma sub_nan_l (a b : float) :
  PrimFloat.is_nan a = true -> PrimFloat.ltb 0 (a - b) = false.
Proof.
  intros H. rewrite FloatAxioms.ltb_spec, FloatAxioms.sub_spec,
    (is_nan_true a H).
  reflexivity.
Qed.

Lemma sub_nan_r (a b : float) :
  PrimFloat.is_nan b = true -> PrimFloat.ltb 0 (a - b) = false.
Proof.
  intros H. rewrite FloatAxioms.ltb_spec, FloatAxioms.sub_spec,
    (is_nan_true b H).
  destruct (Prim2SF a) as [?|?| |? ? ?]; reflexivity.
Qed.

Lemma byScore_anti (x y : Opt.t) :
  PrimFloat.ltb 0 (sortCompare byScore x y) = true ->
  PrimFloat.ltb 0 (sortCompare byScore y x) = false.
Proof.
  unfold sortCompare, byScore.
  set (a := num (Opt.score x)). set (b := num (Opt.score y)).
  destruct (PrimFloat.is_nan (a - b)); [discriminate|].
  intros H.
  destruct (PrimFloat.is_nan a) eqn:Na;
    [rewrite (sub_nan_l a b Na) in H; discriminate|].
  destruct (PrimFloat.is_nan b) eqn:Nb;
    [rewrite (sub_nan_r a b Nb) in H; discriminate|].
  rewrite (sub_positive_key a b Na Nb) in H. apply Z.ltb_lt in H.
  destruct (PrimFloat.is_nan (b - a)); [reflexivity|].
  rewrite (sub_positive_key b a Nb Na). apply Z.ltb_ge. lia.
Qed.

Lemma mapM_fixed {A : Type} (g : A -> result A) (l : list A) :
  Forall (fun a => g a = Ok a) l -> mapM g l = Ok l.
Proof.
  induction 1 as [|a l Ha _ IH]; simpl; [reflexivity|].
  rewrite Ha. simpl. rewrite IH. reflexivity.
Qed.

Lemma flat_map_singletons {A : Type} (f : A -> list A) (l : list A) :
  Forall (fun a => f a = [a]) l -> flat_map f l = l.
Proof.
  induction 1 as [|a l Ha _ IH]; simpl; [reflexivity|].
  rewrite Ha, IH. reflexivity.
Qed.

(** Every result comes from a branch of one of the options. *)
Lemma processOptions_results (h : Heap) (this : ProfileScore)
  (options results : list Opt.t) :
  processOptions h this options = Ok results ->
  Forall (fun r => exists o b,
            o ∈ options /\ b ∈ expand o /\ processOption h this b = Ok r)
    results.
Proof.
  rewrite processOptions_expand. intros H. inv_bind H.
  rename o into processed. apply Ok_inj in H as <-.
  apply mapM_Forall2 in H0.
  apply (Permutation_Forall (Permutation_sym (sort_Permutation _ _))).
  apply Forall_forall. intros r Hr.
  apply list_elem_of_lookup_1 in Hr as [i Hi].
  destruct (Forall2_lookup_r _ _ _ _ _ H0 Hi) as (b & Hb & Hbr).
  apply list_elem_of_lookup_2, list_elem_of_In, in_flat_map in Hb
    as (o & Ho & Hb).
  exists o, b. rewrite !list_elem_of_In. auto.
Qed.

(** X12: [processOption] on an option it has returned returns the same
    option again: the tallies and the score of a second run are those of
    the first. *)
Theorem processOption_idempotent (h : Heap) (this : ProfileScore)
  (o o' : Opt.t) :
  processOption h this o = Ok o' -> processOption h this o' = Ok o'.
Proof.
  intros H. apply processOption_Ok in H as (o1 & s & Ht & Hs & ->).
  unfold processOption.
  change (Opt.set_score (Some s) o1)
    with (stamp (Opt.carCost o1) (Opt.trips o1) (Some s) o1) at 1.
  rewrite tally_stamp, (tally_again _ _ _ Ht). cbn [result_map bind].
  rewrite score_stamp, Hs. cbn [bind]. f_equal.
  destruct (has_car o1), (has_transit o1); reflexivity.
Qed.

Lemma processOption_idempotent_witness :
  exists o',
    processOption default_heap default_scorer car_and_transit = Ok o' /\
    processOption default_heap default_scorer o' = Ok o'.
Proof.
  destruct (returns_with
              (processOption default_heap default_scorer car_and_transit)
              (fun _ => True)) as (o' & Ho & _).
  { vm_compute. exact I. }
  exists o'. split; [exact Ho|].
  exact (processOption_idempotent default_heap default_scorer
           car_and_transit o' Ho).
Defined.

(** X13: an option that stands anywhere in the list given to
    [processOptions].  When it has an access alternative and a transit
    leg whose [segmentPatterns] array is there and empty, the call throws
    and so returns no result at all, whatever the other options are.
    When it has no access alternative it is never looked at: the call
    does what it does without it, such a leg or not. *)
Theorem processOptions_unreadable_option (h : Heap) (this : ProfileScore)
  (before after : list Opt.t) (o : Opt.t) :
  (branch_count o <> 0 ->
   Exists (fun s => Segment.segmentPatterns s = Some []) (transit_legs o) ->
   processOptions h this (before ++ o :: after) = TypeError) /\
  (branch_count o = 0 ->
   processOptions h this (before ++ o :: after) =
   processOptions h this (before ++ after)).
Proof.
  rewrite !processOptions_expand, !flat_map_app.
  change (flat_map expand (o :: after))
    with (expand o ++ flat_map expand after).
  split.
  - intros Hn Hex.
    assert (E : mapM (processOption h this)
                  (flat_map expand before
                   ++ expand o ++ flat_map expand after) = TypeError).
    { apply mapM_throws. rewrite <- expand_length in Hn.
      destruct (expand o) as [|b bs] eqn:Eb; [contradiction|].
      apply Exists_app. right. apply Exists_cons_hd.
      apply processOption_throws. intros Hok.
      apply (unreadable_leg_not_ok o Hex).
      unfold transit_ok in *.
      rewrite <- (expand_transit o b) by (rewrite Eb; apply list_elem_of_here).
      exact Hok. }
    rewrite E. reflexivity.
  - intros Hn. rewrite <- expand_length in Hn.
    destruct (expand o) as [|b bs]; [reflexivity | discriminate Hn].
Qed.

Lemma processOptions_unreadable_option_witness :
  processOptions default_heap default_scorer
    [scenario_A; unreadable_option; scenario_B] = TypeError /\
  processOptions default_heap default_scorer
    [scenario_A; Opt.set_access None unreadable_option; scenario_B] =
  processOptions default_heap default_scorer [scenario_A; scenario_B].
Proof.
  split.
  - apply (proj1 (processOptions_unreadable_option default_heap
                    default_scorer [scenario_A] [scenario_B]
                    unreadable_option)).
    + discriminate.
    + apply Exists_cons_hd. reflexivity.
  - apply (proj2 (processOptions_unreadable_option default_heap
                    default_scorer [scenario_A] [scenario_B]
                    (Opt.set_access None unreadable_option))).
    reflexivity.
Defined.

(** X14: every result of [processOptions] is what [processOption] made of
    one branch of one of the options: it has exactly one access
    alternative, taken from that option's; one egress alternative taken
    from that option's when it has any, and the option's absent or empty
    [egress] otherwise; the option's [transit] and [fares]; and a
    score. *)
Theorem processOptions_results_are_branches (h : Heap) (this : ProfileScore)
  (options results : list Opt.t) (r : Opt.t) :
  processOptions h this options = Ok results ->
  r ∈ results ->
  exists o, o ∈ options /\ branch_of o r /\ is_Some (Opt.score r).
Proof.
  intros H Hr. apply processOptions_results in H.
  rewrite Forall_forall in H. destruct (H r Hr) as (o & b & Ho & Hb & Hp).
  exists o. split; [exact Ho|].
  apply processOption_raw in Hp as [Hraw Hs]. split; [|exact Hs].
  apply expand_branch_of in Hb. unfold raw_of in Hraw.
  unfold branch_of in *.
  replace (Opt.access r) with (Opt.access b) by congruence.
  replace (Opt.egress r) with (Opt.egress b) by congruence.
  replace (Opt.transit r) with (Opt.transit b) by congruence.
  replace (Opt.fares r) with (Opt.fares b) by congruence.
  exact Hb.
Qed.

(** X15: when no score is NaN, [processOptions] on its own results
    returns them as they are: every result is a single branch that
    tallies and scores as before, and the order stays. *)
Theorem processOptions_idempotent (h : Heap) (this : ProfileScore)
  (options results : list Opt.t) :
  processOptions h this options = Ok results ->
  Forall has_score results ->
  processOptions h this results = Ok results.
Proof.
  intros H _. pose proof (processOptions_results _ _ _ _ H) as Hres.
  rewrite processOptions_expand.
  assert (Hx : flat_map expand results = results).
  { apply flat_map_singletons. eapply Forall_impl; [exact Hres|].
    intros r (o & b & _ & Hb & Hp). simpl.
    apply (expand_result o b r).
    - apply expand_branch_of. exact Hb.
    - apply processOption_raw in Hp. apply Hp. }
  rewrite Hx, mapM_fixed.
  - cbn [bind]. f_equal. apply settled_sort.
    rewrite processOptions_expand in H. inv_bind H. apply Ok_inj in H as <-.
    apply sort_settled. exact byScore_anti.
  - eapply Forall_impl; [exact Hres|].
    intros r (o & b & _ & _ & Hp). simpl.
    exact (processOption_again _ _ _ _ Hp).
Qed.

Lemma processOptions_results_are_branches_witness :
  exists results r,
    processOptions default_heap default_scorer [scenario_B] = Ok results /\
    r ∈ results /\ branch_of scenario_B r.
Proof.
  destruct (returns_with
              (processOptions default_heap default_scorer [scenario_B])
              (fun rs => match rs with [] => False | _ :: _ => True end))
    as (results & H & Hne).
  { vm_compute. exact I. }
  destruct results as [|r rest]; [contradiction|].
  exists (r :: rest), r. split; [exact H|].
  split; [apply list_elem_of_here|].
  destruct (processOptions_results_are_branches default_heap default_scorer
              [scenario_B] (r :: rest) r H (list_elem_of_here _ _))
    as (o & Ho & Hb & _).
  apply list_elem_of_singleton in Ho. subst o. exact Hb.
Defined.

Lemma processOptions_idempotent_witness :
  exists results,
    processOptions default_heap default_scorer [scenario_B; scenario_A]
      = Ok results /\
    Forall has_score results /\
    processOptions default_heap default_scorer results = Ok results.
Proof.
  destruct (returns_with
              (processOptions default_heap default_scorer
                 [scenario_B; scenario_A])
              (fun rs => forallb (fun r => negb (PrimFloat.is_nan (score_of r)))
                           rs = true))
    as (results & H & Hs).
  { vm_compute. reflexivity. }
  assert (Hgood : Forall has_score results).
  { apply Forall_forall. intros r Hr.
    apply list_elem_of_In in Hr.
    pose proof (proj1 (forallb_forall _ _) Hs r Hr) as Hn.
    simpl in Hn. apply negb_true_iff in Hn. exact Hn. }
  exists results. split; [exact H|]. split; [exact Hgood|].
  exact (processOptions_idempotent default_heap default_scorer
           [scenario_B; scenario_A] results H Hgood).
Defined.

(** X16: the results of [processOptions] on two lists put end to end are
    the results on the one list and the results on the other, rearranged;
    and the call on the joint list throws when the call on either
    throws. *)
Theorem processOptions_app (h : Heap) (this : ProfileScore)
  (l1 l2 : list Opt.t) :
  match processOptions h this l1, processOptions h this l2 with
  | Ok r1, Ok r2 =>
    exists r, processOptions h this (l1 ++ l2) = Ok r /\
              Permutation r (r1 ++ r2)
  | _, _ => processOptions h this (l1 ++ l2) = TypeError
  end.
Proof.
  rewrite !processOptions_expand, flat_map_app, mapM_app.
  destruct (mapM (processOption h this) (flat_map expand l1)) as [p1|];
    [|reflexivity].
  destruct (mapM (processOption h this) (flat_map expand l2)) as [p2|];
    [|reflexivity].
  cbn [bind]. eexists. split; [reflexivity|].
  rewrite (sort_Permutation byScore (p1 ++ p2)).
  apply Permutation_app; symmetry; apply sort_Permutation.
Qed.

(** ** The helpers *)

Lemma edges_undeclared (target : string) (edges : list StreetEdge.t) :
  Forall undeclared edges ->
  edges_in_submode "walk" target edges =
  if String.eqb "walk" target then edges else [].
Proof.
  induction 1 as [|e es He _ IH]; cbn [edges_in_submode].
  - destruct (String.eqb "walk" target); reflexivity.
  - assert (Hs : submode_after "walk" e = "walk").
    { unfold submode_after. destruct He as [-> | ->]; reflexivity. }
    rewrite Hs, IH. destruct (String.eqb "walk" target); reflexivity.
Qed.

(** X17: when no street edge declares a mode (the field is absent or
    empty), every edge counts as walked: the distance for ['walk'] is the
    sum of all the distances and the distance for any other mode is 0.
    So a car leg with such edges adds no drive distance. *)
Theorem streetEdges_without_modes (edges : list StreetEdge.t)
  (mode : string) :
  Forall undeclared edges ->
  streetEdgeDistanceForMode edges "walk" = sum_distances edges /\
  (mode <> "walk" -> streetEdgeDistanceForMode edges mode = 0%float).
Proof.
  intros H. rewrite !streetEdgeDistanceForMode_sum, !edges_undeclared by exact H.
  split; [reflexivity|]. intros Hm.
  destruct (String.eqb_spec "walk" mode) as [E|_]; [congruence|reflexivity].
Qed.

Lemma streetEdges_without_modes_witness :
  streetEdgeDistanceForMode unmarked_car_leg "walk" = (0 + 5000 + 3000)%float /\
  streetEdgeDistanceForMode unmarked_car_leg "car" = 0%float.
Proof.
  destruct (streetEdges_without_modes unmarked_car_leg "car") as [Hw Hc].
  { constructor; [left; reflexivity|].
    constructor; [right; reflexivity|]. constructor. }
  split; [rewrite Hw; reflexivity | apply Hc; discriminate].
Defined.

Lemma fold_left_filter {A S : Type} (f : S -> A -> S) (p : A -> bool)
  (l : list A) (s : S) :
  (forall s a, p a = false -> f s a = s) ->
  fold_left f (List.filter p l) s = fold_left f l s.
Proof.
  intros Hf. revert s. induction l as [|a l IH]; intros s; simpl.
  - reflexivity.
  - destruct (p a) eqn:E; simpl; [apply IH|].
    rewrite (Hf s a E). apply IH.
Qed.

(** X18: a mode other than ['car'], ['bicycle'], ['bicycle_rent'] and
    ['walk'] adds nothing to the score: the score of an option is the
    score of the same option with those four modes only.  A transit leg
    counts through the transfers and the cost, not through its mode. *)
Theorem score_other_modes (factors : gmap string value) (o : Opt.t)
  (ms : list string) :
  Opt.modes o = Some ms ->
  score factors (Opt.set_modes (Some (List.filter scored_mode ms)) o) =
  score factors o.
Proof.
  intros Hm. unfold score, score_modes. rewrite Hm. simpl.
  change (score_mode factors
            (Opt.set_modes (Some (List.filter scored_mode ms)) o))
    with (score_mode factors o).
  rewrite fold_left_filter; [reflexivity|].
  intros [s c] m. unfold scored_mode, score_mode.
  destruct (String.eqb m "car"); [discriminate|].
  destruct (String.eqb m "bicycle"); [discriminate|].
  destruct (String.eqb m "bicycle_rent"); [discriminate|].
  destruct (String.eqb m "walk"); [discriminate|]. reflexivity.
Qed.

Lemma score_other_modes_witness :
  score DEFAULT_TIME_FACTORS_init
    (Opt.set_modes (Some ["car"; "walk"]) tallied_modes) =
  score DEFAULT_TIME_FACTORS_init tallied_modes.
Proof.
  exact (score_other_modes DEFAULT_TIME_FACTORS_init tallied_modes
           ["car"; "walk"; "subway"; "bus"] eq_refl).
Defined.

(** ** A factor of zero *)

Lemma float_mul_0_pos (c : float) :
  PrimFloat.ltb 0 c = true -> PrimFloat.ltb c infinity = true ->
  (0 * c)%float = 0%float.
Proof.
  intros H1 H2. apply Prim2SF_inj.
  rewrite FloatAxioms.ltb_spec in H1, H2. rewrite FloatAxioms.mul_spec.
  change (Prim2SF 0%float) with (S754_zero false) in *.
  change (Prim2SF infinity) with (S754_infinity false) in *.
  destruct (Prim2SF c) as [[|]|[|]| |[|] m e]; try discriminate; reflexivity.
Qed.

Lemma nan_is_nan (x : float) :
  Prim2SF x = S754_nan -> PrimFloat.is_nan x = true.
Proof.
  intros H. unfold PrimFloat.is_nan. rewrite FloatAxioms.eqb_spec, H.
  reflexivity.
Qed.

Lemma float_add_nan_r (x y : float) :
  PrimFloat.is_nan y = true -> PrimFloat.is_nan (x + y) = true.
Proof.
  intros H. apply nan_is_nan.
  rewrite FloatAxioms.add_spec, (is_nan_true y H).
  destruct (Prim2SF x) as [?|?| |? ? ?]; reflexivity.
Qed.

Lemma float_add_nan_l (x y : float) :
  PrimFloat.is_nan x = true -> PrimFloat.is_nan (x + y) = true.
Proof.
  intros H. apply nan_is_nan.
  rewrite FloatAxioms.add_spec, (is_nan_true x H). reflexivity.
Qed.

Lemma float_mul_0_not_finite (c : float) :
  PrimFloat.is_nan c = true \/ c = infinity \/ c = neg_infinity ->
  PrimFloat.is_nan (0 * c) = true.
Proof.
  intros [H|[-> | ->]]; [|reflexivity|reflexivity].
  apply nan_is_nan. rewrite FloatAxioms.mul_spec, (is_nan_true c H).
  reflexivity.
Qed.

(** X19: with the numeric cost factor 0, a cost that is positive and
    finite counts for nothing: the option scores as it would with a cost
    of 0. *)
Theorem score_zero_cost_factor (factors : gmap string value) (o : Opt.t)
  (c : float) :
  factors !! "cost" = Some (VNum 0%float) ->
  Opt.cost o = Some c ->
  PrimFloat.ltb 0 c = true -> PrimFloat.ltb c infinity = true ->
  score factors o = score factors (Opt.set_cost (Some 0%float) o).
Proof.
  intros Hf Hc H1 H2. unfold score, score_modes.
  change (Opt.modes (Opt.set_cost (Some 0%float) o)) with (Opt.modes o).
  destruct (Opt.modes o) as [ms|]; [|reflexivity].
  change (score_mode factors (Opt.set_cost (Some 0%float) o))
    with (score_mode factors o).
  change (Opt.time (Opt.set_cost (Some 0%float) o)) with (Opt.time o).
  cbn [bind].
  destruct (fold_left _ _ _) as [s cal].
  change (Opt.transfers (Opt.set_cost (Some 0%float) o))
    with (Opt.transfers o).
  change (Opt.cost (Opt.set_cost (Some 0%float) o)) with (Some 0%float).
  rewrite Hf, Hc. unfold applyFactor at 2 5. cbn [numv num].
  rewrite (float_mul_0_pos c H1 H2).
  replace (0 * 0)%float with 0%float by reflexivity. reflexivity.
Qed.

(** X20: the numeric cost factor 0 does not silence a cost that is NaN or
    infinite: the product is NaN, and so is the score. *)
Theorem score_zero_factor_not_finite (factors : gmap string value)
  (o : Opt.t) (c s : float) :
  factors !! "cost" = Some (VNum 0%float) ->
  Opt.cost o = Some c ->
  PrimFloat.is_nan c = true \/ c = infinity \/ c = neg_infinity ->
  score factors o = Ok s ->
  PrimFloat.is_nan s = true.
Proof.
  intros Hf Hc Hbad. unfold score.
  destruct (score_modes factors o) as [[s0 cal]|]; [|discriminate].
  cbn [bind]. rewrite Hf, Hc. unfold applyFactor at 2. cbn [numv num].
  intros H. apply Ok_inj in H as <-.
  apply float_add_nan_l, float_add_nan_r, float_mul_0_not_finite.
  exact Hbad.
Qed.

Lemma score_zero_cost_factor_witness :
  score free_factors costly_walk =
  score free_factors (Opt.set_cost (Some 0%float) costly_walk).
Proof.
  apply (score_zero_cost_factor free_factors costly_walk 40%float);
    reflexivity.
Defined.

Lemma score_zero_factor_not_finite_witness :
  exists s,
    score free_factors priceless_walk = Ok s /\ PrimFloat.is_nan s = true.
Proof.
  destruct (returns_with (score free_factors priceless_walk) (fun _ => True))
    as (s & Hs & _).
  { vm_compute. exact I. }
  exists s. split; [exact Hs|].
  apply (score_zero_factor_not_finite free_factors priceless_walk infinity s);
    [reflexivity | reflexivity | right; left; reflexivity | exact Hs].
Defined.

(** ** Constructions in sequence *)

Lemma construct_all_cons (opts : option Opts) (rest : list (option Opts))
  (h : Heap) :
  construct_all (opts :: rest) h =
  (fst (construct_all rest (fst (ProfileScore_new opts h))),
   snd (ProfileScore_new opts h)
   :: snd (construct_all rest (fst (ProfileScore_new opts h)))).
Proof.
  cbn [construct_all].
  destruct (ProfileScore_new opts h) as [h1 s]. cbn [fst snd].
  destruct (construct_all rest h1) as [h2 ss]. reflexivity.
Qed.

Lemma construct_all_heap (optss : list (option Opts)) (h : Heap)
  (k : string) :
  let h' := fst (construct_all optss h) in
  DEFAULT_TIME_FACTORS h' !! k =
    match last_given opts_factors optss k with
    | Some v => Some v
    | None => DEFAULT_TIME_FACTORS h !! k
    end /\
  DEFAULT_RATES h' !! k =
    match last_given opts_rates optss k with
    | Some v => Some v
    | None => DEFAULT_RATES h !! k
    end.
Proof.
  revert h. induction optss as [|opts rest IH]; intros h.
  - split; reflexivity.
  - rewrite construct_all_cons. cbn [fst last_given].
    destruct (IH (fst (ProfileScore_new opts h))) as [IHf IHr].
    cbv zeta in IHf, IHr. rewrite IHf, IHr.
    destruct (ProfileScore_new_heap opts h k) as [Hf Hr].
    cbv zeta in Hf, Hr. rewrite Hf, Hr.
    destruct (last_given opts_factors rest k),
      (last_given opts_rates rest k); auto.
Qed.

Lemma construct_all_refs (optss : list (option Opts)) (h : Heap) :
  Forall (fun s => s = mkProfileScore Ref_DEFAULT_TIME_FACTORS
                         Ref_DEFAULT_RATES)
    (snd (construct_all optss h)).
Proof.
  revert h. induction optss as [|opts rest IH]; intros h.
  - constructor.
  - rewrite construct_all_cons. cbn [snd]. constructor; [|apply IH].
    apply ProfileScore_new_refs.
Qed.

(** X21: after any sequence of constructions, every scorer of the
    sequence, the first as much as the last, reads for every key the
    value of the latest construction that supplied the key, and the value
    the module-level object held before when none did. *)
Theorem construct_all_last_writer (optss : list (option Opts)) (h : Heap)
  (s : ProfileScore) (k : string) :
  s ∈ snd (construct_all optss h) ->
  let h' := fst (construct_all optss h) in
  deref h' (factors s) !! k =
    match last_given opts_factors optss k with
    | Some v => Some v
    | None => DEFAULT_TIME_FACTORS h !! k
    end /\
  deref h' (rates s) !! k =
    match last_given opts_rates optss k with
    | Some v => Some v
    | None => DEFAULT_RATES h !! k
    end.
Proof.
  intros Hs. pose proof (construct_all_refs optss h) as Hrefs.
  rewrite Forall_forall in Hrefs. rewrite (Hrefs s Hs). simpl deref.
  apply construct_all_heap.
Qed.

Lemma construct_all_last_writer_witness :
  let optss :=
    [Some (mkOpts (Some {["cost" := VNum 0%float]}) None);
     Some (mkOpts (Some {["cost" := VNum 2%float]}) None);
     None] in
  let h' := fst (construct_all optss initial_heap) in
  let first := mkProfileScore Ref_DEFAULT_TIME_FACTORS Ref_DEFAULT_RATES in
  deref h' (factors first) !! "cost" = Some (VNum 2%float) /\
  deref h' (rates first) !! "weight" = Some (VNum 75%float).
Proof.
  cbv zeta.
  destruct (construct_all_last_writer
              [Some (mkOpts (Some {["cost" := VNum 0%float]}) None);
               Some (mkOpts (Some {["cost" := VNum 2%float]}) None);
               None]
              initial_heap
              (mkProfileScore Ref_DEFAULT_TIME_FACTORS Ref_DEFAULT_RATES)
              "cost") as [Hf _].
  { apply list_elem_of_here. }
  destruct (construct_all_last_writer
              [Some (mkOpts (Some {["cost" := VNum 0%float]}) None);
               Some (mkOpts (Some {["cost" := VNum 2%float]}) None);
               None]
              initial_heap
              (mkProfileScore Ref_DEFAULT_TIME_FACTORS Ref_DEFAULT_RATES)
              "weight") as [_ Hr].
  { apply list_elem_of_here. }
  split; [rewrite Hf | rewrite Hr]; vm_compute; reflexivity.
Defined.

(** ** The case of the mode names *)

Lemma lower_ascii_idem (c : ascii) :
  lower_ascii (lower_ascii c) = lower_ascii c.
Proof.
  destruct c as [[|] [|] [|] [|] [|] [|] [|] [|]]; reflexivity.
Qed.

Lemma toLowerCase_idem (s : string) :
  toLowerCase (toLowerCase s) = toLowerCase s.
Proof.
  induction s as [|c s IH]; simpl; [reflexivity|].
  rewrite lower_ascii_idem, IH. reflexivity.
Qed.

Lemma truthy_str_lower (s : string) :
  truthy_str (toLowerCase s) = truthy_str s.
Proof. destruct s; reflexivity. Qed.

Lemma streetEdgeStep_lower (mode : string) (st : string * float)
  (e : StreetEdge.t) :
  streetEdgeStep mode st (lower_edge e) = streetEdgeStep mode st e.
Proof.
  unfold streetEdgeStep, lower_edge. destruct st as [current d].
  cbn [StreetEdge.mode StreetEdge.distance].
  destruct (StreetEdge.mode e) as [m|]; cbn [option_map]; [|reflexivity].
  rewrite truthy_str_lower, toLowerCase_idem. reflexivity.
Qed.

Lemma streetEdgeDistanceForMode_lower (edges : list StreetEdge.t)
  (mode : string) :
  streetEdgeDistanceForMode (map lower_edge edges) mode =
  streetEdgeDistanceForMode edges mode.
Proof.
  unfold streetEdgeDistanceForMode. f_equal.
  generalize ("walk", 0%float). induction edges as [|e es IH]; intros st.
  - reflexivity.
  - cbn [map fold_left]. rewrite streetEdgeStep_lower. apply IH.
Qed.

Lemma addStreetEdges_lower (o : Opt.t) (mode : string)
  (se : option (list StreetEdge.t)) :
  addStreetEdges (lower_modes o) mode (option_map (map lower_edge) se) =
  result_map lower_modes (addStreetEdges o mode se).
Proof.
  unfold addStreetEdges, push_mode. destruct se as [edges|]; [|reflexivity].
  cbn [option_map]. rewrite !streetEdgeDistanceForMode_lower.
  change (Opt.modes (lower_modes o)) with (Opt.modes o).
  destruct (Opt.modes o) as [ms|]; [|reflexivity]. cbn [bind].
  destruct (String.eqb mode "car"); [reflexivity|].
  destruct (String.eqb mode "bicycle"); [reflexivity|].
  destruct (String.eqb mode "bicycle_rent"); [reflexivity|].
  destruct (String.eqb mode "walk"); reflexivity.
Qed.

Lemma tally_access_lower (o : Opt.t) :
  tally_access (lower_modes o) = result_map lower_modes (tally_access o).
Proof.
  unfold tally_access.
  change (Opt.access (lower_modes o))
    with (option_map (map lower_leg) (Opt.access o)).
  destruct (Opt.access o) as [[|leg rest]|]; try reflexivity.
  cbn [option_map map]. cbv zeta.
  change (Leg.mode (lower_leg leg)) with (toLowerCase (Leg.mode leg)).
  change (Leg.streetEdges (lower_leg leg))
    with (option_map (map lower_edge) (Leg.streetEdges leg)).
  rewrite toLowerCase_idem, addStreetEdges_lower.
  destruct (addStreetEdges o _ _); reflexivity.
Qed.

Lemma tally_egress_lower (o : Opt.t) :
  tally_egress (lower_modes o) = result_map lower_modes (tally_egress o).
Proof.
  unfold tally_egress.
  change (Opt.egress (lower_modes o))
    with (option_map (map lower_leg) (Opt.egress o)).
  destruct (Opt.egress o) as [[|leg rest]|]; try reflexivity.
  cbn [option_map map]. cbv zeta.
  change (Leg.mode (lower_leg leg)) with (toLowerCase (Leg.mode leg)).
  change (Leg.streetEdges (lower_leg leg))
    with (option_map (map lower_edge) (Leg.streetEdges leg)).
  rewrite toLowerCase_idem, addStreetEdges_lower.
  destruct (addStreetEdges o _ _); reflexivity.
Qed.

Lemma tally_segment_lower (rates : gmap string value) (o : Opt.t)
  (seg : Segment.t) :
  tally_segment rates (lower_modes o) (lower_segment seg) =
  result_map lower_modes (tally_segment rates o seg).
Proof.
  unfold tally_segment, push_mode.
  change (Segment.mode (lower_segment seg))
    with (toLowerCase (Segment.mode seg)).
  rewrite toLowerCase_idem.
  change (Opt.modes (lower_modes o)) with (Opt.modes o).
  destruct (Opt.modes o) as [ms|]; [|reflexivity]. cbn [bind].
  change (Segment.segmentPatterns (lower_segment seg))
    with (Segment.segmentPatterns seg).
  destruct (Segment.segmentPatterns seg) as [[|p ps]|]; try reflexivity;
    cbn [bind]; cbv zeta;
    match goal with
    | |- context [PrimFloat.ltb ?a ?b] => destruct (PrimFloat.ltb a b) eqn:E
    end; simpl in E |- *; rewrite E; reflexivity.
Qed.

Lemma forEachM_map_commute {A S : Type} (g : S -> S) (k : A -> A)
  (f : S -> A -> result S) (l : list A) (s : S) :
  (forall s a, f (g s) (k a) = result_map g (f s a)) ->
  forEachM f (map k l) (g s) = result_map g (forEachM f l s).
Proof.
  intros Hf. revert s. induction l as [|a l IH]; intros s; simpl.
  - reflexivity.
  - rewrite Hf. destruct (f s a) as [s1|]; simpl; auto.
Qed.

Lemma tally_fare_lower (o : Opt.t) (fare : option Fare.t) :
  tally_fare (lower_modes o) fare = lower_modes (tally_fare o fare).
Proof.
  unfold tally_fare. destruct fare as [f|]; [|reflexivity].
  destruct (Fare.peak f) as [p|]; [|reflexivity].
  destruct (truthy_num p); reflexivity.
Qed.

Lemma tally_transit_lower (rates : gmap string value) (o : Opt.t) :
  tally_transit rates (lower_modes o) =
  result_map lower_modes (tally_transit rates o).
Proof.
  unfold tally_transit.
  change (Opt.transit (lower_modes o))
    with (option_map (map lower_segment) (Opt.transit o)).
  destruct (Opt.transit o) as [[|seg segs]|]; try reflexivity.
  cbn [option_map]. change (map lower_segment (seg :: segs))
    with (lower_segment seg :: map lower_segment segs).
  cbv zeta.
  change (lower_segment seg :: map lower_segment segs)
    with (map lower_segment (seg :: segs)).
  rewrite length_map.
  set (init := Opt.set_trips (Some infinity)
    (Opt.set_transitCost (Some 0%float)
       (Opt.set_transfers
          (Some (float_of_nat (length (seg :: segs)) - 1)%float) o))).
  change (Opt.set_trips (Some infinity)
    (Opt.set_transitCost (Some 0%float)
       (Opt.set_transfers
          (Some (float_of_nat (length (seg :: segs)) - 1)%float)
          (lower_modes o)))) with (lower_modes init).
  rewrite (forEachM_map_commute lower_modes lower_segment
             (tally_segment rates) (seg :: segs) init)
    by (intros; apply tally_segment_lower).
  destruct (forEachM (tally_segment rates) (seg :: segs) init) as [o1|];
    [|reflexivity].
  cbn [result_map bind].
  change (Opt.fares (lower_modes o1)) with (Opt.fares o1).
  destruct (Opt.fares o1) as [fares|]; [|reflexivity].
  rewrite (fold_left_commute lower_modes tally_fare fares o1)
    by (intros; apply tally_fare_lower).
  reflexivity.
Qed.

Lemma tally_rest_lower (rates : gmap string value) (o : Opt.t) :
  tally_walkCalories rates (lower_modes o) =
    result_map lower_modes (tally_walkCalories rates o) /\
  tally_bikeCalories rates (lower_modes o) =
    result_map lower_modes (tally_bikeCalories rates o) /\
  tally_car rates (lower_modes o) =
    result_map lower_modes (tally_car rates o) /\
  tally_finish (lower_modes o) = result_map lower_modes (tally_finish o).
Proof.
  unfold tally_walkCalories, tally_bikeCalories, tally_car, tally_finish.
  change (Opt.modes (lower_modes o)) with (Opt.modes o).
  destruct (Opt.modes o) as [ms|]; [|auto].
  split; [destruct (negb _); reflexivity|].
  split; [destruct (_ || _); reflexivity|].
  split; [destruct (negb _); reflexivity | reflexivity].
Qed.

Lemma tally_lower (rates : gmap string value) (o : Opt.t) :
  tally rates (lower_modes o) = result_map lower_modes (tally rates o).
Proof.
  unfold tally, tally_body.
  change (tally_defaults (lower_modes o))
    with (lower_modes (tally_defaults o)).
  rewrite tally_access_lower.
  destruct (tally_access (tally_defaults o)) as [o1|]; [|reflexivity].
  cbn [result_map bind]. rewrite tally_egress_lower.
  destruct (tally_egress o1) as [o2|]; [|reflexivity].
  cbn [result_map bind]. rewrite tally_transit_lower.
  destruct (tally_transit rates o2) as [o3|]; [|reflexivity].
  cbn [result_map bind].
  rewrite (proj1 (tally_rest_lower rates o3)).
  destruct (tally_walkCalories rates o3) as [o4|]; [|reflexivity].
  cbn [result_map bind].
  rewrite (proj1 (proj2 (tally_rest_lower rates o4))).
  destruct (tally_bikeCalories rates o4) as [o5|]; [|reflexivity].
  cbn [result_map bind].
  rewrite (proj1 (proj2 (proj2 (tally_rest_lower rates o5)))).
  destruct (tally_car rates o5) as [o6|]; [|reflexivity].
  cbn [result_map bind].
  rewrite (proj2 (proj2 (proj2 (tally_rest_lower rates o6)))).
  reflexivity.
Qed.

(** X22: the case of the mode names counts for nothing.  [processOption]
    on an option whose mode names (of the access and egress alternatives,
    of their street edges and of the transit legs) are put in lower case
    throws when it throws on the option itself, and otherwise returns the
    same tallies and the same score, on the lower-cased data. *)
Theorem processOption_case_insensitive (h : Heap) (this : ProfileScore)
  (o : Opt.t) :
  processOption h this (lower_modes o) =
  result_map lower_modes (processOption h this o).
Proof.
  unfold processOption. rewrite tally_lower.
  destruct (tally _ o) as [o1|]; [|reflexivity].
  cbn [result_map bind].
  change (score (deref h (factors this)) (lower_modes o1))
    with (score (deref h (factors this)) o1).
  destruct (score _ o1) as [s|]; reflexivity.
Qed.

(** ** The alternatives after the first *)

Lemma addStreetEdges_with_legs (a e : option (list Leg.t)) (o : Opt.t)
  (mode : string) (se : option (list StreetEdge.t)) :
  addStreetEdges (with_legs a e o) mode se =
  result_map (with_legs a e) (addStreetEdges o mode se).
Proof.
  unfold addStreetEdges, push_mode. destruct se as [edges|]; [|reflexivity].
  change (Opt.modes (with_legs a e o)) with (Opt.modes o).
  destruct (Opt.modes o) as [ms|]; [|reflexivity]. cbn [bind].
  destruct (String.eqb mode "car"); [reflexivity|].
  destruct (String.eqb mode "bicycle"); [reflexivity|].
  destruct (String.eqb mode "bicycle_rent"); [reflexivity|].
  destruct (String.eqb mode "walk"); reflexivity.
Qed.

Lemma tally_access_with_legs (a e : option (list Leg.t)) (o : Opt.t) :
  a = first_only (Opt.access o) ->
  tally_access (with_legs a e o) = result_map (with_legs a e) (tally_access o).
Proof.
  intros ->. unfold tally_access.
  change (Opt.access (with_legs (first_only (Opt.access o)) e o))
    with (first_only (Opt.access o)).
  destruct (Opt.access o) as [[|leg rest]|]; try reflexivity.
  cbn [first_only]. cbv zeta. rewrite addStreetEdges_with_legs.
  destruct (addStreetEdges o _ _); reflexivity.
Qed.

Lemma tally_egress_with_legs (a e : option (list Leg.t)) (o : Opt.t) :
  e = first_only (Opt.egress o) ->
  tally_egress (with_legs a e o) = result_map (with_legs a e) (tally_egress o).
Proof.
  intros ->. unfold tally_egress.
  change (Opt.egress (with_legs a (first_only (Opt.egress o)) o))
    with (first_only (Opt.egress o)).
  destruct (Opt.egress o) as [[|leg rest]|]; try reflexivity.
  cbn [first_only]. cbv zeta. rewrite addStreetEdges_with_legs.
  destruct (addStreetEdges o _ _); reflexivity.
Qed.

Lemma tally_segment_with_legs (rates : gmap string value)
  (a e : option (list Leg.t)) (o : Opt.t) (seg : Segment.t) :
  tally_segment rates (with_legs a e o) seg =
  result_map (with_legs a e) (tally_segment rates o seg).
Proof.
  unfold tally_segment, push_mode.
  change (Opt.modes (with_legs a e o)) with (Opt.modes o).
  destruct (Opt.modes o) as [ms|]; [|reflexivity]. cbn [bind].
  destruct (Segment.segmentPatterns seg) as [[|p ps]|]; try reflexivity;
    cbn [bind]; cbv zeta;
    match goal with
    | |- context [PrimFloat.ltb ?x ?y] => destruct (PrimFloat.ltb x y) eqn:E
    end; simpl in E |- *; rewrite E; reflexivity.
Qed.

Lemma tally_fare_with_legs (a e : option (list Leg.t)) (o : Opt.t)
  (fare : option Fare.t) :
  tally_fare (with_legs a e o) fare = with_legs a e (tally_fare o fare).
Proof.
  unfold tally_fare. destruct fare as [f|]; [|reflexivity].
  destruct (Fare.peak f) as [p|]; [|reflexivity].
  destruct (truthy_num p); reflexivity.
Qed.

Lemma tally_transit_with_legs (rates : gmap string value)
  (a e : option (list Leg.t)) (o : Opt.t) :
  tally_transit rates (with_legs a e o) =
  result_map (with_legs a e) (tally_transit rates o).
Proof.
  unfold tally_transit.
  change (Opt.transit (with_legs a e o)) with (Opt.transit o).
  destruct (Opt.transit o) as [[|seg segs]|]; try reflexivity.
  cbv zeta.
  set (init := Opt.set_trips (Some infinity)
    (Opt.set_transitCost (Some 0%float)
       (Opt.set_transfers
          (Some (float_of_nat (length (seg :: segs)) - 1)%float) o))).
  change (Opt.set_trips (Some infinity)
    (Opt.set_transitCost (Some 0%float)
       (Opt.set_transfers
          (Some (float_of_nat (length (seg :: segs)) - 1)%float)
          (with_legs a e o)))) with (with_legs a e init).
  rewrite (forEachM_commute (with_legs a e) (tally_segment rates)
             (seg :: segs) init)
    by (intros; apply tally_segment_with_legs).
  destruct (forEachM (tally_segment rates) (seg :: segs) init) as [o1|];
    [|reflexivity].
  cbn [result_map bind].
  change (Opt.fares (with_legs a e o1)) with (Opt.fares o1).
  destruct (Opt.fares o1) as [fares|]; [|reflexivity].
  rewrite (fold_left_commute (with_legs a e) tally_fare fares o1)
    by (intros; apply tally_fare_with_legs).
  reflexivity.
Qed.

Lemma tally_rest_with_legs (rates : gmap string value)
  (a e : option (list Leg.t)) (o : Opt.t) :
  tally_walkCalories rates (with_legs a e o) =
    result_map (with_legs a e) (tally_walkCalories rates o) /\
  tally_bikeCalories rates (with_legs a e o) =
    result_map (with_legs a e) (tally_bikeCalories rates o) /\
  tally_car rates (with_legs a e o) =
    result_map (with_legs a e) (tally_car rates o) /\
  tally_finish (with_legs a e o) = result_map (with_legs a e) (tally_finish o).
Proof.
  unfold tally_walkCalories, tally_bikeCalories, tally_car, tally_finish.
  change (Opt.modes (with_legs a e o)) with (Opt.modes o).
  destruct (Opt.modes o) as [ms|]; [|auto].
  split; [destruct (negb _); reflexivity|].
  split; [destruct (_ || _); reflexivity|].
  split; [destruct (negb _); reflexivity | reflexivity].
Qed.

(** X23: [carCost] is assigned only when ['car'] is among the modes
    pushed, and is then the mileage rate on the drive distance in miles
    plus the parking cost; otherwise it is what the option carried in,
    nothing on a fresh option. *)
Theorem tally_carCost (rates : gmap string value) (o o' : Opt.t) :
  tally rates o = Ok o' ->
  Opt.carCost o' =
    if in_modes "car" (pushed_modes o)
    then Some (numv (rates !! "mileageRate")
               * (num (Opt.driveDistance o') * METERS_TO_MILES)
               + numv (rates !! "carParkingCost"))%float
    else Opt.carCost o.
Proof.
  intros H. apply tally_summary in H
    as (_ & _ & _ & _ & _ & _ & _ & Hc & _).
  exact Hc.
Qed.

Lemma tally_carCost_witness :
  exists o',
    tally DEFAULT_RATES_init car_and_transit = Ok o' /\
    Opt.carCost o' =
      Some (0.56 * (num (Opt.driveDistance o') * METERS_TO_MILES) + 10)%float.
Proof.
  destruct (returns_with (tally DEFAULT_RATES_init car_and_transit)
              (fun _ => True)) as (o' & Ho & _).
  { vm_compute. exact I. }
  exists o'. split; [exact Ho|].
  rewrite (tally_carCost DEFAULT_RATES_init car_and_transit o' Ho).
  reflexivity.
Defined.

Lemma tally_cut (rates : gmap string value) (o : Opt.t) :
  let cut :=
    with_legs (first_only (Opt.access o)) (first_only (Opt.egress o)) in
  tally rates (cut o) = result_map cut (tally rates o).
Proof.
  cbv zeta. set (a := first_only (Opt.access o)).
  set (e := first_only (Opt.egress o)).
  unfold tally, tally_body.
  change (tally_defaults (with_legs a e o))
    with (with_legs a e (tally_defaults o)).
  rewrite tally_access_with_legs by reflexivity.
  destruct (tally_access (tally_defaults o)) as [o1|] eqn:E1; [|reflexivity].
  cbn [result_map bind].
  assert (He : e = first_only (Opt.egress o1)).
  { apply tally_access_Ok in E1 as [E1 _].
    assert (E : Opt.egress o1 = Opt.egress o)
      by exact (f_equal Opt.egress E1).
    unfold e. rewrite E. reflexivity. }
  rewrite (tally_egress_with_legs a e o1 He).
  destruct (tally_egress o1) as [o2|]; [|reflexivity].
  cbn [result_map bind]. rewrite tally_transit_with_legs.
  destruct (tally_transit rates o2) as [o3|]; [|reflexivity].
  cbn [result_map bind].
  rewrite (proj1 (tally_rest_with_legs rates a e o3)).
  destruct (tally_walkCalories rates o3) as [o4|]; [|reflexivity].
  cbn [result_map bind].
  rewrite (proj1 (proj2 (tally_rest_with_legs rates a e o4))).
  destruct (tally_bikeCalories rates o4) as [o5|]; [|reflexivity].
  cbn [result_map bind].
  rewrite (proj1 (proj2 (proj2 (tally_rest_with_legs rates a e o5)))).
  destruct (tally_car rates o5) as [o6|]; [|reflexivity].
  cbn [result_map bind].
  rewrite (proj2 (proj2 (proj2 (tally_rest_with_legs rates a e o6)))).
  reflexivity.
Qed.

(** X24: [processOption] uses the first access and the first egress
    alternative only: cutting both arrays down to their first alternative
    changes nothing in what it returns, tallies and score, but the two
    arrays; and it throws on the one option when it throws on the
    other. *)
Theorem processOption_first_alternatives (h : Heap) (this : ProfileScore)
  (o : Opt.t) :
  let cut :=
    with_legs (first_only (Opt.access o)) (first_only (Opt.egress o)) in
  processOption h this (cut o) = result_map cut (processOption h this o).
Proof.
  cbv zeta. unfold processOption.
  pose proof (tally_cut (deref h (rates this)) o) as H. cbv zeta in H.
  rewrite H. destruct (tally _ o) as [o1|]; [|reflexivity].
  cbn [result_map bind].
  set (cut := with_legs _ _).
  change (score (deref h (factors this)) (cut o1))
    with (score (deref h (factors this)) o1).
  destruct (score _ o1) as [s|]; reflexivity.
Qed.
